(** * xrft: coordinate-aware discrete Fourier transforms of labelled arrays

    A shallow embedding of [xrft/xrft.py].  Coordinates, spacings and
    tolerances are exact rationals ([Qc]); array elements belong to a
    numerical backend (the counterpart of [_fft_module]), which also supplies
    the FFT kernels.  Python exceptions are values of [exn], and every
    function that can raise returns a [result]. *)

From Stdlib Require Import QArith Qcanon Qcabs ZArith List String Ascii Lia Lqa.
From stdpp Require Import base option strings gmap list.

Set Warnings "-clear-no-such-hyp".

Local Open Scope string_scope.
Local Open Scope list_scope.

(** ** Exact rationals standing for Python floats *)

Declare Scope coord_scope.
Delimit Scope coord_scope with q.
Bind Scope coord_scope with Qc.
Infix "+" := Qcplus : coord_scope.
Infix "-" := Qcminus : coord_scope.
Infix "*" := Qcmult : coord_scope.
Infix "/" := Qcdiv : coord_scope.
Notation "- x" := (Qcopp x) : coord_scope.
Notation "/ x" := (Qcinv x) : coord_scope.
Infix "<=" := Qcle : coord_scope.
Infix "<" := Qclt : coord_scope.
Notation "0" := (Q2Qc 0) : coord_scope.
Notation "1" := (Q2Qc 1) : coord_scope.
Notation "2" := (Q2Qc 2) : coord_scope.
Notation "- 1" := (Qcopp (Q2Qc 1)) : coord_scope.

Global Instance Qc_inhabited : Inhabited Qc := populate 0%q.

Definition qz (z : Z) : Qc := Qc_of_Z z.
Definition qn (n : nat) : Qc := Qc_of_Z (Z.of_nat n).
Definition qfrac (a : Z) (b : positive) : Qc := Q2Qc (a # b).

Definition qleb (x y : Qc) : bool := bool_decide (x <= y)%q.
Definition qltb (x y : Qc) : bool := bool_decide (x < y)%q.
Definition qeqb (x y : Qc) : bool := bool_decide (x = y).

(** [np.prod] of a list of floats. *)
Definition np_prod (l : list Qc) : Qc := foldr Qcmult 1%q l.

(** ** Exceptions and results *)

(** One constructor per [raise] of the module (all are [ValueError]s in the
    source, told apart by their message), then the exceptions of the Python
    runtime and of the libraries the module calls. *)
Inductive exn : Type :=
| NotEvenlySpaced (d : string)     (* "coodinate %s is not evenly spaced" *)
| ZeroSpacing (d : string)         (* "spacing in coordinate %s is zero" *)
| NotCentered (d : string)         (* "coordinate %s is not centered on zero frequency" *)
| RealDimMissing                   (* "The dimension along which real FT is taken must be ..." *)
| LagLengthMismatch                (* "dim and lag must have the same length." *)
| DifferentDimensions              (* "The two datasets have different dimensions" *)
| UnknownScaling (s : string)      (* "Unknown {} scaling flag" *)
| ChunksNotEqual                   (* "Chunk lengths need to be the same." *)
| NotTwoDimensional                (* "The Fourier transform should be two dimensional" *)
| WindowNotImplemented             (* NotImplementedError in _apply_window *)
| DetrendError                     (* raised inside the detrend module *)
| BinsNotPositive                  (* pandas.cut: bins should be a positive integer *)
| AxisNotFound (d : string)        (* DataArray.get_axis_num on an unknown dimension *)
| NotAPermutation                  (* DataArray.transpose with other names than the dimensions *)
| AlignmentError                   (* xarray: conflicting sizes for a dimension *)
| EmptyInput                       (* pandas.cut: cannot cut empty array *)
| IndexError                       (* indexing past the end of a sequence *)
| ZeroDivisionError
| KeyError (k : string)            (* DataArray.__getitem__ on an unknown name *)
| AttributeError (a : string)      (* attribute missing from a coordinate *)
| TypeError                        (* unexpected keyword argument, ill-typed value *)
| NameError (f : string).          (* call of an undefined global *)

Global Instance exn_eq_dec : EqDecision exn.
Proof. solve_decision. Defined.

Inductive result (A : Type) : Type :=
| Ok (a : A)
| Raise (e : exn).
Arguments Ok {A} a.
Arguments Raise {A} e.

Global Instance result_eq_dec {A} `{EqDecision A} : EqDecision (result A).
Proof. solve_decision. Defined.

Global Instance result_ret : MRet result := @Ok.
Global Instance result_bind : MBind result := fun A B f m =>
  match m with Ok a => f a | Raise e => Raise e end.
Global Instance result_fmap : FMap result := fun A B f m =>
  match m with Ok a => Ok (f a) | Raise e => Raise e end.

Definition is_ok {A} (r : result A) : bool :=
  match r with Ok _ => true | Raise _ => false end.

(** The computation returns a value, and the value passes the test [P]. *)
Definition returns {A} (r : result A) (P : A → bool) : bool :=
  match r with Ok a => P a | Raise _ => false end.

Definition or_raise {A} (e : exn) (o : option A) : result A :=
  match o with Some a => Ok a | None => Raise e end.

(** [for x in l: f(x)] where the body may raise: the first exception ends
    the loop. *)
Fixpoint mapR {A B} (f : A → result B) (l : list A) : result (list B) :=
  match l with
  | [] => Ok []
  | x :: l' => y ← f x; ys ← mapR f l'; Ok (y :: ys)
  end.

(** A loop that threads a value through a body that may raise. *)
Definition foldM {A X} (step : A → X → result A) (l : list X) (a : A) : result A :=
  foldl (fun acc x => a ← acc; step a x) (Ok a) l.

(** ** Python strings *)

(** [s[:n]] and [s[n:]]. *)
Fixpoint str_take (n : nat) (s : string) : string :=
  match n, s with
  | S n', String c s' => String c (str_take n' s')
  | _, _ => EmptyString
  end.

Fixpoint str_drop (n : nat) (s : string) : string :=
  match n, s with
  | S n', String _ s' => str_drop n' s'
  | _, _ => s
  end.

(** [sub in s]. *)
Definition str_contains (sub s : string) : bool :=
  match String.index 0 sub s with Some _ => true | None => false end.

Definition starts_with (p s : string) : bool :=
  bool_decide (str_take (String.length p) s = p).

(** ** numpy on coordinate vectors *)

(** [np.diff(l)]: [l[1:] - l[:-1]]. *)
Definition np_diff (l : list Qc) : list Qc :=
  zip_with (fun b a => (b - a)%q) (tail l) l.

(** Default absolute tolerance of [np.allclose]. *)
Definition allclose_atol : Qc := qfrac 1 100000000.

(** [np.allclose(a, b, rtol=rtol)] for a vector [a] and a scalar [b]:
    every entry satisfies [|a_i - b| <= atol + rtol * |b|], with numpy's
    default [atol = 1e-8]. *)
Definition isclose (rtol b x : Qc) : bool :=
  qleb (Qcabs (x - b)) (allclose_atol + rtol * Qcabs b).

Definition allclose (a : list Qc) (b rtol : Qc) : bool :=
  forallb (isclose rtol b) a.

(** [np.arange(lo, lo + n)] as floats. *)
Definition arange_from (lo : Z) (n : nat) : list Qc :=
  map (fun j => qz (lo + Z.of_nat j)) (seq 0 n).

(** [np.fft.fftfreq(n, d)]: [[0, 1, ..., (n-1)//2, -(n//2), ..., -1] / (n*d)]. *)
Definition fftfreq (n : nat) (d : Qc) : list Qc :=
  let val := (1 / (qn n * d))%q in
  map (fun r => (r * val)%q)
      (arange_from 0 ((n - 1) / 2 + 1) ++ arange_from (- Z.of_nat (n / 2)) (n / 2)).

(** [np.fft.rfftfreq(n, d)]: [[0, 1, ..., n//2] / (n*d)]. *)
Definition rfftfreq (n : nat) (d : Qc) : list Qc :=
  let val := (1 / (qn n * d))%q in
  map (fun r => (r * val)%q) (arange_from 0 (n / 2 + 1)).

(** [np.fft.fftshift] and [np.fft.ifftshift] of a vector: [np.roll] by
    [n//2] and by [-(n//2)]. *)
Definition fftshift1 {A} (l : list A) : list A :=
  rotate (length l - length l / 2) l.

Definition ifftshift1 {A} (l : list A) : list A :=
  rotate (length l / 2) l.



(** [zip] of three sequences, as long as the shortest. *)
Fixpoint zip3_with {A B C D} (f : A → B → C → D)
    (la : list A) (lb : list B) (lc : list C) : list D :=
  match la, lb, lc with
  | a :: la', b :: lb', c :: lc' => f a b c :: zip3_with f la' lb' lc'
  | _, _, _ => []
  end.

Definition _freq (N : list nat) (delta_x : list Qc) (real : option string)
    (shift : bool) : list (list Qc) :=
  let fftfreqs :=
    match real with
    | None => replicate (length N) fftfreq
    | Some _ => replicate (length N - 1) fftfreq ++ [rfftfreq]
    end in
  let k := zip3_with (fun freq Nx dx => freq Nx dx) fftfreqs N delta_x in
  if shift then map fftshift1 k else k.

Definition irfftfreq (Nx : nat) (dx : Qc) : list Qc :=
  fftfreq (2 * (Nx - 1)) dx.

Definition _ifreq (N : list nat) (delta_x : list Qc) (real : option string)
    (shift : bool) : list (list Qc) :=
  let fftfreqs :=
    match real with
    | None => replicate (length N) fftfreq
    | Some _ => replicate (length N - 1) fftfreq ++ [irfftfreq]
    end in
  let k := zip3_with (fun freq Nx dx => freq Nx dx) fftfreqs N delta_x in
  if shift then map fftshift1 k else k.

(** Stable ascending argsort ([np.lexsort] on one key, behind
    [DataArray.sortby]): insertion of [(value, position)] pairs. *)
Fixpoint insert_key (x : Qc * nat) (l : list (Qc * nat)) : list (Qc * nat) :=
  match l with
  | [] => [x]
  | y :: l' => if qleb x.1 y.1 then x :: l else y :: insert_key x l'
  end.

Definition sort_keys (l : list (Qc * nat)) : list (Qc * nat) :=
  foldr insert_key [] l.

Definition argsort (l : list Qc) : list nat :=
  (sort_keys (zip l (seq 0 (length l)))).*2.

Definition sorted_values (l : list Qc) : list Qc :=
  (sort_keys (zip l (seq 0 (length l)))).*1.

(** ** numpy arrays

    An array is its shape and its elements in row-major (C) order. *)

Record ndarray (A : Type) : Type := NdArray { shape : list nat; flat : list A }.
Arguments NdArray {A} shape flat.
Arguments shape {A} _.
Arguments flat {A} _.

Global Instance ndarray_eq_dec {A} `{EqDecision A} : EqDecision (ndarray A).
Proof. solve_decision. Defined.

(** Number of elements of an array of shape [s]. *)
Definition size (s : list nat) : nat := foldr Nat.mul 1 s.

Definition wf_array {A} (a : ndarray A) : Prop := length (flat a) = size (shape a).

(** All multi-indices of shape [s], in row-major order. *)
Fixpoint indices (s : list nat) : list (list nat) :=
  match s with
  | [] => [[]]
  | n :: s' => i ← seq 0 n; (cons i) <$> indices s'
  end.

(** Position of multi-index [i] in the flat sequence. *)
Fixpoint ravel (s i : list nat) : nat :=
  match s, i with
  | _ :: s', k :: i' => k * size s' + ravel s' i'
  | _, _ => 0
  end.

Definition valid_index (s i : list nat) : Prop := Forall2 lt i s.

Section Arrays.
Context {A : Type} `{!Inhabited A}.

(** [a[i]]. *)
Definition item (a : ndarray A) (i : list nat) : A :=
  flat a !!! ravel (shape a) i.

(** The array of shape [s] whose element at [i] is [f i]. *)
Definition of_fun (s : list nat) (f : list nat → A) : ndarray A :=
  NdArray s (f <$> indices s).

Definition nd_map (f : A → A) (a : ndarray A) : ndarray A :=
  NdArray (shape a) (f <$> flat a).

(** Element-wise operation on two arrays of the same shape. *)
Definition nd_zip (f : A → A → A) (a b : ndarray A) : ndarray A :=
  NdArray (shape a) (zip_with f (flat a) (flat b)).

(** [a.reshape(s)]. *)
Definition reshape (a : ndarray A) (s : list nat) : ndarray A :=
  NdArray s (flat a).

(** Sum of the shifts of [np.roll(a, shifts, axes)] that fall on axis [p]. *)
Fixpoint total_shift (shifts : list Z) (axes : list nat) (p : nat) : Z :=
  match shifts, axes with
  | sh :: shifts', ax :: axes' =>
      ((if bool_decide (ax = p) then sh else 0) + total_shift shifts' axes' p)%Z
  | _, _ => 0%Z
  end.

Definition roll_index (s : list nat) (t : nat → Z) (i : list nat) : list nat :=
  imap (fun p '(n, ip) => Z.to_nat ((Z.of_nat ip - t p) `mod` Z.of_nat n))
       (zip s i).

(** [np.roll(a, shifts, axes)]: the element at [i] comes from
    [(i_p - shift_p) mod n_p] on every axis [p]. *)
Definition np_roll (a : ndarray A) (shifts : list Z) (axes : list nat) : ndarray A :=
  of_fun (shape a)
    (fun i => item a (roll_index (shape a) (total_shift shifts axes) i)).

(** [np.fft.fftshift(a, axes)] and [np.fft.ifftshift(a, axes)]. *)
Definition fftshift (a : ndarray A) (axes : list nat) : ndarray A :=
  np_roll a ((fun ax => Z.of_nat (shape a !!! ax / 2)) <$> axes) axes.

Definition ifftshift (a : ndarray A) (axes : list nat) : ndarray A :=
  np_roll a ((fun ax => (- Z.of_nat (shape a !!! ax / 2))%Z) <$> axes) axes.

(** [np.transpose(a, perm)]: axis [j] of the result is axis [perm[j]] of
    [a]. *)
Definition np_transpose (a : ndarray A) (perm : list nat) : ndarray A :=
  of_fun ((fun p => shape a !!! p) <$> perm)
    (fun i => item a
       ((fun q => i !!! default 0 (fst <$> list_find (eq q) perm))
          <$> seq 0 (length (shape a)))).

(** [a * w] for a vector [w] laid along axis [ax] (broadcasting), with
    [op] the product of elements. *)
Definition along {W} `{!Inhabited W} (op : A → W → A) (a : ndarray A)
    (ax : nat) (w : list W) : ndarray A :=
  of_fun (shape a) (fun i => op (item a i) (w !!! (i !!! ax))).

(** [np.take(a, idx, axis=ax)]. *)
Definition np_take (a : ndarray A) (idx : list nat) (ax : nat) : ndarray A :=
  of_fun (<[ax := length idx]> (shape a))
    (fun i => item a (<[ax := idx !!! (i !!! ax)]> i)).
End Arrays.

(** ** Labelled arrays

    The embedding covers in-memory arrays ([da.chunks] is [None]); every
    coordinate is numeric. *)

(** A dimension coordinate: its values and its ["spacing"] attribute. *)
Record Coord : Type := MkCoord { cvalues : list Qc; cspacing : option Qc }.

Global Instance Coord_eq_dec : EqDecision Coord.
Proof. solve_decision. Defined.

Record DataArray (A : Type) : Type := MkDataArray {
  da_dims : list string;
  da_coords : gmap string Coord;
  da_data : ndarray A
}.
Arguments MkDataArray {A} da_dims da_coords da_data.
Arguments da_dims {A} _.
Arguments da_coords {A} _.
Arguments da_data {A} _.

Global Instance DataArray_eq_dec {A} `{EqDecision A} : EqDecision (DataArray A).
Proof. solve_decision. Defined.

(** Python values that reach the module through keyword arguments. *)
Inductive pyval : Type :=
| PyNone
| PyBool (b : bool)
| PyFloat (q : Qc)
| PyStr (s : string)
| PyList (l : list string).

Global Instance pyval_eq_dec : EqDecision pyval.
Proof. solve_decision. Defined.

(** Truth value of [if v:]. *)
Definition truthy (v : pyval) : bool :=
  match v with
  | PyNone => false
  | PyBool b => b
  | PyFloat q => negb (qeqb q 0%q)
  | PyStr s => negb (bool_decide (s = ""))
  | PyList l => negb (bool_decide (l = []))
  end.

(** The [dim] argument: [None], one name, or a sequence of names. *)
Inductive dim_arg : Type :=
| DimNone
| DimStr (d : string)
| DimList (ds : list string).

(** ** The numerical backend

    What [numpy] (or [dask.array], chosen by [_fft_module]) provides and the
    module only calls: arithmetic on array elements, the transcendental
    functions and the FFT kernels. *)
Class Backend : Type := {
  elt : Type;
  c_zero : elt;
  c_add : elt → elt → elt;
  c_mul : elt → elt → elt;
  c_conj : elt → elt;                 (* np.conj *)
  c_abs2 : elt → elt;                 (* np.abs(z) ** 2 *)
  c_scale : Qc → elt → elt;           (* product with a float *)
  c_expi : Qc → elt;                  (* np.exp(1j * 2.0 * np.pi * q) *)
  np_sqrt : Qc → Qc;
  np_hanning : nat → list Qc;
  fftn : ndarray elt → list nat → ndarray elt;
  ifftn : ndarray elt → list nat → ndarray elt;
  rfftn : ndarray elt → list nat → ndarray elt;
  irfftn : ndarray elt → list nat → ndarray elt;
  (** Modelled from the spec: the module [xrft/detrend.py] (imported as
      [_detrend]) is not among the sources.  [constant] subtracts the mean
      across the transformed axes, [linear] the least-squares fit, for one or
      two transformed dimensions only. *)
  xr_detrend : DataArray elt → list string → pyval → result (DataArray elt)
}.

Global Instance elt_inhabited `{B : Backend} : Inhabited elt := populate c_zero.

(** The algebra of complex numbers that the proofs below rely on. *)
Class ElementLaws (B : Backend) : Prop := {
  c_mul_comm : ∀ x y : elt, c_mul x y = c_mul y x;
  c_mul_assoc : ∀ x y z : elt, c_mul x (c_mul y z) = c_mul (c_mul x y) z;
  c_conj_mul : ∀ x y : elt, c_conj (c_mul x y) = c_mul (c_conj x) (c_conj y);
  c_conj_conj : ∀ x : elt, c_conj (c_conj x) = x;
  c_conj_scale : ∀ q (x : elt), c_conj (c_scale q x) = c_scale q (c_conj x);
  c_conj_zero : c_conj c_zero = c_zero;
  c_scale_scale : ∀ p q (x : elt), c_scale p (c_scale q x) = c_scale (p * q)%q x;
  c_scale_one : ∀ x : elt, c_scale 1%q x = x;
  c_mul_scale : ∀ q (x y : elt), c_mul (c_scale q x) y = c_scale q (c_mul x y);
  c_expi_zero : ∀ x : elt, c_mul x (c_expi 0%q) = x;
  c_expi_opp : ∀ q, c_mul (c_expi (- q)%q) (c_expi q) = c_expi 0%q
}.

Section Xarray.
Context `{B : Backend}.

(** [da.get_axis_num(d)]. *)
Definition get_axis_num (da : DataArray elt) (d : string) : result nat :=
  or_raise (AxisNotFound d) (fst <$> list_find (eq d) (da_dims da)).

(** [da[d]]: the coordinate of [d], or the default integer index of a
    dimension without coordinate. *)
Definition da_getitem (da : DataArray elt) (d : string) : result Coord :=
  match da_coords da !! d with
  | Some c => Ok c
  | None =>
      ax ← or_raise (KeyError d) (fst <$> list_find (eq d) (da_dims da));
      Ok (MkCoord (arange_from 0 (shape (da_data da) !!! ax)) None)
  end.

(** [da.transpose] on a sequence of names. *)
Definition xr_transpose (da : DataArray elt) (order : list string)
    : result (DataArray elt) :=
  if bool_decide (order ≡ₚ da_dims da) then
    perm ← mapR (get_axis_num da) order;
    Ok (MkDataArray order (da_coords da) (np_transpose (da_data da) perm))
  else Raise NotAPermutation.

(** [da * w] for a one-dimensional labelled array [w] along dimension
    [d], on the coordinate of [da]. *)
Definition mul_along (da : DataArray elt) (d : string) (w : list elt)
    : result (DataArray elt) :=
  ax ← get_axis_num da d;
  Ok (MkDataArray (da_dims da) (da_coords da) (along c_mul (da_data da) ax w)).

(** [da * q] for a float [q]. *)
Definition da_scale (da : DataArray elt) (q : Qc) : DataArray elt :=
  MkDataArray (da_dims da) (da_coords da) (nd_map (c_scale q) (da_data da)).

(** [da.sortby(d)]: reorder data and coordinate along [d] by ascending
    coordinate. *)
Definition xr_sortby (da : DataArray elt) (d : string) : result (DataArray elt) :=
  c ← da_getitem da d;
  ax ← get_axis_num da d;
  let idx := argsort (cvalues c) in
  Ok (MkDataArray (da_dims da)
        (<[d := MkCoord ((fun j => cvalues c !!! j) <$> idx) (cspacing c)]> (da_coords da))
        (np_take (da_data da) idx ax)).
End Xarray.

(** ** Python dictionaries whose order of insertion is observed *)

Definition pydict (V : Type) : Type := list (string * V).

Definition dict_get {V} (m : pydict V) (k : string) : option V :=
  snd <$> find (fun kv => bool_decide (kv.1 = k)) m.

(** [m[k] = v]: replace in place, or append. *)
Fixpoint dict_set {V} (m : pydict V) (k : string) (v : V) : pydict V :=
  match m with
  | [] => [(k, v)]
  | (k', v') :: m' =>
      if bool_decide (k' = k) then (k', v) :: m' else (k', v') :: dict_set m' k v
  end.

(** [dict(zip(ks, vs))]. *)
Definition dict_of_zip {V} (ks : list string) (vs : list V) : pydict V :=
  foldl (fun m kv => dict_set m kv.1 kv.2) [] (zip ks vs).

Definition dict_values {V} (m : pydict V) : list V := m.*2.

(** ** The module: helpers *)

Section Xrft.
Context `{B : Backend}.

Definition _apply_window (da : DataArray elt) (dims : list string)
    : result (DataArray elt) :=
  windows ← mapR (fun d =>
               c ← da_getitem da d;
               ax ← get_axis_num da d;
               Ok (ax, np_hanning (length (cvalues c)))) dims;
  match reverse windows with
  | [] => Raise TypeError   (* reduce() of an empty sequence *)
  | (ax0, w0) :: rest =>
      let weight (i : list nat) : Qc :=
        foldl (fun acc '(ax, w) => (acc * (w !!! (i !!! ax)))%q)
              (w0 !!! (i !!! ax0)) rest in
      Ok (MkDataArray (da_dims da) (da_coords da)
            (of_fun (shape (da_data da))
               (fun i => c_scale (weight i) (item (da_data da) i))))
  end.

(** On an in-memory array [da.chunks] is [None], and subscripting it
    raises as soon as one dimension of [da] is in [dim]; otherwise the
    array is rebuilt with the bare values of its coordinates. *)
Definition _stack_chunks (da : DataArray elt) (dim : list string)
    : result (DataArray elt) :=
  if bool_decide (Exists (fun d => d ∈ dim) (da_dims da)) then Raise TypeError
  else
    cs ← mapR (fun d => c ← da_getitem da d; Ok (d, MkCoord (cvalues c) None))
              (da_dims da);
    Ok (MkDataArray (da_dims da) (list_to_map cs)
          (reshape (da_data da) ((fun dc => length (cvalues dc.2)) <$> cs))).

(** The name of a transformed dimension:
    [prefix + d if d[: len(prefix)] != prefix else d[len(prefix) :]]. *)
Definition new_name (prefix d : string) : string :=
  if negb (bool_decide (str_take (String.length prefix) d = prefix))
  then prefix +:+ d
  else str_drop (String.length prefix) d.

Definition _new_dims_and_coords (da : DataArray elt) (dim : list string)
    (wavenm : list (list Qc)) (prefix : string)
    : result (pydict Coord * pydict string) :=
  let wavenm := dict_of_zip dim wavenm in
  foldM (fun '(new_coords, swap_dims) d =>
           k ← or_raise (KeyError d) (dict_get wavenm d);
           let name := new_name prefix d in
           k0 ← or_raise IndexError (k !! 0);
           k1 ← or_raise IndexError (k !! 1);
           let new_dim := MkCoord k (Some (k1 - k0)%q) in
           Ok (dict_set new_coords name new_dim, dict_set swap_dims d name))
        dim ([], []).

(** [_diff_coord] and [_lag_coord] on a numeric coordinate. *)
Definition _diff_coord (coord : Coord) : result (list Qc) :=
  _ ← or_raise IndexError (cvalues coord !! 0);
  Ok (np_diff (cvalues coord)).

Definition _lag_coord (coord : Coord) : result Qc :=
  _ ← or_raise IndexError (cvalues coord !! 0);
  or_raise IndexError (cvalues coord !! (length (cvalues coord) / 2)).

(** The dimensions to transform, as [dft] and [idft] resolve them. *)
Definition resolve_dim (da : DataArray elt) (dim : dim_arg)
    (real : option string) : result (list string) :=
  let dim := match dim with
             | DimNone => da_dims da
             | DimStr d => [d]
             | DimList ds => ds
             end in
  match real with
  | None => Ok dim
  | Some r =>
      if bool_decide (r ∈ da_dims da)
      then Ok (filter (fun d => d ≠ r) dim ++ [r])
      else Raise RealDimMissing
  end.

(** The transposition that moves dimension [real] to the end:
    [[d for d in da.dims if d not in [real]] + [real]]. *)
Definition real_last (da : DataArray elt) (real : option string)
    : result (DataArray elt) :=
  match real with
  | None => Ok da
  | Some r => xr_transpose da (filter (fun d => d ∉ [r]) (da_dims da) ++ [r])
  end.

(** The new labelled array around the kernel output [f]: the coordinates
    of the untouched dimensions, the dimensions swapped, the new
    coordinates assigned, the old ones dropped. *)
Definition relabel (da : DataArray elt) (f : ndarray elt) (dim : list string)
    (newcoords : pydict Coord) (swap_dims : pydict string) : DataArray elt :=
  let kept := filter (fun kv => kv.1 ∉ dim) (da_coords da) in
  let dims' := (fun d => default d (dict_get swap_dims d)) <$> da_dims da in
  let assigned := foldl (fun m kv => <[kv.1 := kv.2]> m) kept newcoords in
  let dropped := foldl (fun m d => delete d m) assigned dim in
  MkDataArray dims' dropped f.

(** The final transposition to [[swap_dims.get(d, d) for d in rawdims]]. *)
Definition restore_order (da : DataArray elt) (swap_dims : pydict string)
    (rawdims : list string) : result (DataArray elt) :=
  xr_transpose da ((fun d => default d (dict_get swap_dims d)) <$> rawdims).

(** ** Forward transform *)

(** One turn of the loop that verifies the spacing of the input
    coordinates: the spacing and the lag of dimension [d]. *)
Definition dft_check_axis (da : DataArray elt) (spacing_tol : Qc) (d : string)
    : result (Qc * Qc) :=
  c ← da_getitem da d;
  diff ← _diff_coord c;
  d0 ← or_raise IndexError (diff !! 0);
  let delta := Qcabs d0 in
  lag ← _lag_coord c;
  if negb (allclose diff d0 spacing_tol) then Raise (NotEvenlySpaced d)
  else if qeqb delta 0%q then Raise (ZeroSpacing d)
  else Ok (delta, lag).

(** [daft * exp(-1j * 2π * newcoords[up_dim] * lag)] for every transformed
    dimension. *)
Definition dft_phase (daft : DataArray elt) (newcoords : pydict Coord)
    (updated_dims : list string) (lag_x : list Qc) : result (DataArray elt) :=
  foldM (fun daft '(up_dim, lag) =>
           c ← or_raise (KeyError up_dim) (dict_get newcoords up_dim);
           mul_along daft up_dim
             ((fun k => c_expi (- (k * lag))%q) <$> cvalues c))
        (zip updated_dims lag_x) daft.

Definition dft (da : DataArray elt) (spacing_tol : Qc) (dim : dim_arg)
    (real : option string) (shift : bool) (detrend : pyval)
    (window true_phase true_amplitude chunks_to_segments : bool)
    (prefix : string) : result (DataArray elt) :=
  dim ← resolve_dim da dim real;
  da ← (if chunks_to_segments then _stack_chunks da dim else Ok da);
  let rawdims := da_dims da in
  da ← real_last da real;
  let shift := match real with None => shift | Some _ => false end in
  let fft_fn := match real with None => fftn | Some _ => rfftn end in
  axis_num ← mapR (get_axis_num da) dim;
  let N := (fun n => shape (da_data da) !!! n) <$> axis_num in
  checks ← mapR (dft_check_axis da spacing_tol) dim;
  let delta_x := checks.*1 in
  let lag_x := checks.*2 in
  da ← (if truthy detrend then xr_detrend da dim detrend else Ok da);
  da ← (if window then _apply_window da dim else Ok da);
  let f := if true_phase
           then fft_fn (ifftshift (da_data da) axis_num) axis_num
           else fft_fn (da_data da) axis_num in
  let f := if shift then fftshift f axis_num else f in
  let k := _freq N delta_x real shift in
  '(newcoords, swap_dims) ← _new_dims_and_coords da dim k prefix;
  let daft := relabel da f dim newcoords swap_dims in
  updated_dims ← mapR (fun i => or_raise IndexError (da_dims daft !! i)) axis_num;
  daft ← (if true_phase then dft_phase daft newcoords updated_dims lag_x
          else Ok daft);
  let daft := if true_amplitude then da_scale daft (np_prod delta_x) else daft in
  restore_order daft swap_dims rawdims.

(** ** Inverse transform *)

(** The [lag] argument: [None], one float, or a sequence of floats. *)
Inductive lag_arg : Type :=
| LagNone
| LagFloat (l : Qc)
| LagList (ls : list Qc).

(** [coord.sortby(d)] of a coordinate by itself. *)
Definition sort_coord (c : Coord) : Coord :=
  MkCoord ((fun j => cvalues c !!! j) <$> argsort (cvalues c)) (cspacing c).

(** One turn of the loop that verifies the input coordinates of [idft]:
    the array, sorted along [d] if its grid was fftshifted, and the
    spacing of [d]. *)
Definition idft_check_axis (real : option string) (spacing_tol : Qc)
    (daft : DataArray elt) (d : string) : result (DataArray elt * Qc) :=
  c ← da_getitem daft d;
  diff ← _diff_coord c;
  d0 ← or_raise IndexError (diff !! 0);
  let delta := Qcabs d0 in
  l ← (if negb (bool_decide (Some d = real)) then _lag_coord c
       else or_raise IndexError (cvalues c !! 0));
  '(daft, l) ←
    (if negb (allclose diff d0 spacing_tol) then
       let reordered_coord := sort_coord c in
       diff ← _diff_coord reordered_coord;
       l ← _lag_coord reordered_coord;
       d0 ← or_raise IndexError (diff !! 0);
       if allclose diff d0 spacing_tol
       then daft ← xr_sortby daft d; Ok (daft, l)
       else Raise (NotEvenlySpaced d)
     else Ok (daft, l));
  if qltb spacing_tol (Qcabs l) then Raise (NotCentered d)
  else if qeqb delta 0%q then Raise (ZeroSpacing d)
  else Ok (daft, delta).

(** The lag that this turn of the loop compares with [spacing_tol]: on a
    coordinate evenly spaced as given, the midpoint value, or the first
    value for the real dimension; on a coordinate evenly spaced once sorted,
    the midpoint of the sorted values. *)
Definition idft_lag (real : option string) (spacing_tol : Qc) (d : string)
    (c : Coord) : option Qc :=
  let diff := np_diff (cvalues c) in
  d0 ← diff !! 0;
  if allclose diff d0 spacing_tol then
    if bool_decide (Some d = real) then cvalues c !! 0
    else cvalues c !! (length (cvalues c) / 2)
  else
    let sorted := cvalues (sort_coord c) in
    s0 ← np_diff sorted !! 0;
    if allclose (np_diff sorted) s0 spacing_tol
    then sorted !! (length sorted / 2)
    else None.

Definition idft_check_axes (real : option string) (spacing_tol : Qc)
    (daft : DataArray elt) (dim : list string)
    : result (DataArray elt * list Qc) :=
  foldM (fun '(daft, delta_x) d =>
           '(daft, delta) ← idft_check_axis real spacing_tol daft d;
           Ok (daft, delta_x ++ [delta]))
        dim (daft, []).

(** [daft * exp(1j * 2π * daft[d] * l)] for every dimension and its lag. *)
Definition idft_phase (daft : DataArray elt) (dim : list string)
    (lag : list Qc) : result (DataArray elt) :=
  foldM (fun daft '(d, l) =>
           c ← da_getitem daft d;
           mul_along daft d ((fun k => c_expi (k * l)%q) <$> cvalues c))
        (zip dim lag) daft.

(** [da.assign_coords({tfd: da[tfd] + l})], attributes kept. *)
Definition shift_coords (da : DataArray elt) (swap_dims : pydict string)
    (dim : list string) (lag : list Qc) : result (DataArray elt) :=
  foldM (fun da '(d, l) =>
           tfd ← or_raise (KeyError d) (dict_get swap_dims d);
           c ← da_getitem da tfd;
           Ok (MkDataArray (da_dims da)
                 (<[tfd := MkCoord ((fun x => (x + l)%q) <$> cvalues c) (cspacing c)]>
                    (da_coords da))
                 (da_data da)))
        (zip dim lag) da.

(** [float(da[d].spacing)]. *)
Definition spacing_of (da : DataArray elt) (d : string) : result Qc :=
  c ← da_getitem da d;
  or_raise (AttributeError "spacing") (cspacing c).

Definition idft (daft : DataArray elt) (spacing_tol : Qc) (dim : dim_arg)
    (real : option string) (shift : bool) (detrend : pyval)
    (true_phase true_amplitude window chunks_to_segments : bool)
    (prefix : string) (lag : lag_arg) : result (DataArray elt) :=
  dim ← resolve_dim daft dim real;
  let lag := match lag with
             | LagNone => None
             | LagFloat l => Some [l]
             | LagList ls => Some ls
             end in
  daft ← match lag with
         | None => Ok daft
         | Some ls =>
             if negb (bool_decide (length dim = length ls))
             then Raise LagLengthMismatch
             else idft_phase daft dim ls
         end;
  daft ← (if chunks_to_segments then _stack_chunks daft dim else Ok daft);
  let rawdims := da_dims daft in
  daft ← real_last daft real;
  let fft_fn := match real with None => ifftn | Some _ => irfftn end in
  axis_num ← mapR (get_axis_num daft) dim;
  let N := (fun n => shape (da_data daft) !!! n) <$> axis_num in
  '(daft, delta_x) ← idft_check_axes real spacing_tol daft dim;
  daft ← (if truthy detrend then Raise (NameError "_apply_detrend") else Ok daft);
  daft ← (if window then _apply_window daft dim else Ok daft);
  axis_shift ← mapR (get_axis_num daft)
                    (filter (fun d => Some d ≠ real) dim);
  let f := ifftshift (da_data daft) axis_shift in
  let f := fft_fn f axis_num in
  let f := if negb true_phase then ifftshift f axis_num else f in
  let f := if shift then fftshift f axis_num else f in
  let k := _ifreq N delta_x real shift in
  '(newcoords, swap_dims) ← _new_dims_and_coords daft dim k prefix;
  let da := relabel daft f dim newcoords swap_dims in
  da ← match lag with
       | None => Ok da
       | Some ls => shift_coords da swap_dims dim ls
       end;
  da ← (if true_amplitude then
          qs ← mapR (spacing_of da) (dict_values swap_dims);
          Ok (da_scale da (/ np_prod qs)%q)
        else Ok da);
  restore_order da swap_dims rawdims.

(** The name of dimension [d] after the transform of the dimensions [dim]. *)
Definition renamed (prefix : string) (dim : list string) (d : string) : string :=
  if bool_decide (d ∈ dim) then new_name prefix d else d.

(** ** Keyword arguments *)

(** The keywords [dft] accepts besides [da], [dim] and [real], which the
    callers below pass themselves. *)
Definition dft_keywords : gset string :=
  list_to_set ["spacing_tol"; "shift"; "detrend"; "window"; "true_phase";
               "true_amplitude"; "chunks_to_segments"; "prefix"].

Definition as_float (v : pyval) : result Qc :=
  match v with
  | PyFloat q => Ok q
  | PyBool b => Ok (if b then 1%q else 0%q)
  | _ => Raise TypeError
  end.

Definition as_str (v : pyval) : result string :=
  match v with PyStr s => Ok s | _ => Raise TypeError end.

(** [dft(da, dim=dim, real=real, **kwargs)]: a keyword that [dft] does not
    have, or that is passed twice, is a [TypeError]; the others take the
    defaults of the signature.  A value of the wrong type for [spacing_tol]
    or [prefix] is rejected here (in Python, at its first use). *)
Definition dft_kw (da : DataArray elt) (dim : dim_arg) (real : option string)
    (kwargs : gmap string pyval) : result (DataArray elt) :=
  if bool_decide (dom kwargs ⊆ dft_keywords) then
    spacing_tol ← as_float (default (PyFloat (qfrac 1 1000)) (kwargs !! "spacing_tol"));
    prefix ← as_str (default (PyStr "freq_") (kwargs !! "prefix"));
    dft da spacing_tol dim real
      (truthy (default (PyBool true) (kwargs !! "shift")))
      (default PyNone (kwargs !! "detrend"))
      (truthy (default (PyBool false) (kwargs !! "window")))
      (truthy (default (PyBool false) (kwargs !! "true_phase")))
      (truthy (default (PyBool false) (kwargs !! "true_amplitude")))
      (truthy (default (PyBool false) (kwargs !! "chunks_to_segments")))
      prefix
  else Raise TypeError.

(** ** Spectral products *)

Definition da_map (f : elt → elt) (da : DataArray elt) : DataArray elt :=
  MkDataArray (da_dims da) (da_coords da) (nd_map f (da_data da)).

(** The legacy [density] flag replaces [scaling]. *)
Definition legacy_density (scaling : string) (kwargs : gmap string pyval)
    : string * gmap string pyval :=
  match kwargs !! "density" with
  | Some density =>
      (if truthy density then "density" else "false_density",
       delete "density" kwargs)
  | None => (scaling, kwargs)
  end.

(** [[d for d in daft.dims if (d not in da.dims and "segment" not in d)]]. *)
Definition updated_dims_of (daft da : DataArray elt) : list string :=
  filter (fun d => (d ∉ da_dims da) ∧ (str_contains "segment" d = false))
         (da_dims daft).

(** The final scaling of [power_spectrum] and [cross_spectrum]. *)
Definition apply_scaling (scaling : string) (updated_dims : list string)
    (ps : DataArray elt) : result (DataArray elt) :=
  if bool_decide (scaling = "density") then
    fs ← np_prod <$> mapR (spacing_of ps) updated_dims;
    Ok (da_scale ps fs)
  else if bool_decide (scaling = "spectrum") then
    fs ← np_prod <$> mapR (spacing_of ps) updated_dims;
    Ok (da_scale ps (fs * fs)%q)
  else if bool_decide (scaling = "false_density") then Ok ps
  else Raise (UnknownScaling scaling).

(** [kwargs.update({"true_amplitude": True, "true_phase": False})]. *)
Definition power_kwargs (kwargs : gmap string pyval) : gmap string pyval :=
  <["true_phase" := PyBool false]> (<["true_amplitude" := PyBool true]> kwargs).

(** What [power_spectrum] does with the transform [daft] of [da]. *)
Definition power_of (da : DataArray elt) (real : option string)
    (scaling : string) (daft : DataArray elt) : result (DataArray elt) :=
  let updated_dims := updated_dims_of daft da in
  let ps := da_map c_abs2 daft in
  let ps := match real with None => ps | Some _ => da_scale ps 2%q end in
  apply_scaling scaling updated_dims ps.

Definition power_spectrum (da : DataArray elt) (dim : dim_arg)
    (real : option string) (scaling : string) (kwargs : gmap string pyval)
    : result (DataArray elt) :=
  let '(scaling, kwargs) := legacy_density scaling kwargs in
  daft ← dft_kw da dim real (power_kwargs kwargs);
  power_of da real scaling daft.

(** Where label [v] of the left index lies in the right index. *)
Definition join_axis (ca cb : list Qc) : list (nat * nat) :=
  if bool_decide (ca = cb) then (fun j => (j, j)) <$> seq 0 (length ca)
  else omap (fun '(j, v) => (fun kv => (j, kv.1)) <$> list_find (eq v) cb)
            (imap pair ca).

(** [a * b] for two labelled arrays with the same dimensions: xarray aligns
    the two on the labels they share along each dimension (inner join),
    then multiplies element by element. *)
Definition xr_mul (a b : DataArray elt) : result (DataArray elt) :=
  joins ← mapR (fun '(p, d) =>
              match da_coords a !! d, da_coords b !! d with
              | Some ca, Some cb => Ok (join_axis (cvalues ca) (cvalues cb))
              | _, _ =>
                  if bool_decide (shape (da_data a) !!! p = shape (da_data b) !!! p)
                  then Ok ((fun j => (j, j)) <$> seq 0 (shape (da_data a) !!! p))
                  else Raise AlignmentError
              end) (imap pair (da_dims a));
  let coords :=
    foldl (fun m '(d, js) =>
             match da_coords a !! d with
             | Some ca =>
                 <[d := MkCoord ((fun j => cvalues ca !!! j.1) <$> js) (cspacing ca)]> m
             | None => m
             end)
          (da_coords b ∪ da_coords a) (zip (da_dims a) joins) in
  Ok (MkDataArray (da_dims a) coords
        (of_fun (length <$> joins)
           (fun i => c_mul
              (item (da_data a) (zip_with (fun js ip => (js !!! ip).1) joins i))
              (item (da_data b) (zip_with (fun js ip => (js !!! ip).2) joins i))))).

(** What [cross_spectrum] does with the transforms of [da1] and [da2]. *)
Definition cross_of (da1 : DataArray elt) (real : option string)
    (scaling : string) (daft1 daft2 : DataArray elt) : result (DataArray elt) :=
  if negb (bool_decide (da_dims daft1 = da_dims daft2))
  then Raise DifferentDimensions
  else
    let updated_dims := updated_dims_of daft1 da1 in
    cs ← xr_mul daft1 (da_map c_conj daft2);
    let cs := match real with None => cs | Some _ => da_scale cs 2%q end in
    apply_scaling scaling updated_dims cs.

Definition cross_spectrum (da1 da2 : DataArray elt) (dim : dim_arg)
    (real : option string) (scaling : string) (kwargs : gmap string pyval)
    : result (DataArray elt) :=
  let '(scaling, kwargs) := legacy_density scaling kwargs in
  let kwargs := <["true_amplitude" := PyBool true]> kwargs in
  daft1 ← dft_kw da1 dim real kwargs;
  daft2 ← dft_kw da2 dim real kwargs;
  cross_of da1 real scaling daft1 daft2.

(** ** Isotropic averaging *)

Definition qmin (x y : Qc) : Qc := if qleb x y then x else y.
Definition qmax (x y : Qc) : Qc := if qleb x y then y else x.

(** [np.linspace(start, stop, num)] for [num >= 2]. *)
Definition linspace (start stop : Qc) (num : nat) : list Qc :=
  let step := ((stop - start) / qn (num - 1))%q in
  (fun j => (qn j * step + start)%q) <$> seq 0 num.

(** The bin edges of [pandas.cut(x, bins)] for an integer [bins]
    ([right=True]): equal-width bins over the range of [x], the lowest edge
    lowered by 0.1% of the range so that the minimum falls in the first bin;
    a constant [x] has its range widened by 0.1% on both sides. *)
Definition cut_edges (x : list Qc) (bins : Z) : result (list Qc) :=
  if bool_decide (bins < 1)%Z then Raise BinsNotPositive
  else
    match x with
    | [] => Raise EmptyInput
    | x0 :: xs =>
        let mn := foldl qmin x0 xs in
        let mx := foldl qmax x0 xs in
        let widen (v : Qc) : Qc :=
          if qeqb v 0%q then qfrac 1 1000 else (qfrac 1 1000 * Qcabs v)%q in
        if qeqb mn mx then
          Ok (linspace (mn - widen mn)%q (mx + widen mx)%q (Z.to_nat bins + 1))
        else
          let edges := linspace mn mx (Z.to_nat bins + 1) in
          let adj := ((mx - mn) * qfrac 1 1000)%q in
          Ok (<[0%nat := (mn - adj)%q]> edges)
    end.

(** The code of [v]: [edges.searchsorted(v, side="left") - 1], the bin
    [(e_j, e_{j+1}]] that holds [v]. *)
Definition cut_code (edges : list Qc) (v : Qc) : nat :=
  length (filter (fun e => (e < v)%q) edges) - 1.

(** [numpy_groupies.aggregate(codes, values, func="mean", size=num_bins,
    fill_value=0)]: the mean of every group, 0 for an empty group. *)
Definition group_of {V} (codes : list nat) (values : list V) (b : nat) : list V :=
  (filter (fun cv => cv.1 = b) (zip codes values)).*2.

Definition mean_q (l : list Qc) : Qc :=
  match l with
  | [] => 0%q
  | _ => (foldl Qcplus 0%q l / qn (length l))%q
  end.

Definition mean_elt (l : list elt) : elt :=
  match l with
  | [] => c_zero   (* fill_value = 0 *)
  | _ => c_scale (/ qn (length l))%q (foldl c_add c_zero l)
  end.

(** The index into [ps] of the cell [cell] of the core dimensions [core],
    for the position [outer] on the other dimensions. *)
Fixpoint assemble (dims core : list string) (cell outer : list nat) : list nat :=
  match dims with
  | [] => []
  | d :: dims' =>
      match list_find (eq d) core with
      | Some (p, _) => (cell !!! p) :: assemble dims' core cell outer
      | None => (hd 0%nat outer) :: assemble dims' core cell (tail outer)
      end
  end.

(** [sqrt(k ** 2 + l ** 2)] at one cell of [freq_r], whose dimensions are
    [core]: [fftdim[1]] then [fftdim[0]]. *)
Definition radial (k l : Coord) (core : list string) (cell : list nat) : Qc :=
  let kv := cvalues k !!! (cell !!! 0%nat) in
  let lv := cvalues l !!! (cell !!! (length core - 1)) in
  np_sqrt (kv * kv + lv * lv)%q.

Definition isotropize (ps : DataArray elt) (fftdim : list string) (nfactor : Z)
    : result (DataArray elt) :=
  d1 ← or_raise IndexError (fftdim !! 1);
  k ← da_getitem ps d1;
  d0 ← or_raise IndexError (fftdim !! 0);
  l ← da_getitem ps d0;
  let N := [length (cvalues k); length (cvalues l)] in
  if bool_decide (nfactor = 0)%Z then Raise ZeroDivisionError
  else
    let nbins := (Z.of_nat (foldr Nat.min (length (cvalues k)) N) `quot` nfactor)%Z in
    let core := if bool_decide (d1 = d0) then [d1] else [d1; d0] in
    _ ← mapR (get_axis_num ps) core;
    let cells := indices ((fun d => if bool_decide (d = d1) then length (cvalues k)
                                     else length (cvalues l)) <$> core) in
    let freq_r := radial k l core <$> cells in
    edges ← cut_edges freq_r nbins;
    let codes := cut_code edges <$> freq_r in
    let num_bins := Z.to_nat nbins in
    let kr := (fun b => mean_q (group_of codes freq_r b)) <$> seq 0 num_bins in
    let outer_dims := filter (fun d => d ∉ core) (da_dims ps) in
    outer_axes ← mapR (get_axis_num ps) outer_dims;
    let outer_shape := (fun ax => shape (da_data ps) !!! ax) <$> outer_axes in
    let iso_ps (i : list nat) : elt :=
      let outer := take (length outer_dims) i in
      let b := i !!! length outer_dims in
      mean_elt (group_of codes
                  ((fun cell => item (da_data ps)
                                  (assemble (da_dims ps) core cell outer)) <$> cells)
                  b) in
    Ok (MkDataArray (outer_dims ++ ["freq_r"])
          (<["freq_r" := MkCoord kr None]>
             (filter (fun kv => kv.1 ∈ outer_dims) (da_coords ps)))
          (of_fun (outer_shape ++ [num_bins])
             (fun i => c_scale (kr !!! (i !!! length outer_dims)) (iso_ps i)))).

Definition isotropic_power_spectrum (da : DataArray elt) (spacing_tol : Qc)
    (dim : option (list string)) (shift : bool) (detrend : pyval)
    (density window : bool) (nfactor : Z) : result (DataArray elt) :=
  let dim := default (da_dims da) dim in
  if negb (bool_decide (length dim = 2%nat)) then Raise NotTwoDimensional
  else
    ps ← power_spectrum da (DimList dim) None "density"
           (<["spacing_tol" := PyFloat spacing_tol]>
              (<["shift" := PyBool shift]>
                 (<["detrend" := detrend]>
                    (<["density" := PyBool density]>
                       (<["window" := PyBool window]> ∅)))));
    let fftdim := (fun d => "freq_" +:+ d) <$> dim in
    isotropize ps fftdim nfactor.

End Xrft.

(** ** An executable backend

    Gaussian rationals, with kernels that follow the definition of the
    discrete Fourier transform.  The backend is exact where the complex
    exponentials are quarter turns, that is on axes of length 1, 2 and 4; it
    serves to run the functions above on concrete arrays. *)

Module Gauss.

Definition t : Type := Qc * Qc.

Definition zero : t := (0%q, 0%q).
Definition add (x y : t) : t := ((x.1 + y.1)%q, (x.2 + y.2)%q).
Definition mul (x y : t) : t :=
  ((x.1 * y.1 - x.2 * y.2)%q, (x.1 * y.2 + x.2 * y.1)%q).
Definition conj (x : t) : t := (x.1, (- x.2)%q).
Definition abs2 (x : t) : t := ((x.1 * x.1 + x.2 * x.2)%q, 0%q).
Definition scale (q : Qc) (x : t) : t := ((q * x.1)%q, (q * x.2)%q).
Definition re (x : t) : t := (x.1, 0%q).

(** [exp(2πi k/4)] for [k] in 0 .. 3. *)
Definition quarter_turn (k : Z) : t :=
  if (k =? 0)%Z then (1%q, 0%q)
  else if (k =? 1)%Z then (0%q, 1%q)
  else if (k =? 2)%Z then ((- 1)%q, 0%q)
  else (0%q, (- 1)%q).

(** [exp(2πi q)] when [4 q] is an integer. *)
Definition expi (q : Qc) : t :=
  let r := this (q * qz 4)%q in
  if bool_decide (Qden r = 1%positive) then quarter_turn (Qnum r `mod` 4)
  else (1%q, 0%q).

(** The square root of [q], exact when [q] is the square of a rational. *)
Definition sqrt (q : Qc) : Qc :=
  let r := this q in
  Q2Qc (Z.sqrt (Qnum r * Z.pos (Qden r)) # Qden r).

Definition hanning (n : nat) : list Qc :=
  match n with
  | 1%nat => [1%q]
  | _ => (fun j => (qfrac 1 2 - qfrac 1 2 * (expi (qn j / qn (n - 1))).1)%q)
           <$> seq 0 n
  end.

Local Instance t_inhabited : Inhabited t := populate zero.

Definition sum (l : list t) : t := foldl add zero l.

(** The transform along one axis: [sign] is [-1] forward, [1] backward. *)
Definition dft_axis (sign : Z) (a : ndarray t) (ax : nat) : ndarray t :=
  let n := shape a !!! ax in
  of_fun (shape a)
    (fun i => sum ((fun j => mul (item a (<[ax := j]> i))
                               (expi (qz sign * qn j * qn (i !!! ax) / qn n)))
                     <$> seq 0 n)).

Definition idft_axis (a : ndarray t) (ax : nat) : ndarray t :=
  nd_map (scale (/ qn (shape a !!! ax))%q) (dft_axis 1 a ax).

(** The real transform along one axis keeps the bins [0 .. n/2] of the
    transform of the real part. *)
Definition rfft_axis (a : ndarray t) (ax : nat) : ndarray t :=
  let n := shape a !!! ax in
  of_fun (<[ax := (n / 2 + 1)%nat]> (shape a))
    (fun i => sum ((fun j => mul (re (item a (<[ax := j]> i)))
                               (expi (- (qn j * qn (i !!! ax) / qn n))))
                     <$> seq 0 n)).

(** Its inverse rebuilds [2 (m - 1)] real samples from [m] bins. *)
Definition irfft_axis (a : ndarray t) (ax : nat) : ndarray t :=
  let m := shape a !!! ax in
  let n := (2 * (m - 1))%nat in
  let bin (i : list nat) (k : nat) : t :=
    if bool_decide (k < m)%nat then item a (<[ax := k]> i)
    else conj (item a (<[ax := (n - k)%nat]> i)) in
  of_fun (<[ax := n]> (shape a))
    (fun i => re (scale (/ qn n)%q
                    (sum ((fun k => mul (bin i k)
                                      (expi (qn k * qn (i !!! ax) / qn n)))
                            <$> seq 0 n)))).

Definition fftn (a : ndarray t) (axes : list nat) : ndarray t :=
  foldr (fun ax acc => dft_axis (-1) acc ax) a axes.

Definition ifftn (a : ndarray t) (axes : list nat) : ndarray t :=
  foldr (fun ax acc => idft_axis acc ax) a axes.

Definition rfftn (a : ndarray t) (axes : list nat) : ndarray t :=
  match reverse axes with
  | [] => a
  | last :: others =>
      foldl (fun acc ax => dft_axis (-1) acc ax) (rfft_axis a last) (reverse others)
  end.

Definition irfftn (a : ndarray t) (axes : list nat) : ndarray t :=
  match reverse axes with
  | [] => a
  | last :: others =>
      irfft_axis (foldl (fun acc ax => idft_axis acc ax) a (reverse others)) last
  end.

(** Constant detrending: the mean over the transformed axes is subtracted. *)
Definition detrend (da : DataArray t) (dim : list string) (kind : pyval)
    : result (DataArray t) :=
  match kind with
  | PyStr "constant" =>
      let a := da_data da in
      let fixed := (fun d => bool_decide (d ∉ dim)) <$> da_dims da in
      let same (i j : list nat) : bool :=
        forallb (fun '(f, (x, y)) => implb f (bool_decide (x = y)))
                (zip fixed (zip i j)) in
      Ok (MkDataArray (da_dims da) (da_coords da)
            (of_fun (shape a)
               (fun i =>
                  let group := filter (fun j => same i j = true) (indices (shape a)) in
                  add (item a i)
                      (scale (- / qn (length group))%q (sum (item a <$> group))))))
  | _ => Raise DetrendError
  end.

Definition backend : Backend :=
  Build_Backend t zero add mul conj abs2 scale expi sqrt hanning
                fftn ifftn rfftn irfftn detrend.

End Gauss.

(** ** The numpy-like entry points and the isotropic cross spectrum *)

Section Wrappers.
Context `{B : Backend}.


(** The keyword [real] among [kwargs]: absent or [None], the name of a
    dimension, or a value that is the name of no dimension. *)
Definition real_kw (kwargs : gmap string pyval) : result (option string) :=
  match kwargs !! "real" with
  | None | Some PyNone => Ok None
  | Some (PyStr r) => Ok (Some r)
  | Some _ => Raise RealDimMissing
  end.

(** [fft(da, dim=None, **kwargs)]: [true_phase] and [true_amplitude] are
    popped, then [dft] is called with both set to [False]. *)
Definition fft (da : DataArray elt) (dim : dim_arg) (kwargs : gmap string pyval)
    : result (DataArray elt) :=
  let kwargs := delete "true_amplitude" (delete "true_phase" kwargs) in
  if bool_decide (dom kwargs ⊆ dft_keywords ∪ {["real"]}) then
    real ← real_kw kwargs;
    dft_kw da dim real
      (<["true_amplitude" := PyBool false]>
         (<["true_phase" := PyBool false]> (delete "real" kwargs)))
  else Raise TypeError.


Definition isotropic_cross_spectrum (da1 da2 : DataArray elt) (spacing_tol : Qc)
    (dim : option (list string)) (shift : bool) (detrend : pyval)
    (density window : bool) (nfactor : Z) : result (DataArray elt) :=
  dim ← match dim with
        | None =>
            if negb (bool_decide (da_dims da1 = da_dims da2))
            then Raise DifferentDimensions
            else Ok (da_dims da1)
        | Some dim => Ok dim
        end;
  if negb (bool_decide (length dim = 2%nat)) then Raise NotTwoDimensional
  else
    cs ← cross_spectrum da1 da2 (DimList dim) None "density"
           (<["spacing_tol" := PyFloat spacing_tol]>
              (<["shift" := PyBool shift]>
                 (<["detrend" := detrend]>
                    (<["density" := PyBool density]>
                       (<["window" := PyBool window]> ∅)))));
    let fftdim := (fun d => "freq_" +:+ d) <$> dim in
    isotropize cs fftdim nfactor.

End Wrappers.

(** ** Concrete arrays

    Arrays of Gaussian rationals on which the functions above are run. *)

Module Examples.

Definition gz (a b : Z) : Gauss.t := (qz a, qz b).

(** A one-dimensional array along [d] with integer coordinates [c]. *)
Definition vector (d : string) (c : list Qc) (v : list Gauss.t) : DataArray Gauss.t :=
  MkDataArray [d] {[ d := MkCoord c None ]} (NdArray [length v] v).

Definition samples : list Gauss.t := [gz 1 0; gz 2 1; gz 0 3; gz 5 0].
Definition real_samples : list Gauss.t := [gz 1 0; gz 2 0; gz 0 0; gz 5 0].

(** Four samples at [x = 1, 2, 3, 4]: the midpoint coordinate is 3. *)
Definition off_centre : DataArray Gauss.t := vector "x" (qz <$> [1; 2; 3; 4]%Z) samples.

(** Four samples at [x = -2, -1, 0, 1]: the midpoint coordinate is 0. *)
Definition centred : DataArray Gauss.t := vector "x" (qz <$> [-2; -1; 0; 1]%Z) samples.


(** Real samples along a dimension named [x], along one named [segment],
    and two samples along [x]. *)
Definition plain_axis : DataArray Gauss.t :=
  vector "x" (qz <$> [0; 1; 2; 3]%Z) real_samples.
Definition segment_axis : DataArray Gauss.t :=
  vector "segment" (qz <$> [0; 1; 2; 3]%Z) real_samples.
Definition short_axis : DataArray Gauss.t :=
  vector "x" (qz <$> [0; 1]%Z) [gz 1 0; gz 2 0].


(** Three bins of a real transform, at frequencies 0, 1/4, 1/2. *)
Definition half_spectrum : DataArray Gauss.t :=
  vector "freq_x" [qfrac 0 1; qfrac 1 4; qfrac 1 2] [gz 8 0; gz 3 (-1); gz 6 0].

(** A 4 by 4 spectrum on the frequencies -1/2, -1/4, 0, 1/4. *)
Definition quarter_freqs : Coord :=
  MkCoord [qfrac (-1) 2; qfrac (-1) 4; qfrac 0 1; qfrac 1 4] (Some (qfrac 1 4)).

Definition spectrum44 : DataArray Gauss.t :=
  MkDataArray ["freq_x"; "freq_y"]
    {[ "freq_x" := quarter_freqs; "freq_y" := quarter_freqs ]}
    (NdArray [4; 4] ((fun j => gz (Z.of_nat j) 0) <$> seq 0 16)).

Definition tol3 : Qc := qfrac 1 1000.   (* spacing_tol = 1e-3 *)

Definition dft_default (da : DataArray Gauss.t) : result (DataArray Gauss.t) :=
  dft (B := Gauss.backend) da tol3 DimNone None true PyNone false true true false "freq_".

Definition idft_default (daft : DataArray Gauss.t) (lag : lag_arg)
    : result (DataArray Gauss.t) :=
  idft (B := Gauss.backend) daft tol3 DimNone None true PyNone true true false false
       "freq_" lag.

End Examples.
(** * Auxiliary notions of the statements *)



(** The evenly spaced coordinate of [n] points and spacing [dx] whose
    midpoint [x[n // 2]] is [lag]. *)
Definition centred_grid (n : nat) (dx lag : Qc) : list Qc :=
  (fun j => (lag + (qn j - qn (n / 2)) * dx)%q) <$> seq 0 n.

Section Grids.
Context `{B : Backend}.

(** [da] is sampled on a regular grid: its axes carry distinct names, and
    axis [j] has a coordinate of at least two points, of spacing
    [dxs[j] > 0] and midpoint [lags[j]]. *)
Definition on_grid (da : DataArray elt) (dxs lags : list Qc) : Prop :=
  NoDup (da_dims da) ∧ wf_array (da_data da) ∧
  length (shape (da_data da)) = length (da_dims da) ∧
  length dxs = length (da_dims da) ∧ length lags = length (da_dims da) ∧
  ∀ j d, da_dims da !! j = Some d →
    (2 ≤ shape (da_data da) !!! j)%nat ∧ (0 < dxs !!! j)%q ∧
    cvalues <$> da_coords da !! d
      = Some (centred_grid (shape (da_data da) !!! j) (dxs !!! j) (lags !!! j)).

(** No dimension of [da] begins with the prefix, and the prefixed names are
    not in use. *)
Definition fresh_prefix (prefix : string) (da : DataArray elt) : Prop :=
  ∀ d, d ∈ da_dims da →
    starts_with prefix d = false ∧ da_coords da !! (prefix +:+ d) = None.

(** The spacing of the frequencies of axis [j]. *)
Definition freq_spacing (da : DataArray elt) (dxs : list Qc) (j : nat) : Qc :=
  (1 / (qn (shape (da_data da) !!! j) * dxs !!! j))%q.

(** Multiplication by vectors laid along axes, one after the other. *)
Definition mul_vectors (a : ndarray elt) (ws : list (nat * list elt))
    : ndarray elt :=
  foldl (fun a '(ax, w) => along c_mul a ax w) a ws.

End Grids.
Section Phases.
Context `{B : Backend}.

(** The phase factors of [dft] and of [idft] for the frequencies [ks] and
    the lags [lags], one vector for each axis. *)
Definition fwd_vectors (ks : list (list Qc)) (lags : list Qc) : list (list elt) :=
  zip_with (fun k l => (fun x => c_expi (- (x * l))%q) <$> k) ks lags.

Definition bwd_vectors (ks : list (list Qc)) (lags : list Qc) : list (list elt) :=
  zip_with (fun k l => (fun x => c_expi (x * l)%q) <$> k) ks lags.

End Phases.

(** The coordinates that [_new_dims_and_coords] builds from the vectors
    [ks], under the names [names]. *)
Definition coords_of (names : list string) (ks : list (list Qc)) : pydict Coord :=
  zip_with (fun d k => (d, MkCoord k (Some (k !!! 1%nat - k !!! 0%nat)%q))) names ks.

(** The [lag] argument as [idft] reads it. *)
Definition lags_of (lag : lag_arg) : option (list Qc) :=
  match lag with
  | LagNone => None
  | LagFloat l => Some [l]
  | LagList ls => Some ls
  end.

(** The coordinates [nc] moved by the lags [ls], attributes kept. *)
Definition shifted_coords (nc : pydict Coord) (ls : list Qc) : pydict Coord :=
  zip_with (fun kv l => (kv.1, MkCoord ((fun x => (x + l)%q) <$> cvalues kv.2)
                                 (cspacing kv.2))) nc ls.

Section Kernel.
Context `{B : Backend}.

(** On the array [Y], the kernel [inv] undoes the kernel [fwd] across a
    scaling by [c], and [fwd] returns an array of shape [s]. *)
Definition kernel_inverts (fwd inv : ndarray elt → list nat → ndarray elt)
    (Y : ndarray elt) (axes : list nat) (c : Qc) (s : list nat) : Prop :=
  wf_array (fwd Y axes) ∧ shape (fwd Y axes) = s ∧
  inv (nd_map (c_scale c) (fwd Y axes)) axes = nd_map (c_scale c) Y.

(** The lags given to [idft] are the midpoints of the coordinates, or none
    are given and the midpoints are zero. *)
Definition lags_given (lag : lag_arg) (lags : list Qc) : Prop :=
  lags_of lag = Some lags ∨ (lags_of lag = None ∧ Forall (eq 0%q) lags).

End Kernel.
(** ** More concrete arrays *)

Module MoreExamples.

(** Four samples at the same place [x = 1]. *)
Definition constant_axis : DataArray Gauss.t :=
  Examples.vector "x" (replicate 4 (qz 1)) Examples.samples.

(** One sample at [x = 0]. *)
Definition single_point : DataArray Gauss.t :=
  Examples.vector "x" [qz 0] [Examples.gz 1 0].

End MoreExamples.

(** * Properties *)

(** ** The result monad *)

Lemma bind_Ok {A B} (m : result A) (f : A → result B) (b : B) :
  m ≫= f = Ok b ↔ ∃ a, m = Ok a ∧ f a = Ok b.
Proof.
  destruct m as [a|e]; simpl; split.
  - eauto.
  - intros (a' & [= ->] & H); done.
  - done.
  - intros (a' & [=] & _).
Qed.

Lemma bind_Raise {A B} (m : result A) (f : A → result B) (e : exn) :
  m = Raise e → m ≫= f = Raise e.
Proof. by intros ->. Qed.


(** Reduce the binds whose first computation is a value. *)
Ltac mstep := cbn [mbind result_bind mret result_ret fmap result_fmap].

(** Decompose a hypothesis [x ← m; k = Ok r]. *)
Ltac inv_bind H :=
  let a := fresh "a" in
  let Ha := fresh "H" a in
  apply bind_Ok in H as (a & Ha & H).

Ltac inv_binds :=
  repeat match goal with
  | H : (_ ≫= _) = Ok _ |- _ => inv_bind H
  | H : context [let '(_, _) := ?p in _] |- _ => is_var p; destruct p; simpl in H
  | H : Ok _ = Ok _ |- _ => injection H; clear H; intros; subst
  | H : Raise _ = Ok _ |- _ => discriminate H
  | H : (if ?b then _ else _) = Ok _ |- _ =>
      let E := fresh "E" in destruct b eqn:E; try discriminate H
  end.

Lemma mapM_Ok_length {A B} (f : A → result B) l ys :
  mapR f l = Ok ys → length ys = length l.
Proof.
  revert ys; induction l as [|x l IH]; simpl; intros ys H.
  - by injection H as <-.
  - inv_binds. simpl. f_equal. eauto.
Qed.

Lemma foldM_snoc {A X} (step : A → X → result A) l x a :
  foldM step (l ++ [x]) a = foldM step l a ≫= (fun b => step b x).
Proof. unfold foldM. by rewrite foldl_app. Qed.

Lemma foldM_cons {A X} (step : A → X → result A) l x a :
  foldM step (x :: l) a = step a x ≫= foldM step l.
Proof.
  unfold foldM. simpl. destruct (step a x) as [b|e]; simpl; [done|].
  induction l as [|y l IH] using rev_ind; [done|].
  by rewrite foldl_app, IH.
Qed.

(** An invariant of the body is an invariant of the loop. *)
Lemma foldM_ind {A X} (P : A → Prop) (step : A → X → result A) l a r :
  P a → (∀ b x c, x ∈ l → P b → step b x = Ok c → P c) →
  foldM step l a = Ok r → P r.
Proof.
  intros Ha Hstep. revert r.
  induction l as [|x l IH] using rev_ind; intros r H.
  - unfold foldM in H. simpl in H. by injection H as <-.
  - rewrite foldM_snoc in H. inv_binds.
    eapply (Hstep a0 x r); [set_solver| |done].
    apply IH; [|done]. intros b y c Hy. apply Hstep. set_solver.
Qed.

(** ** Python strings *)

Lemma str_app_cons c s1 s2 : String c s1 +:+ s2 = String c (s1 +:+ s2).
Proof. reflexivity. Qed.

Lemma str_take_app p s : str_take (String.length p) (p +:+ s) = p.
Proof.
  induction p as [|c p IH]; [by destruct s|].
  rewrite str_app_cons. simpl. by rewrite IH.
Qed.

Lemma str_drop_app p s : str_drop (String.length p) (p +:+ s) = s.
Proof.
  induction p as [|c p IH]; [by destruct s|].
  rewrite str_app_cons. simpl. by rewrite IH.
Qed.

Lemma str_take_drop n s : str_take n s +:+ str_drop n s = s.
Proof.
  revert s; induction n as [|n IH]; intros [|c s]; simpl; try done.
  rewrite str_app_cons. by rewrite IH.
Qed.

Lemma str_app_length s1 s2 :
  String.length (s1 +:+ s2) = (String.length s1 + String.length s2)%nat.
Proof.
  induction s1 as [|c s1 IH]; [done|].
  rewrite str_app_cons. simpl. by rewrite IH.
Qed.

Lemma starts_with_spec p s :
  starts_with p s = true ↔ ∃ r, s = p +:+ r.
Proof.
  unfold starts_with. rewrite bool_decide_eq_true. split.
  - intros H. exists (str_drop (String.length p) s).
    rewrite <- H at 1. by rewrite str_take_drop.
  - intros [r ->]. apply str_take_app.
Qed.

Lemma new_name_prefixed p d :
  starts_with p d = true →
  new_name p d = str_drop (String.length p) d ∧ p +:+ new_name p d = d.
Proof.
  intros H. unfold new_name.
  unfold starts_with in H. rewrite H. simpl. split; [done|].
  apply bool_decide_eq_true in H. rewrite <- H at 1. apply str_take_drop.
Qed.

Lemma new_name_fresh p d :
  starts_with p d = false → new_name p d = p +:+ d.
Proof. intros H. unfold new_name. unfold starts_with in H. by rewrite H. Qed.

Lemma new_name_twice p d :
  new_name p (new_name p d) = d ↔
  p = "" ∨ ¬ (starts_with p d = true ∧
              starts_with p (str_drop (String.length p) d) = true).
Proof.
  destruct (starts_with p d) eqn:Hd.
  - destruct (new_name_prefixed p d Hd) as [Hn Hpd]. rewrite Hn.
    set (r := str_drop (String.length p) d) in *.
    destruct (starts_with p r) eqn:Hr.
    + destruct (new_name_prefixed p r Hr) as [Hn' Hpr]. rewrite Hn'.
      split.
      * intros Heq. left.
        assert (String.length d = (String.length p + (String.length p + String.length d))%nat) as Hlen.
        { rewrite <- Hpd at 1. rewrite Hn. fold r. rewrite <- Hpr at 1.
          rewrite !str_app_length. rewrite Hn'. by rewrite Heq. }
        destruct p; [done|simpl in Hlen; lia].
      * intros [-> | Hc]; [|by destruct Hc].
        simpl. subst r. simpl. done.
    + rewrite (new_name_fresh p r Hr). subst r. rewrite <- Hn, Hpd.
      split; [|done]. intros _. right. intros [_ [=]].
  - rewrite (new_name_fresh p d Hd).
    assert (starts_with p (p +:+ d) = true) as Hs
      by (apply starts_with_spec; eauto).
    destruct (new_name_prefixed p _ Hs) as [-> _]. rewrite str_drop_app.
    split; [|done]. intros _. right. intros [[=] _].
Qed.

(** ** Dictionaries *)

Lemma dict_get_set_eq {V} (m : pydict V) k v : dict_get (dict_set m k v) k = Some v.
Proof.
  unfold dict_get. induction m as [|[k' v'] m IH]; simpl.
  - by rewrite bool_decide_eq_true_2.
  - destruct (bool_decide (k' = k)) eqn:E; simpl; rewrite ?E; auto.
Qed.

Lemma dict_get_set_ne {V} (m : pydict V) k k' v :
  k ≠ k' → dict_get (dict_set m k v) k' = dict_get m k'.
Proof.
  intros Hne. unfold dict_get. induction m as [|[k0 v0] m IH]; simpl.
  - by rewrite bool_decide_eq_false_2.
  - destruct (bool_decide (k0 = k)) eqn:E; simpl.
    + apply bool_decide_eq_true in E as ->.
      by rewrite !bool_decide_eq_false_2.
    + destruct (bool_decide (k0 = k')); simpl; auto.
Qed.

Lemma dict_get_set {V} (m : pydict V) k k' v :
  dict_get (dict_set m k v) k' = if bool_decide (k = k') then Some v else dict_get m k'.
Proof.
  case_bool_decide as E; [subst; apply dict_get_set_eq|by apply dict_get_set_ne].
Qed.

Lemma is_ok_Ok {A} (r : result A) : is_ok r = true → ∃ a, r = Ok a.
Proof. destruct r; [eauto|discriminate]. Qed.

Lemma returns_Ok {A} (r : result A) (P : A → bool) :
  returns r P = true → ∃ a, r = Ok a ∧ P a = true.
Proof. destruct r; [eauto|discriminate]. Qed.

Lemma mapR_Raise {A B} (f : A → result B) l e :
  mapR f l = Raise e → ∃ x, x ∈ l ∧ f x = Raise e.
Proof.
  induction l as [|x l IH]; simpl; [done|].
  destruct (f x) as [y|e'] eqn:E; simpl.
  - destruct (mapR f l) as [ys|e'']; simpl; [done|].
    intros [= ->]. destruct IH as (x' & ? & ?); [done|].
    exists x'. split; [by right|done].
  - intros [= ->]. exists x. split; [by left|done].
Qed.

(** ** Multi-indices *)

Lemma elem_of_indices s i : i ∈ indices s ↔ valid_index s i.
Proof.
  unfold valid_index. revert i. induction s as [|n s IH]; intros i; simpl.
  - rewrite list_elem_of_singleton. split; [intros ->; constructor|].
    by intros ->%Forall2_nil_inv_r.
  - rewrite list_elem_of_bind. split.
    + intros (k & Hi & Hk). apply list_elem_of_fmap in Hi as (i' & -> & Hi').
      apply elem_of_seq in Hk. constructor; [lia|]. by apply IH.
    + intros H. apply Forall2_cons_inv_r in H as (k & i' & Hk & Hi' & ->).
      exists k. split; [|apply elem_of_seq; lia].
      apply list_elem_of_fmap. exists i'. split; [done|]. by apply IH.
Qed.
(** ** Names of the transformed dimensions *)

Section Naming.
Context `{B : Backend}.

Lemma new_dims_swap (da : DataArray elt) dim wavenm prefix nc sw :
  _new_dims_and_coords da dim wavenm prefix = Ok (nc, sw) →
  ∀ d, dict_get sw d = if bool_decide (d ∈ dim) then Some (new_name prefix d) else None.
Proof.
  unfold _new_dims_and_coords.
  generalize (dict_of_zip dim wavenm) as w. intros w.
  revert nc sw. induction dim as [|x l IH] using rev_ind; intros nc sw H d.
  - injection H as <- <-. rewrite bool_decide_eq_false_2; [done|].
    by apply not_elem_of_nil.
  - rewrite foldM_snoc in H. inv_binds.
    rewrite dict_get_set. rewrite (IH _ _ Ha d).
    destruct (decide (x = d)) as [->|Hne].
    + rewrite !bool_decide_eq_true_2; [done|set_solver|done].
    + rewrite (bool_decide_eq_false_2 (x = d)) by done.
      apply (f_equal (fun b : bool => if b then _ else _)).
      apply bool_decide_ext. set_solver.
Qed.

Lemma xr_transpose_dims (da r : DataArray elt) order :
  xr_transpose da order = Ok r → da_dims r = order ∧ da_coords r = da_coords da.
Proof. unfold xr_transpose. intros H. by inv_binds. Qed.

Lemma stack_chunks_dims (da r : DataArray elt) dim :
  _stack_chunks da dim = Ok r → da_dims r = da_dims da.
Proof. unfold _stack_chunks. intros H. by inv_binds. Qed.

Lemma mul_along_labels (da r : DataArray elt) d w :
  mul_along da d w = Ok r →
  da_dims r = da_dims da ∧ da_coords r = da_coords da.
Proof. unfold mul_along. intros H. by inv_binds. Qed.

Lemma idft_phase_labels (daft r : DataArray elt) dim ls :
  idft_phase daft dim ls = Ok r →
  da_dims r = da_dims daft ∧ da_coords r = da_coords daft.
Proof.
  unfold idft_phase.
  apply (foldM_ind (fun a => da_dims a = da_dims daft ∧ da_coords a = da_coords daft));
    [done|].
  intros b [d l] c _ [Hd Hc] H. inv_binds.
  apply mul_along_labels in H as [-> ->]. done.
Qed.

Lemma swap_get_renamed (da : DataArray elt) dim wavenm prefix nc sw d :
  _new_dims_and_coords da dim wavenm prefix = Ok (nc, sw) →
  default d (dict_get sw d) = renamed prefix dim d.
Proof.
  intros H. rewrite (new_dims_swap _ _ _ _ _ _ H). unfold renamed.
  by case_bool_decide.
Qed.

Ltac label_facts :=
  repeat match goal with
  | H : _stack_chunks _ _ = Ok _ |- _ => apply stack_chunks_dims in H
  | H : idft_phase _ _ _ = Ok _ |- _ => apply idft_phase_labels in H as [? ?]
  | H : restore_order _ _ _ = Ok _ |- _ =>
      unfold restore_order in H; apply xr_transpose_dims in H as [? ?]
  end.

Lemma dft_dims da tol dim real shift detrend window tp ta cts prefix r dim' :
  resolve_dim da dim real = Ok dim' →
  dft da tol dim real shift detrend window tp ta cts prefix = Ok r →
  da_dims r = renamed prefix dim' <$> da_dims da.
Proof.
  intros Hdim H. unfold dft in H. rewrite Hdim in H. simpl in H.
  inv_binds; label_facts.
  all: repeat match goal with
       | H : da_dims ?x = _ |- da_dims ?x = _ => rewrite H; clear H
       | H : da_dims ?x = _ |- context [da_dims ?x] => rewrite H; clear H
       end.
  all: apply map_ext; intros d; eapply swap_get_renamed; eauto.
Qed.

Lemma idft_dims daft tol dim real shift detrend tp ta window cts prefix lag r dim' :
  resolve_dim daft dim real = Ok dim' →
  idft daft tol dim real shift detrend tp ta window cts prefix lag = Ok r →
  da_dims r = renamed prefix dim' <$> da_dims daft.
Proof.
  intros Hdim H. unfold idft in H. rewrite Hdim in H. simpl in H.
  destruct lag; simpl in H; inv_binds; label_facts.
  all: repeat match goal with
       | H : da_dims ?x = _ |- da_dims ?x = _ => rewrite H; clear H
       | H : da_dims ?x = _ |- context [da_dims ?x] => rewrite H; clear H
       end.
  all: apply map_ext; intros d; eapply swap_get_renamed; eauto.
Qed.


(** C10 (as amended).  Both [dft] and [idft] name every transformed
    dimension with [new_name]: a name that begins with the prefix loses it,
    any other name gains it.  Applying [new_name] twice gives the name back
    exactly when the prefix is empty or the name does not begin with the
    prefix twice over. *)
Theorem new_name_toggles_prefix (prefix : string)
    (da : DataArray elt) tol dim real shift detrend window tp ta cts dims_t r
    (daft : DataArray elt) tol' dim' real' shift' detrend' tp' ta' window' cts'
    lag dims_t' r' :
  resolve_dim da dim real = Ok dims_t →
  dft da tol dim real shift detrend window tp ta cts prefix = Ok r →
  resolve_dim daft dim' real' = Ok dims_t' →
  idft daft tol' dim' real' shift' detrend' tp' ta' window' cts' prefix lag = Ok r' →
  da_dims r = renamed prefix dims_t <$> da_dims da ∧
  da_dims r' = renamed prefix dims_t' <$> da_dims daft ∧
  (∀ d, starts_with prefix d = true →
        new_name prefix d = str_drop (String.length prefix) d ∧
        prefix +:+ new_name prefix d = d) ∧
  (∀ d, starts_with prefix d = false → new_name prefix d = prefix +:+ d) ∧
  (∀ d, new_name prefix (new_name prefix d) = d ↔
        prefix = "" ∨
        ¬ (starts_with prefix d = true ∧
           starts_with prefix (str_drop (String.length prefix) d) = true)).
Proof.
  intros Hd Hdft Hd' Hidft. repeat split.
  - eapply dft_dims; eauto.
  - eapply idft_dims; eauto.
  - by apply new_name_prefixed.
  - by apply new_name_prefixed.
  - apply new_name_fresh.
  - by apply new_name_twice.
  - by apply new_name_twice.
Qed.

End Naming.

Lemma new_name_toggles_prefix_witness :
  ∃ daft r',
    Examples.dft_default Examples.off_centre = Ok daft ∧
    Examples.idft_default daft LagNone = Ok r' ∧
    da_dims daft = ["freq_x"] ∧ da_dims r' = ["x"].
Proof.
  destruct (is_ok_Ok (Examples.dft_default Examples.off_centre ≫=
                      fun daft => Examples.idft_default daft LagNone))
    as [r' H]; [vm_compute; reflexivity|].
  apply bind_Ok in H as (daft & H1 & H2).
  exists daft, r'. split; [done|]. split; [done|].
  destruct (new_name_toggles_prefix (B := Gauss.backend) "freq_"
              Examples.off_centre Examples.tol3 DimNone None true PyNone
              false true true false ["x"] daft
              daft Examples.tol3 DimNone None true PyNone true true false false
              LagNone (da_dims daft) r') as (E1 & E2 & _).
  - reflexivity.
  - exact H1.
  - reflexivity.
  - exact H2.
  - cbv [elt Gauss.backend] in E1, E2. rewrite E2, E1. split; reflexivity.
Defined.

(** C10 as stated fails: with the default prefix, the name [freq_freq_x]
    is not restored by a second renaming. *)
Lemma new_name_not_involutive :
  new_name "freq_" (new_name "freq_" "freq_freq_x") ≠ "freq_freq_x".
Proof. vm_compute. discriminate. Qed.
(** ** The spacing tolerance *)

Lemma isclose_spec rtol b x :
  isclose rtol b x = true ↔ (Qcabs (x - b) <= allclose_atol + rtol * Qcabs b)%q.
Proof. unfold isclose, qleb. apply bool_decide_eq_true. Qed.

Lemma allclose_spec a b rtol :
  allclose a b rtol = true ↔
  Forall (fun x => (Qcabs (x - b) <= allclose_atol + rtol * Qcabs b)%q) a.
Proof.
  unfold allclose. induction a as [|x a IH]; simpl.
  - split; [constructor|done].
  - rewrite andb_true_iff, Forall_cons, IH, isclose_spec. done.
Qed.

Lemma np_diff_cons x y l : np_diff (x :: y :: l) = (y - x)%q :: np_diff (y :: l).
Proof. reflexivity. Qed.

Section Spacing.
Context `{B : Backend}.

Lemma diff_coord_Ok (c : Coord) :
  (2 ≤ length (cvalues c))%nat →
  ∃ d0 rest, np_diff (cvalues c) = d0 :: rest ∧ _diff_coord c = Ok (d0 :: rest).
Proof.
  intros Hlen. unfold _diff_coord.
  destruct (cvalues c) as [|x [|y l]]; simpl in Hlen; try lia.
  exists (y - x)%q, (np_diff (y :: l)). done.
Qed.

Lemma lag_coord_Ok (c : Coord) :
  (1 ≤ length (cvalues c))%nat →
  ∃ lag, cvalues c !! (length (cvalues c) / 2)%nat = Some lag ∧ _lag_coord c = Ok lag.
Proof.
  intros Hlen. unfold _lag_coord.
  destruct (lookup_lt_is_Some_2 (cvalues c) (length (cvalues c) / 2)) as [lag Hlag].
  { apply Nat.Div0.div_lt_upper_bound. lia. }
  exists lag. rewrite Hlag.
  destruct (cvalues c); [simpl in Hlen; lia|done].
Qed.



End Spacing.


(** ** The shift of the frequency bins *)


Section Shift.
Context `{B : Backend}.


End Shift.


(** ** Power spectrum and cross spectrum *)

Section Spectra.
Context `{B : Backend}.







Lemma spacing_of_Raise (ps : DataArray elt) d e :
  spacing_of ps d = Raise e → e = KeyError d ∨ e = AttributeError "spacing".
Proof.
  unfold spacing_of, da_getitem.
  destruct (da_coords ps !! d) as [c|]; mstep.
  - destruct (cspacing c); simpl; [done|]. intros [= <-]. by right.
  - destruct (list_find _ _) as [[ax ?]|]; simpl; intros [= <-]; auto.
Qed.

Lemma apply_scaling_Raise (ps : DataArray elt) updated_dims scaling e :
  apply_scaling scaling updated_dims ps = Raise e → e ≠ DifferentDimensions.
Proof.
  unfold apply_scaling. intros H.
  assert (∀ e', mapR (spacing_of ps) updated_dims = Raise e' →
                e' ≠ DifferentDimensions) as Hm.
  { intros e' He'. apply mapR_Raise in He' as (x & _ & Hx).
    by apply spacing_of_Raise in Hx as [-> | ->]. }
  repeat case_bool_decide.
  - destruct (mapR _ _) eqn:E; simpl in H; [done|]. injection H as <-. by eapply Hm.
  - destruct (mapR _ _) eqn:E; simpl in H; [done|]. injection H as <-. by eapply Hm.
  - done.
  - by injection H as <-.
Qed.

Lemma xr_mul_Raise (a b : DataArray elt) e :
  xr_mul a b = Raise e → e = AlignmentError.
Proof.
  unfold xr_mul. destruct (mapR _ _) eqn:E; simpl; [done|].
  intros [= <-]. apply mapR_Raise in E as ([p d] & _ & Hx).
  destruct (da_coords a !! d), (da_coords b !! d); try done;
    by case_bool_decide; [|injection Hx as <-].
Qed.

(** C3 (as amended).  When both transforms succeed, [cross_spectrum]
    raises the dimension-mismatch error exactly when the two transforms
    differ in their tuples of dimension names; otherwise it returns the
    product of the first transform with the conjugate of the second, aligned
    by xarray, doubled for a real transform and scaled as [scaling] says. *)
Theorem cross_spectrum_compares_names (da1 da2 : DataArray elt) dim real
    scaling kwargs s kw daft1 daft2 :
  legacy_density scaling kwargs = (s, kw) →
  dft_kw da1 dim real (<["true_amplitude" := PyBool true]> kw) = Ok daft1 →
  dft_kw da2 dim real (<["true_amplitude" := PyBool true]> kw) = Ok daft2 →
  (cross_spectrum da1 da2 dim real scaling kwargs = Raise DifferentDimensions ↔
   da_dims daft1 ≠ da_dims daft2) ∧
  (da_dims daft1 = da_dims daft2 →
   cross_spectrum da1 da2 dim real scaling kwargs =
     xr_mul daft1 (da_map c_conj daft2) ≫= fun cs =>
     apply_scaling s (updated_dims_of daft1 da1)
       (match real with None => cs | Some _ => da_scale cs 2%q end)).
Proof.
  intros Hl H1 H2. unfold cross_spectrum. rewrite Hl, H1. mstep. rewrite H2. mstep.
  unfold cross_of. split.
  - case_bool_decide as E; simpl; [|done].
    split; [|done]. intros H. exfalso.
    destruct (xr_mul _ _) as [cs|e] eqn:Ex; simpl in H.
    + by apply apply_scaling_Raise in H.
    + injection H as ->. by apply xr_mul_Raise in Ex.
  - intros E. by rewrite bool_decide_eq_true_2.
Qed.

End Spectra.

Lemma cross_spectrum_compares_names_witness :
  cross_spectrum (B := Gauss.backend) Examples.plain_axis Examples.plain_axis
    DimNone None "density" ∅ ≠ Raise DifferentDimensions.
Proof.
  destruct (is_ok_Ok (dft_kw (B := Gauss.backend) Examples.plain_axis DimNone None
                             (<["true_amplitude" := PyBool true]> ∅)))
    as [daft H]; [by vm_compute|].
  destruct (cross_spectrum_compares_names (B := Gauss.backend)
              Examples.plain_axis Examples.plain_axis DimNone None
              "density" ∅ "density" ∅ daft daft) as [Hiff _].
  - by vm_compute.
  - exact H.
  - exact H.
  - intros Hr. by apply Hiff in Hr.
Defined.

(** C3 as stated fails: the transforms of a two-sample and of a four-sample
    array along [x] have different shapes along the transformed axis, and
    [cross_spectrum] returns a result. *)
Lemma cross_spectrum_accepts_different_shapes :
  ∃ daft1 daft2 cs,
    dft_kw (B := Gauss.backend) Examples.short_axis DimNone None
           (<["true_amplitude" := PyBool true]> ∅) = Ok daft1 ∧
    dft_kw (B := Gauss.backend) Examples.plain_axis DimNone None
           (<["true_amplitude" := PyBool true]> ∅) = Ok daft2 ∧
    shape (da_data daft1) = [2]%nat ∧ shape (da_data daft2) = [4]%nat ∧
    cross_spectrum (B := Gauss.backend) Examples.short_axis Examples.plain_axis
      DimNone None "density" ∅ = Ok cs.
Proof.
  destruct (returns_Ok
              (dft_kw (B := Gauss.backend) Examples.short_axis DimNone None
                      (<["true_amplitude" := PyBool true]> ∅))
              (fun d => bool_decide (shape (da_data d) = [2]%nat)))
    as (daft1 & H1 & S1); [by vm_compute|].
  destruct (returns_Ok
              (dft_kw (B := Gauss.backend) Examples.plain_axis DimNone None
                      (<["true_amplitude" := PyBool true]> ∅))
              (fun d => bool_decide (shape (da_data d) = [4]%nat)))
    as (daft2 & H2 & S2); [by vm_compute|].
  destruct (is_ok_Ok (cross_spectrum (B := Gauss.backend) Examples.short_axis
                        Examples.plain_axis DimNone None "density" ∅))
    as [cs H]; [by vm_compute|].
  apply bool_decide_eq_true in S1, S2. by exists daft1, daft2, cs.
Qed.

(** C5: the code at the failing input.  A dimension whose name contains
    [segment] is left out of the scaling: the [density] spectrum of
    [segment_axis] is its unscaled spectrum, although the spacing of its
    frequency axis is 1/4, whereas the same samples along [x] are scaled
    by 1/4. *)
Theorem power_spectrum_skips_segment_named_axis :
  ∃ ps ps',
    power_spectrum (B := Gauss.backend) Examples.segment_axis DimNone None
      "density" ∅ = Ok ps ∧
    power_spectrum (B := Gauss.backend) Examples.segment_axis DimNone None
      "false_density" ∅ = Ok ps ∧
    spacing_of (B := Gauss.backend) ps "freq_segment" = Ok (qfrac 1 4) ∧
    flat (da_data ps) = (fun z => Examples.gz z 0) <$> [36; 10; 64; 10]%Z ∧
    power_spectrum (B := Gauss.backend) Examples.plain_axis DimNone None
      "density" ∅ = Ok ps' ∧
    flat (da_data ps') = Gauss.scale (qfrac 1 4) <$> flat (da_data ps).
Proof.
  destruct (returns_Ok
    (power_spectrum (B := Gauss.backend) Examples.segment_axis DimNone None "density" ∅)
    (fun ps =>
       bool_decide (power_spectrum (B := Gauss.backend) Examples.segment_axis
                      DimNone None "false_density" ∅ = Ok ps) &&
       bool_decide (spacing_of (B := Gauss.backend) ps "freq_segment" = Ok (qfrac 1 4)) &&
       bool_decide (flat (da_data ps) = (fun z => Examples.gz z 0) <$> [36; 10; 64; 10]%Z) &&
       returns (power_spectrum (B := Gauss.backend) Examples.plain_axis DimNone None
                  "density" ∅)
         (fun ps' => bool_decide (flat (da_data ps') =
                                  Gauss.scale (qfrac 1 4) <$> flat (da_data ps)))))
    as (ps & H & HP); [by vm_compute|].
  apply andb_true_iff in HP as [HP H4]. apply andb_true_iff in HP as [HP H3].
  apply andb_true_iff in HP as [H1 H2].
  apply bool_decide_eq_true in H1, H2, H3.
  apply returns_Ok in H4 as (ps' & H4 & H5). apply bool_decide_eq_true in H5.
  by exists ps, ps'.
Qed.
(** ** The Gaussian rationals satisfy the laws *)

Lemma Gauss_expi_opp q : Gauss.mul (Gauss.expi (- q)%q) (Gauss.expi q) = Gauss.expi 0%q.
Proof.
  unfold Gauss.expi.
  assert (this (- q * qz 4)%q = Qopp (this (q * qz 4)%q)) as ->.
  { replace (- q * qz 4)%q with (- (q * qz 4))%q by ring.
    simpl. rewrite Qred_opp. f_equal. apply (canon (q * qz 4)%q). }
  destruct (this (q * qz 4)%q) as [n d]. simpl.
  case_bool_decide as Hd; [|by vm_compute].
  pose proof (Z.mod_pos_bound n 4 ltac:(lia)) as Hn.
  pose proof (Z.mod_pos_bound (- n) 4 ltac:(lia)) as Hn'.
  assert ((n `mod` 4 + (- n) `mod` 4) `mod` 4 = 0)%Z as Hsum.
  { rewrite <- Z.add_mod by lia. by replace (n + - n)%Z with 0%Z by lia. }
  assert (n `mod` 4 = 0 ∨ n `mod` 4 = 1 ∨ n `mod` 4 = 2 ∨ n `mod` 4 = 3)%Z
    as Ha by lia.
  assert ((- n) `mod` 4 = 0 ∨ (- n) `mod` 4 = 1 ∨ (- n) `mod` 4 = 2 ∨
          (- n) `mod` 4 = 3)%Z as Hb by lia.
  destruct Ha as [Ha|[Ha|[Ha|Ha]]], Hb as [Hb|[Hb|[Hb|Hb]]];
    rewrite Ha, Hb in *; try (vm_compute in Hsum; discriminate);
    apply (bool_decide_unpack _); by vm_compute.
Qed.

Global Instance Gauss_laws : ElementLaws Gauss.backend.
Proof.
  split; simpl.
  - intros [a b] [c d]. unfold Gauss.mul. simpl. f_equal; ring.
  - intros [a b] [c d] [e f]. unfold Gauss.mul. simpl. f_equal; ring.
  - intros [a b] [c d]. unfold Gauss.mul, Gauss.conj. simpl. f_equal; ring.
  - intros [a b]. unfold Gauss.conj. simpl. f_equal; ring.
  - intros q [a b]. unfold Gauss.conj, Gauss.scale. simpl. f_equal; ring.
  - apply (bool_decide_unpack _). by vm_compute.
  - intros p q [a b]. unfold Gauss.scale. simpl. f_equal; ring.
  - intros [a b]. unfold Gauss.scale. simpl. f_equal; ring.
  - intros q [a b] [c d]. unfold Gauss.mul, Gauss.scale. simpl. f_equal; ring.
  - intros [a b]. unfold Gauss.mul.
    replace (Gauss.expi 0%q) with ((1%q, 0%q) : Gauss.t)
      by (symmetry; apply (bool_decide_unpack _); by vm_compute).
    simpl. f_equal; ring.
  - apply Gauss_expi_opp.
Qed.
(** ** Conjugate symmetry of the cross spectrum *)

Section Symmetry.
Context `{B : Backend} `{!ElementLaws B}.










End Symmetry.

(** ** The centring test of the inverse transform *)

Section Centring.
Context `{B : Backend}.

Lemma da_getitem_coord (da : DataArray elt) d c :
  da_coords da !! d = Some c → da_getitem da d = Ok c.
Proof. intros H. unfold da_getitem. by rewrite H. Qed.

Lemma np_diff_lookup0_length l d0 : np_diff l !! 0%nat = Some d0 → (2 ≤ length l)%nat.
Proof. destruct l as [|x [|y l]]; simpl; try done. lia. Qed.

Lemma sort_keys_length l : length (sort_keys l) = length l.
Proof.
  induction l as [|x l IH]; simpl; [done|]. rewrite <- IH.
  generalize (sort_keys l) as s. clear. intros s.
  induction s as [|y s IH]; simpl; [done|].
  destruct (qleb _ _); simpl; auto.
Qed.

Lemma argsort_length l : length (argsort l) = length l.
Proof.
  unfold argsort. rewrite length_fmap, sort_keys_length, length_zip, length_seq. lia.
Qed.

Lemma sort_coord_length c : length (cvalues (sort_coord c)) = length (cvalues c).
Proof. unfold sort_coord. simpl. by rewrite length_fmap, argsort_length. Qed.

Lemma xr_sortby_coords (da r : DataArray elt) d d' :
  xr_sortby da d = Ok r → d ≠ d' → da_coords r !! d' = da_coords da !! d'.
Proof.
  unfold xr_sortby. intros H Hne. inv_binds. simpl. by rewrite lookup_insert_ne.
Qed.

Lemma idft_check_axis_coords real tol (daft r : DataArray elt) delta d d' :
  idft_check_axis real tol daft d = Ok (r, delta) → d ≠ d' →
  da_coords r !! d' = da_coords daft !! d'.
Proof.
  unfold idft_check_axis. intros H Hne. inv_binds; try done.
  all: eapply xr_sortby_coords; eauto.
Qed.

(** What the turn of the loop for [d] does once the coordinate and its lag
    are known. *)
Lemma idft_check_axis_lag real tol (daft : DataArray elt) d c l :
  da_coords daft !! d = Some c → idft_lag real tol d c = Some l →
  idft_check_axis real tol daft d =
    (if allclose (np_diff (cvalues c)) (np_diff (cvalues c) !!! 0%nat) tol
     then Ok daft else xr_sortby daft d) ≫= fun daft' =>
    if qltb tol (Qcabs l) then Raise (NotCentered d)
    else if qeqb (Qcabs (np_diff (cvalues c) !!! 0%nat)) 0%q then Raise (ZeroSpacing d)
    else Ok (daft', Qcabs (np_diff (cvalues c) !!! 0%nat)).
Proof.
  intros Hc Hl. unfold idft_check_axis. rewrite (da_getitem_coord _ _ _ Hc). mstep.
  unfold idft_lag in Hl.
  destruct (np_diff (cvalues c) !! 0%nat) as [d0|] eqn:Ed0; [|done].
  cbn [mbind option_bind] in Hl.
  pose proof (np_diff_lookup0_length _ _ Ed0) as Hlen.
  destruct (diff_coord_Ok c Hlen) as (d0' & rest & E & ->). mstep.
  rewrite E in Ed0, Hl |- *. simpl in Ed0. injection Ed0 as ->.
  change ((d0 :: rest) !!! 0%nat) with d0.
  cbn [or_raise lookup list_lookup]. mstep.
  destruct (lag_coord_Ok c) as (lag & Hlag & Hlc); [lia|].
  destruct (allclose (d0 :: rest) d0 tol) eqn:Eclose; cbn [negb].
  - case_bool_decide as Er; cbn [negb].
    + rewrite Hl. cbn [or_raise]. mstep. done.
    + rewrite Hlc. mstep. rewrite Hlag in Hl. by injection Hl as ->.
  - assert (∃ x, (if negb (bool_decide (Some d = real)) then _lag_coord c
                  else or_raise IndexError (cvalues c !! 0%nat)) = Ok x) as [x ->].
    { case_bool_decide; cbn [negb]; [|eauto].
      destruct (cvalues c) as [|x ?]; [simpl in Hlen; lia|]. by exists x. }
    mstep.
    destruct (np_diff (cvalues (sort_coord c)) !! 0%nat) as [s0|] eqn:Es0; [|done].
    cbn [mbind option_bind] in Hl.
    pose proof (np_diff_lookup0_length _ _ Es0) as Hlen'.
    destruct (diff_coord_Ok (sort_coord c) Hlen') as (s0' & rest' & E' & ->). mstep.
    rewrite E' in Es0, Hl. simpl in Es0. injection Es0 as ->.
    destruct (lag_coord_Ok (sort_coord c)) as (lag' & Hlag' & ->); [lia|]. mstep.
    cbn [or_raise lookup list_lookup]. mstep.
    destruct (allclose (s0 :: rest') s0 tol); [|done].
    rewrite Hlag' in Hl. injection Hl as ->.
    destruct (xr_sortby daft d); done.
Qed.

Lemma idft_check_axis_not_centred real tol (daft : DataArray elt) d c l :
  da_coords daft !! d = Some c → idft_lag real tol d c = Some l →
  d ∈ da_dims daft →
  idft_check_axis real tol daft d = Raise (NotCentered d) ↔ (tol < Qcabs l)%q.
Proof.
  intros Hc Hl Hd. rewrite (idft_check_axis_lag _ _ _ _ _ _ Hc Hl).
  assert (∃ daft', (if allclose (np_diff (cvalues c)) (np_diff (cvalues c) !!! 0%nat) tol
                    then Ok daft else xr_sortby daft d) = Ok daft') as [daft' ->].
  { destruct (allclose _ _ _); [eauto|].
    unfold xr_sortby. rewrite (da_getitem_coord _ _ _ Hc). mstep.
    unfold get_axis_num.
    destruct (list_find (eq d) (da_dims daft)) as [[ax ?]|] eqn:E; simpl; [eauto|].
    apply list_find_None in E. rewrite Forall_forall in E. by destruct (E d). }
  mstep. unfold qltb. case_bool_decide; [done|].
  split; [|done]. by destruct (qeqb _ _).
Qed.

Lemma idft_check_axis_rejects real tol (daft : DataArray elt) d c l :
  da_coords daft !! d = Some c → idft_lag real tol d c = Some l →
  (tol < Qcabs l)%q → is_ok (idft_check_axis real tol daft d) = false.
Proof.
  intros Hc Hl Hlt. rewrite (idft_check_axis_lag _ _ _ _ _ _ Hc Hl).
  destruct (if allclose _ _ _ then _ else _); [|done]. mstep.
  unfold qltb. by rewrite bool_decide_eq_true_2.
Qed.

Lemma idft_check_axes_rejects real tol dims (daft : DataArray elt) delta_x d c l :
  d ∈ dims → da_coords daft !! d = Some c → idft_lag real tol d c = Some l →
  (tol < Qcabs l)%q →
  is_ok (foldM (fun '(daft, delta_x) d =>
                  '(daft, delta) ← idft_check_axis real tol daft d;
                  Ok (daft, delta_x ++ [delta])) dims (daft, delta_x)) = false.
Proof.
  intros Hd. revert daft delta_x.
  induction dims as [|x dims IH]; intros daft delta_x Hc Hl Hlt.
  { by apply not_elem_of_nil in Hd. }
  rewrite foldM_cons.
  destruct (decide (x = d)) as [->|Hne].
  - pose proof (idft_check_axis_rejects real tol daft d c l Hc Hl Hlt) as Hr.
    destruct (idft_check_axis real tol daft d); [done|done].
  - destruct (idft_check_axis real tol daft x) as [[daft' delta]|] eqn:E; [|done].
    mstep. apply IH; [set_solver| |done..].
    by rewrite (idft_check_axis_coords _ _ _ _ _ _ _ E Hne).
Qed.

Lemma real_last_labels (da r : DataArray elt) real :
  real_last da real = Ok r → da_coords r = da_coords da.
Proof.
  unfold real_last. destruct real; [|by intros [= ->]].
  intros H. by apply xr_transpose_dims in H as [_ ->].
Qed.

(** C6 (as amended).  For a transformed dimension [d] with coordinate [c],
    the inverse transform compares with [spacing_tol] the lag [l] given by
    [idft_lag]: the midpoint of the coordinate (of the sorted coordinate when
    the given order is not evenly spaced), except that for the real
    dimension in evenly spaced order it is the first coordinate value.
    The turn of the loop for [d] raises the uncentered-spectrum error
    exactly when [|l| > spacing_tol], and then the whole call raises,
    before any kernel is called. *)
Theorem idft_rejects_uncentred_axis (daft : DataArray elt) tol dim real shift
    detrend tp ta window cts prefix lag dims d c l :
  resolve_dim daft dim real = Ok dims →
  d ∈ dims → d ∈ da_dims daft →
  da_coords daft !! d = Some c →
  idft_lag real tol d c = Some l →
  (idft_check_axis real tol daft d = Raise (NotCentered d) ↔ (tol < Qcabs l)%q) ∧
  ((tol < Qcabs l)%q →
   is_ok (idft daft tol dim real shift detrend tp ta window cts prefix lag) = false) ∧
  (allclose (np_diff (cvalues c)) (np_diff (cvalues c) !!! 0%nat) tol = true →
   Some l = if bool_decide (Some d = real) then cvalues c !! 0%nat
            else cvalues c !! (length (cvalues c) / 2)%nat) ∧
  (allclose (np_diff (cvalues c)) (np_diff (cvalues c) !!! 0%nat) tol = false →
   Some l = cvalues (sort_coord c) !! (length (cvalues c) / 2)%nat).
Proof.
  intros Hdim Hd Hdd Hc Hl. split; [|split; [|split]].
  - by apply (idft_check_axis_not_centred real tol daft d c l).
  - intros Hlt. unfold idft. rewrite Hdim. mstep.
    set (lag' := match lag with LagNone => None | LagFloat l0 => Some [l0]
                           | LagList ls => Some ls end).
    destruct (match lag' with Some ls => _ | None => _ end) as [daft1|] eqn:E1; [|done].
    mstep.
    assert (da_dims daft1 = da_dims daft ∧ da_coords daft1 = da_coords daft) as [Hd1 Hc1].
    { destruct lag'; [|by injection E1 as <-].
      destruct (negb _); [done|]. by apply idft_phase_labels in E1. }
    destruct (if cts then _ else _) as [daft2|] eqn:E2; [|done]. mstep.
    assert (da_coords daft2 = da_coords daft) as Hc2.
    { destruct cts; [|by injection E2 as <-].
      unfold _stack_chunks in E2. rewrite bool_decide_eq_true_2 in E2; [done|].
      rewrite Hd1. apply Exists_exists. eauto. }
    destruct (real_last daft2 real) as [daft3|] eqn:E3; [|done]. mstep.
    apply real_last_labels in E3.
    destruct (mapR _ _); [|done]. mstep.
    pose proof (idft_check_axes_rejects real tol dims daft3 [] d c l Hd) as Hr.
    unfold idft_check_axes.
    destruct (foldM _ _ _); [|done].
    discriminate Hr; [by rewrite E3, Hc2|done..].
  - intros Ha. unfold idft_lag in Hl.
    destruct (np_diff (cvalues c) !! 0%nat) as [d0|] eqn:Ed0; [|done].
    cbn [mbind option_bind] in Hl.
    rewrite (list_lookup_total_correct _ _ _ Ed0) in Ha. by rewrite Ha in Hl.
  - intros Ha. unfold idft_lag in Hl.
    destruct (np_diff (cvalues c) !! 0%nat) as [d0|] eqn:Ed0; [|done].
    cbn [mbind option_bind] in Hl.
    rewrite (list_lookup_total_correct _ _ _ Ed0) in Ha. rewrite Ha in Hl.
    destruct (np_diff (cvalues (sort_coord c)) !! 0%nat) as [s0|]; [|done].
    cbn [mbind option_bind] in Hl. destruct (allclose _ s0 tol); [|done].
    by rewrite sort_coord_length in Hl.
Qed.

End Centring.

Lemma idft_rejects_uncentred_axis_witness :
  idft_check_axis (B := Gauss.backend) None Examples.tol3 Examples.off_centre "x"
    = Raise (NotCentered "x") ∧
  is_ok (Examples.idft_default Examples.off_centre LagNone) = false.
Proof.
  destruct (idft_rejects_uncentred_axis (B := Gauss.backend) Examples.off_centre
              Examples.tol3 DimNone None true PyNone true true false false
              "freq_" LagNone ["x"] "x"
              (MkCoord (qz <$> [1; 2; 3; 4]%Z) None) (qz 3))
    as (H1 & H2 & _).
  - reflexivity.
  - by apply (bool_decide_unpack _).
  - by apply (bool_decide_unpack _).
  - reflexivity.
  - by vm_compute.
  - split; [apply H1|apply H2]; by apply (bool_decide_unpack _).
Defined.

(** C6 as stated fails: the three bins 0, 1/4, 1/2 of a real transform
    have the midpoint lag 1/4, above the tolerance 1e-3, and [idft] along
    that real dimension returns a result. *)
Lemma idft_real_axis_ignores_midpoint_lag :
  ∃ c lag r,
    da_getitem (B := Gauss.backend) Examples.half_spectrum "freq_x" = Ok c ∧
    _lag_coord c = Ok lag ∧ (Examples.tol3 < Qcabs lag)%q ∧
    idft (B := Gauss.backend) Examples.half_spectrum Examples.tol3 DimNone
         (Some "freq_x") true PyNone true true false false "freq_" LagNone = Ok r.
Proof.
  destruct (is_ok_Ok (idft (B := Gauss.backend) Examples.half_spectrum
                           Examples.tol3 DimNone (Some "freq_x") true PyNone
                           true true false false "freq_" LagNone))
    as [r H]; [by vm_compute|].
  exists (MkCoord [qfrac 0 1; qfrac 1 4; qfrac 1 2] None), (qfrac 1 4), r.
  split; [reflexivity|]. split; [by apply (bool_decide_unpack _)|].
  split; [by apply (bool_decide_unpack _)|done].
Qed.
(** ** Arithmetic of the rationals *)

(** Turn a goal on [Qc] into one on [Q]. *)
Ltac qc_to_q :=
  unfold Qcle, Qclt, Qcminus in *;
  unfold Qcplus, Qcopp, Qcmult, Q2Qc in *;
  cbn [this] in *;
  repeat (rewrite Qred_correct in * ).

Lemma qn_pos n : (0 < n)%nat → (0 < qn n)%q.
Proof.
  intros H. unfold qn, Qc_of_Z, Qclt. cbn [this]. unfold Qlt. simpl. lia.
Qed.


Lemma qn_le i j : (i ≤ j)%nat → (qn i <= qn j)%q.
Proof.
  intros H. unfold qn, Qc_of_Z, Qcle. cbn [this]. unfold Qle. simpl. lia.
Qed.

Lemma qn_nonzero n : (0 < n)%nat → qn n ≠ 0%q.
Proof. intros H E. pose proof (qn_pos n H) as Hp. rewrite E in Hp. by apply Qclt_not_eq in Hp. Qed.

Lemma Qcdiv_pos (a b : Qc) : (0 < a)%q → (0 < b)%q → (0 < a / b)%q.
Proof.
  intros Ha Hb. unfold Qcdiv. apply Qcmult_pos_pos; [done|]. by apply Qcinv_pos.
Qed.


Lemma qltb_spec x y : qltb x y = true ↔ (x < y)%q.
Proof. apply bool_decide_eq_true. Qed.


(** ** Minimum and maximum of a vector *)







(** ** Bins *)













Section Isotropic.
Context `{B : Backend}.



End Isotropic.

(** ** Arrays as functions of the multi-index *)

Lemma indices_length s : length (indices s) = size s.
Proof.
  induction s as [|n s IH]; [done|].
  assert (∀ l : list nat,
    length (l ≫= fun k => cons k <$> indices s) = (length l * size s)%nat) as H.
  { induction l as [|k l IHl]; [done|].
    cbn [mbind list_bind] in *. rewrite length_app, length_fmap, IHl, IH.
    simpl. lia. }
  cbn [indices]. rewrite H, length_seq. done.
Qed.

(** In a concatenation of blocks of the same length [m], entry
    [k * m + q] is entry [q] of block [k]. *)
Lemma lookup_bind_blocks {A C} (f : A → list C) (l : list A) m k q x :
  (∀ y, y ∈ l → length (f y) = m) → l !! k = Some x → (q < m)%nat →
  (l ≫= f) !! (k * m + q)%nat = f x !! q.
Proof.
  revert k. induction l as [|y l IH]; intros k Hlen Hk Hq; [done|].
  cbn [mbind list_bind]. destruct k as [|k]; simpl in Hk.
  - injection Hk as ->. simpl. rewrite lookup_app_l; [done|].
    rewrite Hlen; [done|by left].
  - rewrite lookup_app_r; rewrite Hlen by (by left); [|simpl; lia].
    replace (S k * m + q - m)%nat with (k * m + q)%nat by (simpl; lia).
    apply IH; [|done..]. intros z Hz. apply Hlen. by right.
Qed.

Lemma ravel_lt s i : valid_index s i → (ravel s i < size s)%nat.
Proof.
  unfold valid_index. revert i. induction s as [|n s IH]; intros i H.
  - apply Forall2_nil_inv_r in H as ->. simpl. lia.
  - apply Forall2_cons_inv_r in H as (k & i' & Hk & Hi' & ->). simpl.
    specialize (IH i' Hi'). change (foldr Nat.mul 1%nat s) with (size s). nia.
Qed.

Lemma indices_lookup_ravel s i : valid_index s i → indices s !! ravel s i = Some i.
Proof.
  unfold valid_index. revert i. induction s as [|n s IH]; intros i H.
  - by apply Forall2_nil_inv_r in H as ->.
  - apply Forall2_cons_inv_r in H as (k & i' & Hk & Hi' & ->).
    cbn [indices ravel].
    rewrite (lookup_bind_blocks _ _ (size s) k (ravel s i') k).
    + by rewrite list_lookup_fmap, (IH i' Hi').
    + intros y _. by rewrite length_fmap, indices_length.
    + by apply lookup_seq_lt.
    + by apply ravel_lt.
Qed.

Lemma indices_lookup_inv s p i : indices s !! p = Some i → ravel s i = p.
Proof.
  revert p i. induction s as [|n s IH]; intros p i H.
  - destruct p; simpl in H; [by injection H as <-|done].
  - pose proof (lookup_lt_Some _ _ _ H) as Hp. rewrite indices_length in Hp.
    simpl in Hp. change (foldr Nat.mul 1%nat s) with (size s) in Hp.
    assert (0 < size s)%nat as Hs by (destruct (size s); lia).
    assert (p = (p / size s) * size s + p mod size s)%nat as Ep.
    { rewrite Nat.mul_comm. apply Nat.div_mod_eq. }
    assert (p / size s < n)%nat as Hk by (apply Nat.Div0.div_lt_upper_bound; lia).
    assert (p mod size s < size s)%nat as Hq by (apply Nat.mod_upper_bound; lia).
    rewrite Ep in H. cbn [indices] in H.
    rewrite (lookup_bind_blocks _ _ (size s) (p / size s) (p mod size s) (p / size s))
      in H; [| |by apply lookup_seq_lt|done].
    2:{ intros y _. by rewrite length_fmap, indices_length. }
    rewrite list_lookup_fmap in H.
    destruct (indices s !! (p mod size s)) as [i'|] eqn:E; [|done].
    injection H as <-. cbn [ravel]. rewrite (IH _ _ E). lia.
Qed.

Section ArrayFacts.
Context {A : Type} `{!Inhabited A}.
Implicit Types (a : ndarray A) (f g : list nat → A).

Lemma of_fun_shape s f : shape (of_fun s f) = s.
Proof. done. Qed.

Lemma of_fun_wf s f : wf_array (of_fun s f).
Proof. unfold wf_array, of_fun. simpl. by rewrite length_fmap, indices_length. Qed.

Lemma item_of_fun s f i : valid_index s i → item (of_fun s f) i = f i.
Proof.
  intros H. unfold item, of_fun. simpl.
  apply list_lookup_total_correct.
  by rewrite list_lookup_fmap, (indices_lookup_ravel s i H).
Qed.

Lemma of_fun_ext s f g :
  (∀ i, valid_index s i → f i = g i) → of_fun s f = of_fun s g.
Proof.
  intros H. unfold of_fun. f_equal. apply list_fmap_ext.
  intros p i Hi. apply H. apply elem_of_indices. by eapply list_elem_of_lookup_2.
Qed.

Lemma of_fun_item a : wf_array a → of_fun (shape a) (item a) = a.
Proof.
  intros Hwf. destruct a as [s l]. unfold of_fun, wf_array in *. simpl in *.
  f_equal. apply list_eq. intros p. rewrite list_lookup_fmap.
  destruct (indices s !! p) as [i|] eqn:E; simpl.
  - pose proof (lookup_lt_Some _ _ _ E) as Hp. rewrite indices_length, <- Hwf in Hp.
    apply indices_lookup_inv in E. unfold item. simpl. rewrite E.
    destruct (lookup_lt_is_Some_2 l p Hp) as [x Hx].
    by rewrite (list_lookup_total_correct _ _ _ Hx).
  - apply lookup_ge_None in E. rewrite indices_length, <- Hwf in E.
    symmetry. by apply lookup_ge_None.
Qed.

Lemma nd_map_of_fun (h : A → A) s f :
  nd_map h (of_fun s f) = of_fun s (fun i => h (f i)).
Proof. unfold nd_map, of_fun. simpl. by rewrite <- list_fmap_compose. Qed.

Lemma nd_map_item (h : A → A) a :
  wf_array a → nd_map h a = of_fun (shape a) (fun i => h (item a i)).
Proof. intros H. rewrite <- (of_fun_item a H) at 1. apply nd_map_of_fun. Qed.

Lemma nd_map_wf (h : A → A) a : wf_array a → wf_array (nd_map h a).
Proof. unfold wf_array, nd_map. simpl. by rewrite length_fmap. Qed.

Lemma nd_map_compose (h1 h2 : A → A) a :
  nd_map h1 (nd_map h2 a) = nd_map (fun x => h1 (h2 x)) a.
Proof. unfold nd_map. simpl. by rewrite <- list_fmap_compose. Qed.

Lemma nd_map_id (h : A → A) a : (∀ x, h x = x) → nd_map h a = a.
Proof.
  intros H. destruct a as [s l]. unfold nd_map. simpl. f_equal.
  rewrite <- (list_fmap_id l) at 2. by apply list_fmap_ext.
Qed.

End ArrayFacts.
(** ** Rolling an array along its axes *)

Section Rolls.
Context {A : Type} `{!Inhabited A}.
Implicit Types (a : ndarray A).

Lemma item_nd_map (h : A → A) a i :
  wf_array a → valid_index (shape a) i → item (nd_map h a) i = h (item a i).
Proof.
  intros Hwf Hi. unfold item, nd_map. simpl.
  apply list_lookup_total_fmap. rewrite Hwf. by apply ravel_lt.
Qed.

Lemma roll_index_lookup s t i p :
  roll_index s t i !! p =
    n ← s !! p; ip ← i !! p;
    Some (Z.to_nat ((Z.of_nat ip - t p) `mod` Z.of_nat n)).
Proof.
  unfold roll_index. rewrite list_lookup_imap, lookup_zip_with.
  destruct (s !! p) as [n|]; simpl; [|done]. by destruct (i !! p).
Qed.

Lemma valid_index_lookup s i :
  valid_index s i ↔
  length i = length s ∧ ∀ p n ip, s !! p = Some n → i !! p = Some ip → (ip < n)%nat.
Proof.
  unfold valid_index. rewrite Forall2_lookup. split.
  - intros H. split.
    + apply Nat.le_antisymm; apply Nat.nlt_ge; intros Hlt.
      * destruct (lookup_lt_is_Some_2 i (length s)) as [x Hx]; [lia|].
        specialize (H (length s)). rewrite Hx in H.
        rewrite (proj2 (lookup_ge_None s (length s))) in H by lia. inversion H.
      * destruct (lookup_lt_is_Some_2 s (length i)) as [x Hx]; [lia|].
        specialize (H (length i)). rewrite Hx in H.
        rewrite (proj2 (lookup_ge_None i (length i))) in H by lia. inversion H.
    + intros p n ip Hs Hi. specialize (H p). rewrite Hs, Hi in H. by inversion H.
  - intros [Hlen H] p.
    destruct (s !! p) as [n|] eqn:Es, (i !! p) as [ip|] eqn:Ei.
    + constructor. by eapply H.
    + apply lookup_lt_Some in Es. apply lookup_ge_None in Ei. lia.
    + apply lookup_lt_Some in Ei. apply lookup_ge_None in Es. lia.
    + constructor.
Qed.

Lemma roll_index_valid s t i : valid_index s i → valid_index s (roll_index s t i).
Proof.
  rewrite !valid_index_lookup. intros [Hlen H]. split.
  - unfold roll_index. rewrite length_imap, length_zip_with. lia.
  - intros p n jp Hs. rewrite roll_index_lookup, Hs. simpl.
    destruct (i !! p) as [ip|] eqn:Ei; simpl; [|done]. intros [= <-].
    specialize (H p n ip Hs Ei).
    pose proof (Z.mod_pos_bound (Z.of_nat ip - t p) (Z.of_nat n)). lia.
Qed.

Lemma roll_index_cancel s t t' i :
  valid_index s i → (∀ p, (t p + t' p = 0)%Z) →
  roll_index s t (roll_index s t' i) = i.
Proof.
  intros Hv Ht. pose proof Hv as [Hlen H]%valid_index_lookup.
  apply list_eq. intros p. rewrite roll_index_lookup.
  destruct (s !! p) as [n|] eqn:Es; simpl.
  - rewrite roll_index_lookup, Es. simpl.
    destruct (i !! p) as [ip|] eqn:Ei; simpl; [|done].
    specialize (H p n ip Es Ei). f_equal.
    rewrite Z2Nat.id by (apply Z.mod_pos_bound; lia).
    rewrite Zminus_mod_idemp_l.
    replace (Z.of_nat ip - t' p - t p)%Z with (Z.of_nat ip) by (specialize (Ht p); lia).
    rewrite Z.mod_small by lia. lia.
  - symmetry. apply lookup_ge_None. apply lookup_ge_None in Es. lia.
Qed.

Lemma np_roll_wf a sh ax : wf_array (np_roll a sh ax).
Proof. apply of_fun_wf. Qed.

Lemma item_np_roll a sh ax i :
  valid_index (shape a) i →
  item (np_roll a sh ax) i = item a (roll_index (shape a) (total_shift sh ax) i).
Proof. intros H. unfold np_roll. by rewrite item_of_fun. Qed.

Lemma np_roll_cancel a sh1 ax1 sh2 ax2 :
  wf_array a →
  (∀ p, (total_shift sh1 ax1 p + total_shift sh2 ax2 p = 0)%Z) →
  np_roll (np_roll a sh1 ax1) sh2 ax2 = a.
Proof.
  intros Hwf Ht. rewrite <- (of_fun_item a Hwf) at 2.
  unfold np_roll at 1. change (shape (np_roll a sh1 ax1)) with (shape a).
  apply of_fun_ext. intros i Hi.
  rewrite item_np_roll by (by apply roll_index_valid).
  by rewrite roll_index_cancel.
Qed.

Lemma total_shift_opp (f : nat → Z) axes p :
  (total_shift (f <$> axes) axes p
   + total_shift ((fun ax => - f ax) <$> axes) axes p = 0)%Z.
Proof.
  induction axes as [|ax axes IH]; [done|].
  rewrite !fmap_cons. cbn [total_shift]. case_bool_decide; lia.
Qed.

Lemma ifftshift_fftshift a axes : wf_array a → ifftshift (fftshift a axes) axes = a.
Proof.
  intros Hwf. unfold ifftshift, fftshift.
  change (shape (np_roll a _ axes)) with (shape a).
  apply np_roll_cancel; [done|]. intros p.
  apply (total_shift_opp (fun ax => Z.of_nat (shape a !!! ax / 2))).
Qed.

Lemma fftshift_ifftshift a axes : wf_array a → fftshift (ifftshift a axes) axes = a.
Proof.
  intros Hwf. unfold ifftshift, fftshift.
  change (shape (np_roll a _ axes)) with (shape a).
  apply np_roll_cancel; [done|]. intros p.
  pose proof (total_shift_opp (fun ax => Z.of_nat (shape a !!! ax / 2)) axes p). lia.
Qed.

Lemma nd_map_np_roll (h : A → A) a sh ax :
  wf_array a → nd_map h (np_roll a sh ax) = np_roll (nd_map h a) sh ax.
Proof.
  intros Hwf. unfold np_roll at 1. rewrite nd_map_of_fun. unfold np_roll.
  change (shape (nd_map h a)) with (shape a). apply of_fun_ext. intros i Hi.
  by rewrite item_nd_map by (by try apply roll_index_valid).
Qed.

Lemma nd_map_fftshift (h : A → A) a axes :
  wf_array a → nd_map h (fftshift a axes) = fftshift (nd_map h a) axes.
Proof. intros. unfold fftshift. by rewrite nd_map_np_roll. Qed.

Lemma nd_map_ifftshift (h : A → A) a axes :
  wf_array a → nd_map h (ifftshift a axes) = ifftshift (nd_map h a) axes.
Proof. intros. unfold ifftshift. by rewrite nd_map_np_roll. Qed.

Lemma fftshift_wf a axes : wf_array (fftshift a axes).
Proof. apply of_fun_wf. Qed.

Lemma ifftshift_wf a axes : wf_array (ifftshift a axes).
Proof. apply of_fun_wf. Qed.

End Rolls.
(** ** Evenly spaced coordinates and the frequencies of the kernels *)

Lemma qz_add a b : qz (a + b) = (qz a + qz b)%q.
Proof.
  apply Qc_is_canon. unfold qz, Qc_of_Z. qc_to_q.
  rewrite inject_Z_plus. reflexivity.
Qed.

Lemma qz_opp a : qz (- a) = (- qz a)%q.
Proof.
  apply Qc_is_canon. unfold qz, Qc_of_Z. qc_to_q.
  rewrite inject_Z_opp. reflexivity.
Qed.

Lemma qz_of_nat n : qz (Z.of_nat n) = qn n.
Proof. reflexivity. Qed.

Lemma qn_S n : qn (S n) = (qn n + 1)%q.
Proof.
  rewrite <- !qz_of_nat, Nat2Z.inj_succ. unfold Z.succ. by rewrite qz_add.
Qed.

Lemma qn_add a b : qn (a + b) = (qn a + qn b)%q.
Proof. rewrite <- !qz_of_nat, Nat2Z.inj_add. apply qz_add. Qed.

Lemma centred_grid_length n dx lag : length (centred_grid n dx lag) = n.
Proof. unfold centred_grid. by rewrite length_fmap, length_seq. Qed.

Lemma centred_grid_lookup n dx lag j :
  (j < n)%nat →
  centred_grid n dx lag !! j = Some (lag + (qn j - qn (n / 2)) * dx)%q.
Proof.
  intros H. unfold centred_grid. rewrite list_lookup_fmap, lookup_seq_lt by done.
  done.
Qed.

Lemma centred_grid_mid n dx lag :
  (0 < n)%nat → centred_grid n dx lag !! (n / 2)%nat = Some lag.
Proof.
  intros H. rewrite centred_grid_lookup by (apply Nat.Div0.div_lt_upper_bound; lia).
  f_equal. ring.
Qed.

Lemma np_diff_length l : length (np_diff l) = (length l - 1)%nat.
Proof. unfold np_diff. rewrite length_zip_with. destruct l; simpl; lia. Qed.

Lemma np_diff_lookup l j x y :
  l !! j = Some x → l !! S j = Some y → np_diff l !! j = Some (y - x)%q.
Proof.
  intros Hx Hy. unfold np_diff. rewrite lookup_zip_with, lookup_tail, Hy. simpl.
  by rewrite Hx.
Qed.

Lemma np_diff_centred n dx lag :
  np_diff (centred_grid n dx lag) = replicate (n - 1) dx.
Proof.
  apply list_eq. intros j.
  destruct (decide (j < n - 1)%nat) as [Hj|Hj].
  - rewrite lookup_replicate_2 by done.
    rewrite (np_diff_lookup _ j _ _ (centred_grid_lookup n dx lag j ltac:(lia))
               (centred_grid_lookup n dx lag (S j) ltac:(lia))).
    f_equal. rewrite qn_S. ring.
  - rewrite (proj2 (lookup_ge_None _ _)).
    + symmetry. apply lookup_replicate_None. lia.
    + rewrite np_diff_length, centred_grid_length. lia.
Qed.

Lemma allclose_atol_pos : (0 < allclose_atol)%q.
Proof. done. Qed.

Lemma Qcabs_0 : Qcabs 0%q = 0%q.
Proof. by apply Qc_is_canon. Qed.

Lemma allclose_replicate m dx tol :
  (0 <= tol)%q → allclose (replicate m dx) dx tol = true.
Proof.
  intros Htol. apply allclose_spec. apply Forall_replicate.
  replace (dx - dx)%q with 0%q by ring. rewrite Qcabs_0.
  replace 0%q with (0 + 0)%q by ring.
  apply Qcplus_le_compat; [apply Qclt_le_weak, allclose_atol_pos|].
  apply Qcmult_nonneg_nonneg; [done|apply Qcabs_nonneg].
Qed.
Lemma half_split n : (1 ≤ n)%nat → ((n - 1) / 2 + 1 + n / 2 = n)%nat.
Proof.
  intros H. pose proof (Nat.div_mod_eq n 2). pose proof (Nat.div_mod_eq (n - 1) 2).
  pose proof (Nat.mod_upper_bound n 2). pose proof (Nat.mod_upper_bound (n - 1) 2).
  destruct (Nat.Even_or_Odd n) as [[k Hk]|[k Hk]]; subst n.
  - replace (2 * k - 1)%nat with (1 + (k - 1) * 2)%nat by lia.
    rewrite Nat.div_add by lia. rewrite (Nat.mul_comm 2 k), Nat.div_mul by lia.
    simpl. lia.
  - replace (2 * k + 1 - 1)%nat with (k * 2)%nat by lia.
    rewrite Nat.div_mul by lia.
    replace (2 * k + 1)%nat with (1 + k * 2)%nat by lia.
    rewrite Nat.div_add by lia. simpl. lia.
Qed.

Lemma arange_from_length lo n : length (arange_from lo n) = n.
Proof. unfold arange_from. by rewrite length_map, length_seq. Qed.

Lemma arange_from_lookup lo n j :
  (j < n)%nat → arange_from lo n !! j = Some (qz (lo + Z.of_nat j)).
Proof.
  intros H. unfold arange_from.
  change (map ?f ?l) with (f <$> l).
  by rewrite list_lookup_fmap, lookup_seq_lt.
Qed.

Lemma fftfreq_length n d : (1 ≤ n)%nat → length (fftfreq n d) = n.
Proof.
  intros H. unfold fftfreq.
  rewrite length_map, length_app, !arange_from_length. by apply half_split.
Qed.

Lemma fftfreq_lookup_lo n d j :
  (j < (n - 1) / 2 + 1)%nat →
  fftfreq n d !! j = Some (qn j * (1 / (qn n * d)))%q.
Proof.
  intros H. unfold fftfreq. change (map ?f ?l) with (f <$> l).
  rewrite list_lookup_fmap, lookup_app_l by (by rewrite arange_from_length).
  by rewrite arange_from_lookup.
Qed.

Lemma fftfreq_lookup_hi n d j :
  (1 ≤ n)%nat → ((n - 1) / 2 + 1 ≤ j < n)%nat →
  fftfreq n d !! j = Some ((qn j - qn n) * (1 / (qn n * d)))%q.
Proof.
  intros Hn H. pose proof (half_split n Hn) as Hs.
  unfold fftfreq. change (map ?f ?l) with (f <$> l).
  rewrite list_lookup_fmap, lookup_app_r; rewrite arange_from_length; [|lia].
  rewrite arange_from_lookup by lia. cbn [fmap option_fmap option_map].
  do 2 f_equal.
  rewrite qz_add, qz_opp, !qz_of_nat.
  set (h := ((n - 1) / 2 + 1)%nat) in *.
  assert (qn j = qn h + qn (j - h))%q as -> by (rewrite <- qn_add; f_equal; lia).
  assert (qn n = qn h + qn (n / 2))%q as -> by (rewrite <- qn_add; f_equal; lia).
  ring.
Qed.

(** The shifted frequencies of [n] samples of spacing [d] are the grid of
    spacing [1 / (n d)] whose midpoint is zero. *)
Lemma fftshift1_fftfreq n d :
  (2 ≤ n)%nat → fftshift1 (fftfreq n d) = centred_grid n (1 / (qn n * d))%q 0%q.
Proof.
  intros Hn. pose proof (half_split n ltac:(lia)) as Hs.
  assert (0 < n / 2)%nat as Hhalf.
  { apply Nat.div_str_pos. lia. }
  unfold fftshift1, rotate. rewrite fftfreq_length by lia.
  replace (n - n / 2)%nat with ((n - 1) / 2 + 1)%nat by lia.
  rewrite Nat.mod_small by lia.
  apply list_eq. intros j.
  destruct (decide (j < n)%nat) as [Hj|Hj].
  - rewrite centred_grid_lookup by done.
    destruct (decide (j < n / 2)%nat) as [Hlo|Hhi].
    + rewrite lookup_app_l by (rewrite length_drop, fftfreq_length; lia).
      rewrite lookup_drop, fftfreq_lookup_hi by lia. f_equal.
      set (h := ((n - 1) / 2 + 1)%nat) in *.
      assert (qn n = qn h + qn (n / 2))%q as -> by (rewrite <- qn_add; f_equal; lia).
      rewrite qn_add. ring.
    + rewrite lookup_app_r; rewrite length_drop, fftfreq_length; try lia.
      rewrite lookup_take_lt by lia. rewrite fftfreq_lookup_lo by lia.
      f_equal.
      set (k := (j - (n - ((n - 1) / 2 + 1)))%nat).
      assert (qn j = qn k + qn (n / 2))%q as ->
        by (rewrite <- qn_add; f_equal; lia).
      ring.
  - rewrite !(proj2 (lookup_ge_None _ _)); [done| |].
    + rewrite centred_grid_length. lia.
    + rewrite length_app, length_drop, length_take, fftfreq_length; lia.
Qed.

Lemma spacing_pos n d : (1 ≤ n)%nat → (0 < d)%q → (0 < 1 / (qn n * d))%q.
Proof.
  intros Hn Hd. apply Qcdiv_pos; [done|].
  apply Qcmult_pos_pos; [apply qn_pos; lia|done].
Qed.

Lemma spacing_inverse n d :
  (1 ≤ n)%nat → (0 < d)%q → (1 / (qn n * (1 / (qn n * d))))%q = d.
Proof.
  intros Hn Hd. field. repeat split.
  - intros E. rewrite E in Hd. by apply Qclt_not_eq in Hd.
  - apply qn_nonzero. lia.
  - done.
Qed.

(** The output coordinate of [idft]: the shifted frequencies of the
    frequencies, moved by the lag. *)
Lemma ifreq_grid n dx l :
  (2 ≤ n)%nat → (0 < dx)%q →
  (fun x => (x + l)%q) <$> fftshift1 (fftfreq n (1 / (qn n * dx))%q)
  = centred_grid n dx l.
Proof.
  intros Hn Hdx. rewrite fftshift1_fftfreq, spacing_inverse by (done || lia).
  unfold centred_grid. rewrite <- list_fmap_compose. apply list_fmap_ext.
  intros j x _. simpl. ring.
Qed.
(** ** Loops over the axes *)

Lemma mapR_imap {A C} (f : A → result C) (g : nat → A → C) l :
  (∀ j x, l !! j = Some x → f x = Ok (g j x)) → mapR f l = Ok (imap g l).
Proof.
  revert g. induction l as [|x l IH]; intros g H; [done|].
  cbn [mapR imap]. rewrite (H 0%nat x eq_refl). mstep.
  rewrite (IH (g ∘ S)); [done|]. intros j y Hy. by apply (H (S j)).
Qed.

Lemma imap_seq_total {A} `{!Inhabited A} {X} (l : list X) (v : list A) :
  length v = length l → imap (fun j _ => v !!! j) l = v.
Proof.
  intros Hlen. apply list_eq. intros j. rewrite list_lookup_imap.
  destruct (l !! j) as [x|] eqn:E; simpl.
  - apply lookup_lt_Some in E. symmetry. apply list_lookup_lookup_total_lt. lia.
  - apply lookup_ge_None in E. symmetry. apply lookup_ge_None. lia.
Qed.

Lemma list_find_NoDup {A} `{EqDecision A} (l : list A) j x :
  NoDup l → l !! j = Some x → list_find (eq x) l = Some (j, x).
Proof.
  intros Hnd Hj. apply list_find_Some. split; [done|]. split; [done|].
  intros i y Hi Hlt ->. pose proof (NoDup_lookup _ _ _ _ Hnd Hi Hj). lia.
Qed.

Section Canonical.
Context `{B : Backend}.
Implicit Types (a : DataArray elt).

Lemma get_axis_num_NoDup a j d :
  NoDup (da_dims a) → da_dims a !! j = Some d → get_axis_num a d = Ok j.
Proof.
  intros Hnd Hj. unfold get_axis_num. by rewrite (list_find_NoDup _ j d Hnd Hj).
Qed.

Lemma axis_nums a :
  NoDup (da_dims a) →
  mapR (get_axis_num a) (da_dims a) = Ok (seq 0 (length (da_dims a))).
Proof.
  intros Hnd.
  rewrite (mapR_imap _ (fun j _ => j)) by (intros; by apply get_axis_num_NoDup).
  f_equal. apply list_eq. intros j. rewrite list_lookup_imap.
  destruct (da_dims a !! j) as [d|] eqn:E; simpl.
  - apply lookup_lt_Some in E. by rewrite lookup_seq_lt.
  - apply lookup_ge_None in E. symmetry. apply lookup_ge_None.
    by rewrite length_seq.
Qed.

Lemma shape_of_axes (s : list nat) :
  (fun n => s !!! n) <$> seq 0 (length s) = s.
Proof.
  apply list_eq. intros j. rewrite list_lookup_fmap.
  destruct (decide (j < length s)%nat) as [Hj|Hj].
  - rewrite lookup_seq_lt by done. simpl. symmetry.
    by apply list_lookup_lookup_total_lt.
  - rewrite (proj2 (lookup_ge_None _ _)) by (rewrite length_seq; lia).
    symmetry. apply lookup_ge_None. lia.
Qed.

Lemma on_grid_coord a dxs lags j d :
  on_grid a dxs lags → da_dims a !! j = Some d →
  ∃ c, da_coords a !! d = Some c ∧ da_getitem a d = Ok c ∧
       cvalues c = centred_grid (shape (da_data a) !!! j) (dxs !!! j) (lags !!! j).
Proof.
  intros (_ & _ & _ & _ & _ & H) Hj. destruct (H j d Hj) as (_ & _ & Hc).
  destruct (da_coords a !! d) as [c|] eqn:E; [|done].
  exists c. unfold da_getitem. rewrite E. injection Hc as Hc. done.
Qed.

Lemma dft_check_axis_grid a dxs lags tol j d :
  on_grid a dxs lags → (0 <= tol)%q → da_dims a !! j = Some d →
  dft_check_axis a tol d = Ok (dxs !!! j, lags !!! j).
Proof.
  intros Hg Htol Hj. destruct (on_grid_coord a dxs lags j d Hg Hj) as (c & _ & Hc & Hv).
  destruct Hg as (_ & _ & _ & _ & _ & H). destruct (H j d Hj) as (Hn & Hdx & _).
  set (n := shape (da_data a) !!! j) in *.
  unfold dft_check_axis. rewrite Hc. mstep.
  unfold _diff_coord, _lag_coord. rewrite Hv, centred_grid_length.
  rewrite (centred_grid_lookup n _ _ 0) by lia.
  rewrite centred_grid_mid by lia. cbn [or_raise]. mstep.
  rewrite np_diff_centred. rewrite lookup_replicate_2 by lia. cbn [or_raise]. mstep.
  rewrite allclose_replicate by done. cbn [negb].
  unfold qeqb. rewrite bool_decide_eq_false_2.
  - by rewrite Qcabs_pos by (by apply Qclt_le_weak).
  - intros E. apply Qcabs_null in E. rewrite E in Hdx. by apply Qclt_not_eq in Hdx.
Qed.

Lemma dft_checks a dxs lags tol :
  on_grid a dxs lags → (0 <= tol)%q →
  mapR (dft_check_axis a tol) (da_dims a) = Ok (zip dxs lags).
Proof.
  intros Hg Htol.
  rewrite (mapR_imap _ (fun j _ => (dxs !!! j, lags !!! j)))
    by (intros; by eapply dft_check_axis_grid).
  f_equal. destruct Hg as (_ & _ & _ & Hdx & Hlag & _).
  apply list_eq. intros j. rewrite list_lookup_imap, lookup_zip_with.
  destruct (da_dims a !! j) as [d|] eqn:E; simpl.
  - apply lookup_lt_Some in E.
    rewrite (list_lookup_lookup_total_lt dxs j) by lia.
    by rewrite (list_lookup_lookup_total_lt lags j) by lia.
  - apply lookup_ge_None in E.
    by rewrite (proj2 (lookup_ge_None dxs j)) by lia.
Qed.

End Canonical.
(** ** Dictionaries built in a loop *)

Lemma dict_set_fresh {V} (m : pydict V) k v :
  k ∉ m.*1 → dict_set m k v = m ++ [(k, v)].
Proof.
  induction m as [|[k' v'] m IH]; intros Hk; [done|].
  cbn [dict_set]. rewrite fmap_cons in Hk. apply not_elem_of_cons in Hk as [Hne Hk].
  rewrite bool_decide_eq_false_2 by (simpl in Hne; congruence).
  by rewrite IH.
Qed.

Lemma dict_fold_fresh {V} (m : pydict V) (kvs : list (string * V)) :
  NoDup (m.*1 ++ kvs.*1) →
  foldl (fun m kv => dict_set m kv.1 kv.2) m kvs = m ++ kvs.
Proof.
  revert m. induction kvs as [|[k v] kvs IH]; intros m Hnd.
  - by rewrite app_nil_r.
  - cbn [foldl fst snd]. rewrite fmap_cons in Hnd.
    apply NoDup_app in Hnd as (Hm & Hdis & Hkvs).
    apply NoDup_cons in Hkvs as [Hk Hkvs].
    rewrite dict_set_fresh by (intros Hin; apply (Hdis _ Hin); left).
    rewrite IH; [by rewrite <- app_assoc|].
    rewrite fmap_app. simpl. rewrite <- app_assoc. simpl.
    apply NoDup_app. split; [done|]. split; [|by apply NoDup_cons].
    intros x Hx. by apply Hdis.
Qed.

Lemma dict_of_zip_NoDup {V} (ks : list string) (vs : list V) :
  NoDup ks → dict_of_zip ks vs = zip ks vs.
Proof.
  intros Hnd. unfold dict_of_zip. rewrite dict_fold_fresh; [done|].
  simpl. revert vs. induction Hnd as [|k ks Hk Hnd IH]; intros [|v vs]; simpl;
    try apply NoDup_nil_2.
  apply NoDup_cons. split; [|apply IH].
  intros Hin. apply Hk. apply list_elem_of_fmap in Hin as ([k' v'] & -> & Hin).
  by apply elem_of_zip_l in Hin.
Qed.

Lemma dict_get_zip {V} (ks : list string) (vs : list V) j k v :
  NoDup ks → ks !! j = Some k → vs !! j = Some v →
  dict_get (zip ks vs) k = Some v.
Proof.
  intros Hnd. revert vs j. induction Hnd as [|k' ks Hk Hnd IH];
    intros [|v' vs] [|j] Hj Hv; try done; unfold dict_get; simpl in *.
  - injection Hj as ->. injection Hv as ->. by rewrite bool_decide_eq_true_2.
  - rewrite bool_decide_eq_false_2.
    + by apply (IH vs j).
    + intros ->. apply Hk. by eapply list_elem_of_lookup_2.
Qed.

Lemma dict_get_fmap_key {V} (f : string → V) (ks : list string) k :
  dict_get ((fun d => (d, f d)) <$> ks) k =
  if bool_decide (k ∈ ks) then Some (f k) else None.
Proof.
  unfold dict_get. induction ks as [|k' ks IH]; [done|].
  rewrite fmap_cons. cbn [find fst].
  destruct (decide (k' = k)) as [->|E].
  - rewrite !bool_decide_eq_true_2; [done|by left|done].
  - rewrite (bool_decide_eq_false_2 (k' = k)) by done. rewrite IH. apply (f_equal (fun b : bool => if b then _ else _)).
    apply bool_decide_ext. set_solver.
Qed.

Lemma zip3_replicate {X Y Z} (g : X → Y → Z) (N : list X) (ds : list Y) m :
  (length N ≤ m)%nat →
  zip3_with (fun f n d => f n d) (replicate m g) N ds = zip_with g N ds.
Proof.
  revert m ds. induction N as [|n N IH]; intros [|m] [|d ds] H; simpl in *;
    try done; try lia.
  rewrite IH by lia. done.
Qed.

Lemma fmap_zip_with_compose {X Y Z W} (h : Z → W) (g : X → Y → Z) l k :
  h <$> zip_with g l k = zip_with (fun x y => h (g x y)) l k.
Proof.
  revert k. induction l as [|x l IH]; intros [|y k]; simpl; [done..|].
  by rewrite IH.
Qed.

Lemma freq_shifted N dxs :
  _freq N dxs None true = zip_with (fun n d => fftshift1 (fftfreq n d)) N dxs.
Proof.
  unfold _freq. rewrite zip3_replicate by done.
  change (map ?f ?l) with (f <$> l). by rewrite fmap_zip_with_compose.
Qed.

Lemma ifreq_shifted N dxs :
  _ifreq N dxs None true = zip_with (fun n d => fftshift1 (fftfreq n d)) N dxs.
Proof.
  unfold _ifreq. rewrite zip3_replicate by done.
  change (map ?f ?l) with (f <$> l). by rewrite fmap_zip_with_compose.
Qed.

Section NewDims.
Context `{B : Backend}.

Lemma new_dims_fold (W : pydict (list Qc)) prefix l ks nc sw :
  length ks = length l → Forall (fun k => 2 ≤ length k)%nat ks →
  (∀ j d k, l !! j = Some d → ks !! j = Some k → dict_get W d = Some k) →
  NoDup (nc.*1 ++ (new_name prefix <$> l)) → NoDup (sw.*1 ++ l) →
  foldM (fun '(new_coords, swap_dims) d =>
           k ← or_raise (KeyError d) (dict_get W d);
           let name := new_name prefix d in
           k0 ← or_raise IndexError (k !! 0%nat);
           k1 ← or_raise IndexError (k !! 1%nat);
           let new_dim := MkCoord k (Some (k1 - k0)%q) in
           Ok (dict_set new_coords name new_dim, dict_set swap_dims d name))
        l (nc, sw) =
  Ok (nc ++ zip_with (fun d k => (new_name prefix d,
                        MkCoord k (Some (k !!! 1%nat - k !!! 0%nat)%q))) l ks,
      sw ++ ((fun d => (d, new_name prefix d)) <$> l)).
Proof.
  revert ks nc sw. induction l as [|d l IH]; intros [|k ks] nc sw Hlen Hks HW Hnc Hsw;
    try done.
  - unfold foldM. simpl. by rewrite !app_nil_r.
  - rewrite foldM_cons. rewrite (HW 0%nat d k eq_refl eq_refl). cbn [or_raise]. mstep.
    apply Forall_cons in Hks as [Hk Hks].
    destruct k as [|k0 [|k1 k]]; simpl in Hk; try lia.
    cbn [lookup list_lookup or_raise]. mstep.
    rewrite fmap_cons in Hnc.
    apply NoDup_app in Hnc as (Hnc1 & Hnc2 & Hnc3).
    apply NoDup_app in Hsw as (Hsw1 & Hsw2 & Hsw3).
    apply NoDup_cons in Hnc3 as [Hnc3 Hnc4]. apply NoDup_cons in Hsw3 as [Hsw3 Hsw4].
    rewrite (dict_set_fresh nc) by (intros Hin; eapply Hnc2; eauto; by left).
    rewrite (dict_set_fresh sw) by (intros Hin; eapply Hsw2; eauto; by left).
    rewrite (IH ks).
    + simpl. by rewrite <- !app_assoc.
    + simpl in Hlen. lia.
    + done.
    + intros j d' k' Hd' Hk'. by apply (HW (S j)).
    + rewrite fmap_app. simpl. rewrite <- app_assoc. simpl.
      apply NoDup_app. split; [done|]. split; [|by apply NoDup_cons].
      intros x Hx. apply Hnc2 in Hx. done.
    + rewrite fmap_app. simpl. rewrite <- app_assoc. simpl.
      apply NoDup_app. split; [done|]. split; [|by apply NoDup_cons].
      intros x Hx. apply Hsw2 in Hx. done.
Qed.

Lemma new_dims_and_coords_eval (a : DataArray elt) dim ks prefix :
  NoDup dim → NoDup (new_name prefix <$> dim) → length ks = length dim →
  Forall (fun k => 2 ≤ length k)%nat ks →
  _new_dims_and_coords a dim ks prefix =
  Ok (zip_with (fun d k => (new_name prefix d,
                            MkCoord k (Some (k !!! 1%nat - k !!! 0%nat)%q))) dim ks,
      (fun d => (d, new_name prefix d)) <$> dim).
Proof.
  intros Hnd Hnd' Hlen Hks. unfold _new_dims_and_coords.
  rewrite dict_of_zip_NoDup by done.
  rewrite (new_dims_fold _ prefix dim ks [] []); try done.
  intros j d k Hd Hk. by eapply dict_get_zip.
Qed.

End NewDims.
(** ** Coordinates of the relabelled array *)

Lemma foldM_eval {A X} (step : A → X → result A) (l : list X) (g : nat → A) :
  (∀ j x, l !! j = Some x → step (g j) x = Ok (g (S j))) →
  foldM step l (g 0%nat) = Ok (g (length l)).
Proof.
  intros H. induction l as [|x l IH] using rev_ind; [done|].
  rewrite foldM_snoc, IH.
  - mstep. rewrite length_app. simpl. rewrite Nat.add_1_r. apply H.
    by rewrite lookup_app_r, Nat.sub_diag by lia.
  - intros j y Hy. apply H. by apply lookup_app_l_Some.
Qed.

Lemma dict_get_lookup {V} (m : list (string * V)) j k v :
  NoDup m.*1 → m !! j = Some (k, v) → dict_get m k = Some v.
Proof.
  intros Hnd Hj. pose proof (dict_get_zip m.*1 m.*2 j k v Hnd) as H.
  rewrite zip_fst_snd in H. apply H; by rewrite list_lookup_fmap, Hj.
Qed.

Lemma dict_get_None {V} (m : pydict V) k : k ∉ m.*1 → dict_get m k = None.
Proof.
  unfold dict_get. induction m as [|[k' v'] m IH]; intros Hk; [done|].
  rewrite fmap_cons in Hk. apply not_elem_of_cons in Hk as [Hne Hk].
  cbn [find fst]. rewrite bool_decide_eq_false_2 by (simpl in Hne; congruence).
  by apply IH.
Qed.

Lemma foldl_insert_lookup {V} (m : gmap string V) (nc : pydict V) k :
  NoDup nc.*1 →
  foldl (fun m kv => <[kv.1 := kv.2]> m) m nc !! k =
  match dict_get nc k with Some c => Some c | None => m !! k end.
Proof.
  revert m. induction nc as [|[k' v'] nc IH]; intros m Hnd; [done|].
  rewrite fmap_cons in Hnd. apply NoDup_cons in Hnd as [Hk' Hnd].
  cbn [foldl]. rewrite IH by done. unfold dict_get at 2. cbn [find fst snd].
  destruct (decide (k' = k)) as [->|Hne].
  - rewrite bool_decide_eq_true_2 by done. simpl.
    by rewrite dict_get_None, lookup_insert_eq.
  - rewrite bool_decide_eq_false_2 by done. fold (dict_get nc k).
    destruct (dict_get nc k); [done|]. by rewrite lookup_insert_ne.
Qed.

Lemma foldl_delete_lookup {V} (m : gmap string V) (dim : list string) k :
  foldl (fun m d => delete d m) m dim !! k =
  if bool_decide (k ∈ dim) then None else m !! k.
Proof.
  revert m. induction dim as [|d dim IH]; intros m; [done|].
  cbn [foldl]. rewrite IH.
  destruct (decide (k = d)) as [->|Hne].
  - rewrite (bool_decide_eq_true_2 (d ∈ d :: dim)) by (by left).
    case_bool_decide; [done|]. by rewrite lookup_delete_eq.
  - rewrite lookup_delete_ne by done.
    apply (f_equal (fun b : bool => if b then _ else _)).
    apply bool_decide_ext. set_solver.
Qed.

Section Relabel.
Context `{B : Backend}.

Lemma relabel_lookup (da : DataArray elt) f dim nc sw k :
  NoDup nc.*1 →
  da_coords (relabel da f dim nc sw) !! k =
  if bool_decide (k ∈ dim) then None
  else match dict_get nc k with Some c => Some c | None => da_coords da !! k end.
Proof.
  intros Hnd. unfold relabel. cbn [da_coords].
  rewrite foldl_delete_lookup. case_bool_decide as Hk; [done|].
  rewrite foldl_insert_lookup by done. destruct (dict_get nc k); [done|].
  rewrite map_lookup_filter. destruct (da_coords da !! k) as [c|]; [|done].
  simpl. by rewrite option_guard_True.
Qed.

Lemma relabel_dims (da : DataArray elt) f dim nc (g : string → string) :
  da_dims (relabel da f dim nc ((fun d => (d, g d)) <$> dim)) =
  (fun d => if bool_decide (d ∈ dim) then g d else d) <$> da_dims da.
Proof.
  unfold relabel. cbn [da_dims]. apply list_fmap_ext. intros _ d _.
  rewrite dict_get_fmap_key. by case_bool_decide.
Qed.

Lemma xr_transpose_id (da : DataArray elt) :
  NoDup (da_dims da) → wf_array (da_data da) →
  length (shape (da_data da)) = length (da_dims da) →
  xr_transpose da (da_dims da) = Ok da.
Proof.
  intros Hnd Hwf Hlen. unfold xr_transpose.
  rewrite bool_decide_eq_true_2 by done. rewrite axis_nums by done. mstep.
  destruct da as [dims coords data]. simpl in *. do 2 f_equal.
  unfold np_transpose. rewrite <- Hlen, shape_of_axes.
  etransitivity; [|apply (of_fun_item data Hwf)].
  apply of_fun_ext. intros i Hi.
  f_equal. pose proof Hi as [Hli _]%valid_index_lookup.
  etransitivity; [|apply (shape_of_axes i)]. rewrite Hli.
  apply list_fmap_ext. intros j q Hq.
  apply list_elem_of_lookup_2 in Hq. apply elem_of_seq in Hq.
  rewrite (list_find_NoDup (seq 0 (length (shape data))) q q).
  - done.
  - apply NoDup_seq.
  - apply lookup_seq_lt. lia.
Qed.

End Relabel.
(** ** Phase factors *)

Lemma str_app_inj p a b : p +:+ a = p +:+ b → a = b.
Proof.
  induction p as [|c p IH]; [done|]. rewrite !str_app_cons. intros [=]. auto.
Qed.

Lemma mapR_lookups {A} (l : list A) e :
  mapR (fun i => or_raise e (l !! i)) (seq 0 (length l)) = Ok l.
Proof.
  induction l as [|x l IH] using rev_ind; [done|].
  rewrite length_app. simpl. rewrite Nat.add_1_r, seq_S. simpl.
  assert (∀ (f g : nat → result A) (k : list nat) x',
    mapR f (k ++ [x']) = (ys ← mapR f k; y ← f x'; Ok (ys ++ [y]))) as Happ.
  { intros f g k x'. induction k as [|i k IHk]; simpl.
    - by destruct (f x').
    - destruct (f i); [|done]. mstep. rewrite IHk.
      destruct (mapR f k); [|done]. mstep. by destruct (f x'). }
  rewrite Happ; [|exact (fun _ => Raise e)].
  rewrite (mapR_imap _ (fun j _ => default x (l !! j))).
  - mstep. rewrite lookup_app_r, Nat.sub_diag by lia. cbn [or_raise lookup list_lookup].
    mstep. do 2 f_equal. apply list_eq. intros j. rewrite list_lookup_imap.
    destruct (decide (j < length l)%nat) as [Hj|Hj].
    + rewrite lookup_seq_lt by done. simpl.
      destruct (lookup_lt_is_Some_2 l j Hj) as [y Hy]. by rewrite Hy.
    + rewrite (proj2 (lookup_ge_None (seq 0 (length l)) j))
        by (rewrite length_seq; lia).
      simpl. symmetry. apply lookup_ge_None. lia.
  - intros j i Hi. apply lookup_seq in Hi as [-> Hi]. simpl.
    destruct (lookup_lt_is_Some_2 l j Hi) as [y Hy].
    by rewrite lookup_app_l, Hy by done.
Qed.

Section PhaseFacts.
Context `{B : Backend} `{!ElementLaws B}.
Implicit Types (a : ndarray elt) (ws : list (nat * list elt)).

Lemma mul_vectors_snoc a ws ax w :
  mul_vectors a (ws ++ [(ax, w)]) = along c_mul (mul_vectors a ws) ax w.
Proof. unfold mul_vectors. by rewrite foldl_app. Qed.

Lemma mul_vectors_shape a ws : shape (mul_vectors a ws) = shape a.
Proof.
  induction ws as [|[ax w] ws IH] using rev_ind; [done|].
  by rewrite mul_vectors_snoc.
Qed.

Lemma mul_vectors_wf a ws : wf_array a → wf_array (mul_vectors a ws).
Proof.
  intros Hwf. induction ws as [|[ax w] ws IH] using rev_ind; [done|].
  rewrite mul_vectors_snoc. apply of_fun_wf.
Qed.

Lemma item_mul_vectors a ws i :
  valid_index (shape a) i →
  item (mul_vectors a ws) i =
  foldl c_mul (item a i) ((fun '(ax, w) => w !!! (i !!! ax)) <$> ws).
Proof.
  intros Hi. induction ws as [|[ax w] ws IH] using rev_ind; [done|].
  rewrite mul_vectors_snoc, fmap_app, foldl_app. simpl. rewrite <- IH.
  unfold along. rewrite item_of_fun; [done|]. by rewrite mul_vectors_shape.
Qed.

Lemma foldl_mul_swap (x z : elt) ys :
  c_mul (foldl c_mul x ys) z = foldl c_mul (c_mul x z) ys.
Proof.
  revert x. induction ys as [|y ys IH]; intros x; [done|]. simpl.
  rewrite IH. f_equal.
  by rewrite <- !c_mul_assoc, (c_mul_comm y z).
Qed.

(** Factors that cancel pairwise cancel across a scaling. *)
Lemma foldl_mul_cancel (s : Qc) (x : elt) ys zs :
  Forall2 (fun y z => c_mul z y = c_expi 0%q) ys zs →
  foldl c_mul (c_scale s (foldl c_mul x ys)) zs = c_scale s x.
Proof.
  intros H. revert x. induction H as [|y z ys zs Hyz _ IH]; intros x; [done|].
  simpl. rewrite c_mul_scale, foldl_mul_swap, <- c_mul_assoc.
  rewrite (c_mul_comm y z), Hyz, c_expi_zero. apply IH.
Qed.

Lemma foldl_mul_unit (x : elt) ys :
  Forall (fun y => y = c_expi 0%q) ys → foldl c_mul x ys = x.
Proof.
  intros H. revert x. induction H as [|y ys -> _ IH]; intros x; [done|].
  simpl. by rewrite c_expi_zero.
Qed.

End PhaseFacts.
(** ** The loops that multiply by the phases *)

Section PhaseLoops.
Context `{B : Backend}.

Lemma phase_loop {X} (daft : DataArray elt) (items : list X)
    (step : DataArray elt → X → result (DataArray elt)) axes vecs :
  length axes = length items → length vecs = length items →
  (∀ j x ax w b, items !! j = Some x → axes !! j = Some ax → vecs !! j = Some w →
     da_dims b = da_dims daft → da_coords b = da_coords daft →
     step b x = Ok (MkDataArray (da_dims b) (da_coords b)
                      (along c_mul (da_data b) ax w))) →
  foldM step items daft =
  Ok (MkDataArray (da_dims daft) (da_coords daft)
        (mul_vectors (da_data daft) (zip axes vecs))).
Proof.
  intros Hax Hvec Hstep.
  set (g := fun j => MkDataArray (da_dims daft) (da_coords daft)
                       (mul_vectors (da_data daft) (take j (zip axes vecs)))).
  assert (daft = g 0%nat) as E0 by (by destruct daft).
  rewrite E0 at 1. rewrite (foldM_eval step items g).
  - unfold g. rewrite take_ge; [done|]. rewrite length_zip_with. lia.
  - intros j x Hx.
    destruct (lookup_lt_is_Some_2 axes j) as [ax Hj1];
      [rewrite Hax; by eapply lookup_lt_Some|].
    destruct (lookup_lt_is_Some_2 vecs j) as [w Hj2];
      [rewrite Hvec; by eapply lookup_lt_Some|].
    rewrite (Hstep j x ax w (g j) Hx Hj1 Hj2 eq_refl eq_refl).
    unfold g. cbn [da_dims da_coords da_data]. do 2 f_equal.
    rewrite (take_S_r _ _ (ax, w)).
    + by rewrite mul_vectors_snoc.
    + by rewrite lookup_zip_with, Hj1, Hj2.
Qed.

Lemma coords_of_keys names (ks : list (list Qc)) :
  length ks = length names → (coords_of names ks).*1 = names.
Proof.
  intros H. unfold coords_of. apply fmap_zip_with_l; [done|lia].
Qed.

Lemma coords_of_lookup names (ks : list (list Qc)) j d k :
  names !! j = Some d → ks !! j = Some k →
  coords_of names ks !! j = Some (d, MkCoord k (Some (k !!! 1%nat - k !!! 0%nat)%q)).
Proof.
  intros Hd Hk. unfold coords_of, pydict. by rewrite lookup_zip_with, Hd, Hk.
Qed.

Lemma coords_of_get names (ks : list (list Qc)) j d k :
  NoDup names → length ks = length names →
  names !! j = Some d → ks !! j = Some k →
  dict_get (coords_of names ks) d
  = Some (MkCoord k (Some (k !!! 1%nat - k !!! 0%nat)%q)).
Proof.
  intros Hnd Hlen Hd Hk. apply (dict_get_lookup _ j).
  - by rewrite coords_of_keys.
  - by apply coords_of_lookup.
Qed.

Lemma dft_phase_eval (daft : DataArray elt) ks lags :
  NoDup (da_dims daft) → length ks = length (da_dims daft) →
  length lags = length (da_dims daft) →
  dft_phase daft (coords_of (da_dims daft) ks) (da_dims daft) lags =
  Ok (MkDataArray (da_dims daft) (da_coords daft)
        (mul_vectors (da_data daft)
           (zip (seq 0 (length (da_dims daft))) (fwd_vectors ks lags)))).
Proof.
  intros Hnd Hks Hlags. unfold dft_phase. apply phase_loop.
  - rewrite length_seq, length_zip_with. lia.
  - unfold fwd_vectors. rewrite !length_zip_with. lia.
  - intros j [d l] ax w b Hx Hax Hw Hd Hc.
    apply lookup_zip_with_Some in Hx as (d' & l' & [= <- <-] & Hd' & Hl').
    apply lookup_seq in Hax as [-> Hj]. simpl.
    unfold fwd_vectors in Hw.
    apply lookup_zip_with_Some in Hw as (k & l' & -> & Hk & Hl'').
    assert (l' = l) as -> by congruence.
    rewrite (coords_of_get _ _ j d k) by done. cbn [or_raise]. mstep.
    unfold mul_along. rewrite (get_axis_num_NoDup b j d) by (by rewrite Hd).
    done.
Qed.

End PhaseLoops.
(** ** The forward transform on a regular grid *)

Section Forward.
Context `{B : Backend}.

Lemma on_grid_freqs (a : DataArray elt) dxs lags :
  on_grid a dxs lags →
  zip_with (fun n d => fftshift1 (fftfreq n d)) (shape (da_data a)) dxs =
  imap (fun j _ => centred_grid (shape (da_data a) !!! j) (freq_spacing a dxs j) 0%q)
       (da_dims a).
Proof.
  intros (Hnd & Hwf & Hs & Hdx & Hlag & H). apply list_eq. intros j.
  rewrite lookup_zip_with, list_lookup_imap.
  destruct (da_dims a !! j) as [d|] eqn:E; simpl.
  - destruct (H j d E) as (Hn & _ & _). pose proof (lookup_lt_Some _ _ _ E) as Hj.
    rewrite (list_lookup_lookup_total_lt (shape (da_data a)) j) by lia. simpl.
    rewrite (list_lookup_lookup_total_lt dxs j) by lia. simpl.
    by rewrite fftshift1_fftfreq.
  - apply lookup_ge_None in E.
    by rewrite (proj2 (lookup_ge_None (shape (da_data a)) j)) by lia.
Qed.

Lemma dft_complex_eval (a : DataArray elt) dxs lags tol prefix (tp ta : bool) :
  on_grid a dxs lags → (0 <= tol)%q → NoDup (new_name prefix <$> da_dims a) →
  let axes := seq 0 (length (da_dims a)) in
  let F := fftshift (if tp then fftn (ifftshift (da_data a) axes) axes
                     else fftn (da_data a) axes) axes in
  let ks := zip_with (fun n d => fftshift1 (fftfreq n d)) (shape (da_data a)) dxs in
  let names := new_name prefix <$> da_dims a in
  shape F = shape (da_data a) →
  dft a tol DimNone None true PyNone false tp ta false prefix =
  Ok (MkDataArray names
        (da_coords (relabel a F (da_dims a) (coords_of names ks)
                      ((fun d => (d, new_name prefix d)) <$> da_dims a)))
        (let P := if tp then mul_vectors F (zip axes (fwd_vectors ks lags)) else F in
         if ta then nd_map (c_scale (np_prod dxs)) P else P)).
Proof.
  intros Hg Htol Hnames axes F ks names HF.
  pose proof Hg as (Hnd & Hwf & Hs & Hdx & Hlag & H).
  assert (length ks = length (da_dims a)) as Hks.
  { unfold ks. rewrite length_zip_with. lia. }
  unfold dft. cbn [resolve_dim real_last truthy]. mstep.
  rewrite axis_nums by done. mstep.
  rewrite (dft_checks a dxs lags tol) by done. mstep.
  rewrite fst_zip, snd_zip by lia.
  replace ((fun n => shape (da_data a) !!! n) <$> seq 0 (length (da_dims a)))
    with (shape (da_data a)) by (rewrite <- Hs; symmetry; apply shape_of_axes).
  rewrite freq_shifted.
  fold axes. fold F. fold ks.
  rewrite new_dims_and_coords_eval; try done.
  2:{ unfold ks. rewrite (on_grid_freqs a dxs lags Hg).
      apply Forall_forall. intros k Hk.
      apply list_elem_of_lookup in Hk as [j Hk]. rewrite list_lookup_imap in Hk.
      destruct (da_dims a !! j) as [d|] eqn:E; [|done]. injection Hk as <-.
      rewrite centred_grid_length. by destruct (H j d E). }
  mstep. cbn match.
  change (zip_with _ (da_dims a) ks) with
    (zip_with (fun d k => (new_name prefix d,
        MkCoord k (Some (k !!! 1%nat - k !!! 0%nat)%q))) (da_dims a) ks).
  replace (zip_with (fun d k => (new_name prefix d,
        MkCoord k (Some (k !!! 1%nat - k !!! 0%nat)%q))) (da_dims a) ks)
    with (coords_of names ks)
    by (unfold coords_of, names; by rewrite zip_with_fmap_l).
  set (sw := (fun d => (d, new_name prefix d)) <$> da_dims a).
  set (daft := relabel a F (da_dims a) (coords_of names ks) sw).
  assert (da_dims daft = names) as Hdims.
  { unfold daft, sw. rewrite relabel_dims. apply list_fmap_ext. intros j d Hd.
    rewrite bool_decide_eq_true_2; [done|]. by eapply list_elem_of_lookup_2. }
  assert (length names = length (da_dims a)) as Hln
    by (unfold names; by rewrite length_fmap).
  replace axes with (seq 0 (length (da_dims daft))) by (by rewrite Hdims, Hln).
  rewrite mapR_lookups. mstep.
  set (P := if tp then mul_vectors F (zip (seq 0 (length (da_dims daft)))
                                        (fwd_vectors ks lags)) else F).
  assert ((if tp then dft_phase daft (coords_of names ks) (da_dims daft) lags
           else Ok daft)
          = Ok (MkDataArray names (da_coords daft) P)) as ->.
  { unfold P. destruct tp.
    - rewrite <- Hdims at 1. rewrite dft_phase_eval; rewrite ?Hdims; try done; lia.
    - f_equal. transitivity (MkDataArray (da_dims daft) (da_coords daft) (da_data daft));
        [reflexivity|by rewrite Hdims]. }
  mstep.
  assert (wf_array P ∧ shape P = shape (da_data a)) as [HwfP HsP].
  { unfold P. destruct tp.
    - split; [apply mul_vectors_wf, fftshift_wf|by rewrite mul_vectors_shape].
    - split; [apply fftshift_wf|done]. }
  unfold restore_order.
  match goal with |- xr_transpose ?x ?o = _ => assert (o = da_dims x) as -> end.
  { destruct ta; cbn [da_scale da_dims]; rewrite <- Hdims; unfold daft;
      cbn [relabel da_dims]; done. }
  rewrite xr_transpose_id.
  - by destruct ta.
  - by destruct ta.
  - destruct ta; cbn [da_scale da_data]; [by apply nd_map_wf|done].
  - destruct ta; cbn [da_scale da_dims da_data nd_map shape]; rewrite HsP; lia.
Qed.

End Forward.
(** ** The inverse transform on a regular grid of frequencies *)

Section Inverse.
Context `{B : Backend}.

Lemma on_grid_data (b : DataArray elt) vs zs data :
  on_grid b vs zs → wf_array data → shape data = shape (da_data b) →
  on_grid (MkDataArray (da_dims b) (da_coords b) data) vs zs.
Proof.
  intros (Hnd & Hwf & Hs & Hdx & Hlag & H) Hwf' Hs'. unfold on_grid.
  cbn [da_dims da_coords da_data]. rewrite Hs'. done.
Qed.

Lemma idft_check_axis_grid (b : DataArray elt) vs zs tol j d :
  on_grid b vs zs → (0 <= tol)%q → da_dims b !! j = Some d → zs !!! j = 0%q →
  idft_check_axis None tol b d = Ok (b, vs !!! j).
Proof.
  intros Hg Htol Hj Hz. destruct (on_grid_coord b vs zs j d Hg Hj) as (c & _ & Hc & Hv).
  destruct Hg as (_ & _ & _ & _ & _ & H). destruct (H j d Hj) as (Hn & Hdx & _).
  set (n := shape (da_data b) !!! j) in *.
  unfold idft_check_axis. rewrite Hc. mstep.
  unfold _diff_coord, _lag_coord. rewrite Hv, centred_grid_length.
  rewrite (centred_grid_lookup n _ _ 0) by lia.
  rewrite centred_grid_mid by lia. cbn [or_raise]. mstep.
  rewrite np_diff_centred. rewrite lookup_replicate_2 by lia. cbn [or_raise]. mstep.
  rewrite bool_decide_eq_false_2 by done. cbn [negb]. mstep.
  rewrite allclose_replicate by done. cbn [negb]. mstep.
  rewrite Hz, Qcabs_0. unfold qltb, qeqb.
  rewrite bool_decide_eq_false_2 by (by apply Qcle_not_lt).
  rewrite bool_decide_eq_false_2.
  - by rewrite Qcabs_pos by (by apply Qclt_le_weak).
  - intros E. apply Qcabs_null in E. rewrite E in Hdx. by apply Qclt_not_eq in Hdx.
Qed.

Lemma idft_check_axes_grid (b : DataArray elt) vs zs tol :
  on_grid b vs zs → (0 <= tol)%q → Forall (eq 0%q) zs →
  idft_check_axes None tol b (da_dims b) = Ok (b, vs).
Proof.
  intros Hg Htol Hz. unfold idft_check_axes.
  pose proof Hg as (_ & _ & _ & Hdx & Hlag & _).
  change (b, @nil Qc) with ((fun j => (b, take j vs)) 0%nat).
  rewrite (foldM_eval _ (da_dims b) (fun j => (b, take j vs))).
  - by rewrite take_ge by lia.
  - intros j d Hd. cbn beta.
    rewrite (idft_check_axis_grid b vs zs tol j d) by
      (try done; pose proof (lookup_lt_Some _ _ _ Hd);
       destruct (lookup_lt_is_Some_2 zs j ltac:(lia)) as [z Hzj];
       rewrite (list_lookup_total_correct _ _ _ Hzj);
       symmetry; by eapply (proj1 (Forall_lookup _ _) Hz)).
    mstep. do 2 f_equal. pose proof (lookup_lt_Some _ _ _ Hd).
    symmetry. apply take_S_r. apply list_lookup_lookup_total_lt. lia.
Qed.

Lemma filter_all {A} (P : A → Prop) `{∀ x, Decision (P x)} (l : list A) :
  (∀ x, P x) → filter P l = l.
Proof.
  intros HP. induction l as [|x l IH]; [done|].
  rewrite filter_cons_True by done. by rewrite IH.
Qed.

End Inverse.
Section InverseLoops.
Context `{B : Backend}.

Lemma idft_phase_eval (b : DataArray elt) dim axes cs ls :
  NoDup (da_dims b) → length ls = length dim →
  Forall2 (fun d ax => da_dims b !! ax = Some d) dim axes →
  Forall2 (fun d k => ∃ c, da_coords b !! d = Some c ∧ cvalues c = k) dim cs →
  idft_phase b dim ls =
  Ok (MkDataArray (da_dims b) (da_coords b)
        (mul_vectors (da_data b) (zip axes (bwd_vectors cs ls)))).
Proof.
  intros Hnd Hls Hax Hcs. unfold idft_phase.
  pose proof (Forall2_length _ _ _ Hax) as Hlax.
  pose proof (Forall2_length _ _ _ Hcs) as Hlcs.
  apply phase_loop.
  - rewrite length_zip_with. lia.
  - unfold bwd_vectors. rewrite !length_zip_with. lia.
  - intros j [d l] ax w b' Hx Hj Hw Hd Hc.
    apply lookup_zip_with_Some in Hx as (d' & l' & [= <- <-] & Hd' & Hl').
    unfold bwd_vectors in Hw.
    apply lookup_zip_with_Some in Hw as (k & l' & -> & Hk & Hl'').
    assert (l' = l) as -> by congruence.
    destruct (Forall2_lookup_lr _ _ _ _ _ _ Hcs Hd' Hk) as (c & Hc1 & Hc2).
    pose proof (Forall2_lookup_lr _ _ _ _ _ _ Hax Hd' Hj) as Hdax.
    unfold da_getitem. rewrite Hc, Hc1. mstep.
    unfold mul_along. rewrite (get_axis_num_NoDup b' ax d) by (by rewrite Hd).
    mstep. by rewrite Hc2, Hc.
Qed.

Lemma shifted_coords_keys (nc : pydict Coord) ls :
  length ls = length nc → (shifted_coords nc ls).*1 = nc.*1.
Proof.
  intros Hlen. unfold shifted_coords. revert ls Hlen.
  induction nc as [|kv nc IH]; intros [|l ls] Hlen; simpl in *; try done.
  f_equal. apply IH. lia.
Qed.

Lemma shift_coords_eval (da : DataArray elt) (sw : pydict string) dim
    (nc : pydict Coord) ls :
  length ls = length dim → length nc = length dim → NoDup nc.*1 →
  (∀ j d kv, dim !! j = Some d → nc !! j = Some kv →
     dict_get sw d = Some kv.1 ∧ da_coords da !! kv.1 = Some kv.2) →
  shift_coords da sw dim ls =
  Ok (MkDataArray (da_dims da)
        (foldl (fun m kv => <[kv.1 := kv.2]> m) (da_coords da) (shifted_coords nc ls))
        (da_data da)).
Proof.
  intros Hls Hnc Hnd H. unfold shift_coords.
  set (g := fun j => MkDataArray (da_dims da)
     (foldl (fun m kv => <[kv.1 := kv.2]> m) (da_coords da)
            (take j (shifted_coords nc ls))) (da_data da)).
  assert (da = g 0%nat) as E0 by (by destruct da).
  rewrite E0 at 1. rewrite (foldM_eval _ _ g).
  - unfold g. rewrite take_ge; [done|].
    unfold shifted_coords. rewrite !length_zip_with. unfold pydict in *. lia.
  - intros j [d l] Hx.
    apply lookup_zip_with_Some in Hx as (d' & l' & [= <- <-] & Hd & Hl).
    destruct (lookup_lt_is_Some_2 nc j) as [kv Hkv];
      [unfold pydict in *; rewrite Hnc; by eapply lookup_lt_Some|].
    destruct (H j d kv Hd Hkv) as [Hsw Hc]. rewrite Hsw. cbn [or_raise]. mstep.
    assert (da_coords (g j) !! kv.1 = Some kv.2) as Hgc.
    { unfold g. cbn [da_coords]. rewrite foldl_insert_lookup.
      - rewrite dict_get_None; [done|]. intros Hin.
        apply list_elem_of_fmap in Hin as (kv' & Hk' & Hin).
        apply list_elem_of_lookup in Hin as [i Hi].
        apply lookup_take_Some in Hi as [Hi Hij].
        unfold shifted_coords in Hi.
        apply lookup_zip_with_Some in Hi as (kv0 & l0 & -> & Hkv0 & _).
        simpl in Hk'.
        assert (nc.*1 !! i = Some kv.1) as H1
          by (rewrite list_lookup_fmap; unfold pydict in *; by rewrite Hkv0, Hk').
        assert (nc.*1 !! j = Some kv.1) as H2
          by (rewrite list_lookup_fmap; unfold pydict in *; by rewrite Hkv).
        pose proof (NoDup_lookup _ _ _ _ Hnd H1 H2). lia.
      - rewrite fmap_take. eapply sublist_NoDup; [|apply sublist_take].
        rewrite shifted_coords_keys; [done|unfold pydict in *; lia]. }
    unfold da_getitem. rewrite Hgc. mstep. unfold g. cbn [da_dims da_coords da_data].
    do 2 f_equal.
    rewrite (take_S_r _ _ (kv.1, MkCoord ((fun x => (x + l)%q) <$> cvalues kv.2)
                                   (cspacing kv.2))).
    + by rewrite foldl_app.
    + unfold shifted_coords, pydict in *. by rewrite lookup_zip_with, Hkv, Hl.
Qed.

Lemma spacings_eval (da : DataArray elt) (names : list string) (qs : list Qc) :
  Forall2 (fun d q => ∃ c, da_coords da !! d = Some c ∧ cspacing c = Some q) names qs →
  mapR (spacing_of da) names = Ok qs.
Proof.
  intros H. induction H as [|d q names qs (c & Hc & Hq) _ IH]; [done|].
  assert (spacing_of da d = Ok q) as E.
  { unfold spacing_of, da_getitem. rewrite Hc. mstep. by rewrite Hq. }
  cbn [mapR]. rewrite E, IH. done.
Qed.

End InverseLoops.
Section InverseEval.
Context `{B : Backend}.

Lemma on_grid_coords (b : DataArray elt) vs zs :
  on_grid b vs zs →
  Forall2 (fun d k => ∃ c, da_coords b !! d = Some c ∧ cvalues c = k) (da_dims b)
    (imap (fun j _ => centred_grid (shape (da_data b) !!! j) (vs !!! j) (zs !!! j))
          (da_dims b)).
Proof.
  intros Hg. apply Forall2_same_length_lookup. split.
  - by rewrite length_imap.
  - intros j d k Hd Hk. rewrite list_lookup_imap, Hd in Hk. injection Hk as <-.
    destruct (on_grid_coord b vs zs j d Hg Hd) as (c & Hc & _ & Hv). eauto.
Qed.

Lemma relabel_new_lookup (b : DataArray elt) G dim names ks sw j name k :
  NoDup names → length ks = length names → (∀ d, d ∈ names → d ∉ dim) →
  names !! j = Some name → ks !! j = Some k →
  da_coords (relabel b G dim (coords_of names ks) sw) !! name
  = Some (MkCoord k (Some (k !!! 1%nat - k !!! 0%nat)%q)).
Proof.
  intros Hnd Hlen Hfresh Hn Hk.
  rewrite relabel_lookup by (by rewrite coords_of_keys).
  rewrite bool_decide_eq_false_2
    by (apply Hfresh; by eapply list_elem_of_lookup_2).
  by rewrite (coords_of_get names ks j name k).
Qed.

Lemma shifted_coords_get names ks ls j name k l :
  NoDup names → length ks = length names → length ls = length names →
  names !! j = Some name → ks !! j = Some k → ls !! j = Some l →
  dict_get (shifted_coords (coords_of names ks) ls) name
  = Some (MkCoord ((fun x => (x + l)%q) <$> k) (Some (k !!! 1%nat - k !!! 0%nat)%q)).
Proof.
  intros Hnd Hks Hls Hn Hk Hl. apply (dict_get_lookup _ j).
  - rewrite shifted_coords_keys, coords_of_keys; try done.
    unfold coords_of, pydict. rewrite length_zip_with. lia.
  - pose proof (coords_of_lookup names ks j name k Hn Hk) as Hco.
    unfold shifted_coords, pydict in *. by rewrite lookup_zip_with, Hco, Hl.
Qed.

Lemma idft_complex_eval (b : DataArray elt) vs zs tol prefix lag :
  on_grid b vs zs → Forall (eq 0%q) zs → (0 <= tol)%q →
  NoDup (new_name prefix <$> da_dims b) →
  (∀ d, d ∈ da_dims b → new_name prefix d ∉ da_dims b) →
  match lags_of lag with
  | Some ls => length ls = length (da_dims b)
  | None => True
  end →
  let axes := seq 0 (length (da_dims b)) in
  let cs := imap (fun j _ => centred_grid (shape (da_data b) !!! j) (vs !!! j) (zs !!! j))
                 (da_dims b) in
  let E := match lags_of lag with
           | Some ls => mul_vectors (da_data b) (zip axes (bwd_vectors cs ls))
           | None => da_data b
           end in
  let G := fftshift (ifftn (ifftshift E axes) axes) axes in
  let ks := zip_with (fun n d => fftshift1 (fftfreq n d)) (shape (da_data b)) vs in
  let names := new_name prefix <$> da_dims b in
  let nc := coords_of names ks in
  let R := relabel b G (da_dims b) nc ((fun d => (d, new_name prefix d)) <$> da_dims b) in
  shape G = shape (da_data b) →
  idft b tol DimNone None true PyNone true true false false prefix lag =
  Ok (MkDataArray names
        (match lags_of lag with
         | Some ls => foldl (fun m kv => <[kv.1 := kv.2]> m) (da_coords R)
                        (shifted_coords nc ls)
         | None => da_coords R
         end)
        (nd_map (c_scale (/ np_prod ((fun k => (k !!! 1%nat - k !!! 0%nat)%q) <$> ks))%q)
           G)).
Proof.
  intros Hg Hz Htol Hnames Hfresh Hlag axes cs E G ks names nc R HG.
  pose proof Hg as (Hnd & Hwf & Hs & Hdx & Hlg & H).
  assert (length ks = length (da_dims b)) as Hks.
  { unfold ks. rewrite length_zip_with. lia. }
  set (b1 := MkDataArray (da_dims b) (da_coords b) E).
  assert (wf_array E ∧ shape E = shape (da_data b)) as [HwfE HsE].
  { unfold E. destruct (lags_of lag); [|done].
    split; [by apply mul_vectors_wf|apply mul_vectors_shape]. }
  assert (on_grid b1 vs zs) as Hg1 by (by apply on_grid_data).
  unfold idft. cbn [resolve_dim]. mstep.
  change (match lag with
          | LagNone => None
          | LagFloat l => Some [l]
          | LagList ls => Some ls
          end) with (lags_of lag).
  assert (match lags_of lag with
          | Some ls =>
              if negb (bool_decide (length (da_dims b) = length ls))
              then Raise LagLengthMismatch
              else idft_phase b (da_dims b) ls
          | None => Ok b
          end = Ok b1) as ->.
  { unfold b1, E. destruct (lags_of lag) as [ls|].
    - rewrite bool_decide_eq_true_2 by done. cbn [negb].
      apply idft_phase_eval; try done.
      + apply Forall2_same_length_lookup. unfold axes.
        split; [by rewrite length_seq|].
        intros j d ax Hd Hax. apply lookup_seq in Hax as [-> _]. done.
      + by apply on_grid_coords.
    - by destruct b. }
  mstep. cbn [real_last truthy]. mstep.
  change (da_dims b) with (da_dims b1).
  rewrite axis_nums by done. mstep.
  rewrite (idft_check_axes_grid b1 vs zs tol) by done. mstep. cbn match.
  rewrite filter_all by done. rewrite axis_nums by done. mstep.
  change (da_data b1) with E. change (da_dims b1) with (da_dims b).
  fold axes. fold G.
  replace ((fun n => shape E !!! n) <$> axes) with (shape (da_data b))
    by (unfold axes; rewrite <- Hs, <- HsE; symmetry; apply shape_of_axes).
  rewrite ifreq_shifted. fold ks.
  rewrite new_dims_and_coords_eval; try done.
  2:{ unfold ks. rewrite (on_grid_freqs b vs zs Hg).
      apply Forall_forall. intros k Hk.
      apply list_elem_of_lookup in Hk as [j Hk]. rewrite list_lookup_imap in Hk.
      destruct (da_dims b !! j) as [d|] eqn:Ed; [|done]. injection Hk as <-.
      rewrite centred_grid_length. by destruct (H j d Ed). }
  mstep. cbn match.
  change (da_dims b1) with (da_dims b).
  replace (zip_with (fun d k => (new_name prefix d,
        MkCoord k (Some (k !!! 1%nat - k !!! 0%nat)%q))) (da_dims b) ks)
    with nc by (unfold nc, coords_of, names; by rewrite zip_with_fmap_l).
  set (sw := (fun d => (d, new_name prefix d)) <$> da_dims b).
  change (relabel b1 G (da_dims b) nc sw) with R.
  cbn [negb]. fold G. change (relabel b1 G (da_dims b) nc sw) with R.
  assert (length names = length (da_dims b)) as Hln
    by (unfold names; by rewrite length_fmap).
  assert (∀ d, d ∈ names → d ∉ da_dims b) as Hfresh'.
  { intros d Hd. apply list_elem_of_fmap in Hd as (d' & -> & Hd'). by apply Hfresh. }
  assert (da_dims R = names) as HdR.
  { unfold R, sw. rewrite relabel_dims. apply list_fmap_ext. intros j d Hd.
    rewrite bool_decide_eq_true_2; [done|]. by eapply list_elem_of_lookup_2. }
  set (coords' := match lags_of lag with
                  | Some ls => foldl (fun m kv => <[kv.1 := kv.2]> m) (da_coords R)
                                 (shifted_coords nc ls)
                  | None => da_coords R
                  end).
  assert (match lags_of lag with
          | Some ls => shift_coords R sw (da_dims b) ls
          | None => Ok R
          end = Ok (MkDataArray names coords' G)) as ->.
  { unfold coords'. destruct (lags_of lag) as [ls|].
    - rewrite (shift_coords_eval R sw (da_dims b) nc ls); try done.
      + by rewrite HdR.
      + unfold nc, coords_of, pydict. rewrite length_zip_with. lia.
      + unfold nc. rewrite coords_of_keys by lia. done.
      + intros j d kv Hd Hkv. unfold nc, coords_of, pydict in Hkv.
        apply lookup_zip_with_Some in Hkv as (name & k & -> & Hname & Hk).
        cbn [fst snd]. split.
        * unfold sw. rewrite dict_get_fmap_key.
          rewrite bool_decide_eq_true_2 by (by eapply list_elem_of_lookup_2).
          unfold names in Hname. rewrite list_lookup_fmap, Hd in Hname.
          by injection Hname as <-.
        * apply (relabel_new_lookup _ _ _ _ _ _ j); try done. lia.
    - f_equal. transitivity (MkDataArray (da_dims R) (da_coords R) (da_data R));
        [reflexivity|]. by rewrite HdR. }
  mstep.
  set (qs := (fun k => (k !!! 1%nat - k !!! 0%nat)%q) <$> ks).
  assert (dict_values sw = names) as ->.
  { unfold dict_values, sw, names. rewrite <- list_fmap_compose. done. }
  rewrite (spacings_eval _ names qs).
  2:{ apply Forall2_same_length_lookup. split.
      { unfold qs. rewrite length_fmap. lia. }
      intros j name q Hname Hq. unfold qs in Hq. rewrite list_lookup_fmap in Hq.
      destruct (ks !! j) as [k|] eqn:Hk; [|done]. injection Hq as <-.
      cbn [da_coords]. unfold coords'. destruct (lags_of lag) as [ls|].
      - destruct (lookup_lt_is_Some_2 ls j) as [l Hl].
        { rewrite Hlag, <- Hln. by eapply lookup_lt_Some. }
        rewrite foldl_insert_lookup.
        + unfold nc. rewrite (shifted_coords_get names ks ls j name k l); try done;
            try lia. eauto.
        + unfold nc. rewrite shifted_coords_keys, coords_of_keys; try done; try lia.
          unfold coords_of, pydict. rewrite length_zip_with. lia.
      - unfold R, nc. rewrite (relabel_new_lookup _ _ _ _ _ _ j name k); try done;
          try lia. eauto. }
  mstep. unfold restore_order.
  match goal with |- xr_transpose ?x ?o = _ => assert (o = da_dims x) as -> end.
  { cbn [da_scale da_dims]. unfold names, sw. apply list_fmap_ext. intros j d Hd.
    rewrite dict_get_fmap_key.
    rewrite bool_decide_eq_true_2; [done|]. by eapply list_elem_of_lookup_2. }
  rewrite xr_transpose_id.
  - reflexivity.
  - done.
  - cbn [da_scale da_dims da_data]. apply nd_map_wf, fftshift_wf.
  - cbn [da_scale da_dims da_data nd_map shape]. rewrite HG. lia.
Qed.

End InverseEval.
(** ** Cancellation of the phases *)

Section Cancel.
Context `{B : Backend} `{!ElementLaws B}.
Implicit Types (a F : ndarray elt).

Lemma array_ext a1 a2 :
  wf_array a1 → wf_array a2 → shape a1 = shape a2 →
  (∀ i, valid_index (shape a1) i → item a1 i = item a2 i) → a1 = a2.
Proof.
  intros H1 H2 Hs H. rewrite <- (of_fun_item a1 H1), <- (of_fun_item a2 H2), <- Hs.
  by apply of_fun_ext.
Qed.

Lemma phase_factor_lookup (ks : list (list Qc)) (lags : list Qc)
    (g : Qc → Qc → elt) (axes i : list nat) j y :
  ((fun '(ax, w) => w !!! (i !!! ax)) <$>
     zip axes (zip_with (fun k l => (fun x => g x l) <$> k) ks lags)) !! j = Some y →
  ∃ ax k l, axes !! j = Some ax ∧ ks !! j = Some k ∧ lags !! j = Some l ∧
            y = ((fun x => g x l) <$> k) !!! (i !!! ax).
Proof.
  rewrite list_lookup_fmap. intros Hy.
  destruct (zip axes _ !! j) as [[ax w]|] eqn:E; [|done]. injection Hy as <-.
  apply lookup_zip_with_Some in E as (ax' & w' & [= <- <-] & Hax & Hw).
  apply lookup_zip_with_Some in Hw as (k & l & -> & Hk & Hl).
  by exists ax, k, l.
Qed.

Lemma phases_cancel F c ks lags :
  wf_array F → length ks = length (shape F) → length lags = length (shape F) →
  Forall2 (fun k n => length k = n) ks (shape F) →
  let axes := seq 0 (length (shape F)) in
  mul_vectors (nd_map (c_scale c) (mul_vectors F (zip axes (fwd_vectors ks lags))))
              (zip axes (bwd_vectors ks lags))
  = nd_map (c_scale c) F.
Proof.
  intros Hwf Hks Hlags Hlen axes. apply array_ext.
  - by apply mul_vectors_wf, nd_map_wf, mul_vectors_wf.
  - by apply nd_map_wf.
  - rewrite mul_vectors_shape. cbn [nd_map shape]. by rewrite mul_vectors_shape.
  - intros i Hi. rewrite mul_vectors_shape in Hi. cbn [nd_map shape] in Hi.
    rewrite mul_vectors_shape in Hi.
    rewrite item_mul_vectors
      by (cbn [nd_map shape]; by rewrite mul_vectors_shape).
    rewrite item_nd_map
      by (try apply mul_vectors_wf; try rewrite mul_vectors_shape; done).
    rewrite item_mul_vectors by done.
    rewrite item_nd_map by done.
    apply foldl_mul_cancel. apply Forall2_same_length_lookup. split.
    + rewrite !length_fmap, !length_zip_with. unfold fwd_vectors, bwd_vectors.
      rewrite !length_zip_with. lia.
    + intros j y z Hy Hz.
      apply (phase_factor_lookup ks lags
               (fun x l => c_expi (- (x * l))%q)) in Hy
        as (ax & k & l & Hax & Hk & Hl & ->).
      apply (phase_factor_lookup ks lags
               (fun x l => c_expi (x * l)%q)) in Hz
        as (ax' & k' & l' & Hax' & Hk' & Hl' & ->).
      assert (ax' = ax) as -> by congruence.
      assert (k' = k) as -> by congruence.
      assert (l' = l) as -> by congruence.
      apply lookup_seq in Hax as [-> Hj]. simpl.
      pose proof Hi as [Hli Hi']%valid_index_lookup.
      destruct (lookup_lt_is_Some_2 (shape F) j Hj) as [n Hn].
      destruct (lookup_lt_is_Some_2 i j ltac:(lia)) as [ij Hij].
      specialize (Hi' j n ij Hn Hij).
      pose proof (Forall2_lookup_lr _ _ _ _ _ _ Hlen Hk Hn) as Hkn. simpl in Hkn.
      rewrite (list_lookup_total_correct _ _ _ Hij).
      destruct (lookup_lt_is_Some_2 k ij ltac:(lia)) as [x Hx].
      rewrite !(list_lookup_total_fmap _ k ij) by lia.
      rewrite c_mul_comm. apply c_expi_opp.
Qed.

Lemma phases_unit F ks lags :
  wf_array F → Forall (eq 0%q) lags →
  Forall2 (fun k n => length k = n) ks (shape F) →
  let axes := seq 0 (length (shape F)) in
  mul_vectors F (zip axes (fwd_vectors ks lags)) = F.
Proof.
  intros Hwf Hz Hlen axes. apply array_ext.
  - by apply mul_vectors_wf.
  - done.
  - apply mul_vectors_shape.
  - intros i Hi. rewrite mul_vectors_shape in Hi.
    rewrite item_mul_vectors by done. apply foldl_mul_unit.
    apply Forall_forall. intros y Hy.
    apply list_elem_of_lookup in Hy as [j Hy].
    apply (phase_factor_lookup ks lags
             (fun x l => c_expi (- (x * l))%q)) in Hy
      as (ax & k & l & Hax & Hk & Hl & ->).
    apply lookup_seq in Hax as [-> Hj]. simpl.
    pose proof Hi as [Hli Hi']%valid_index_lookup.
    destruct (lookup_lt_is_Some_2 (shape F) j Hj) as [n Hn].
    destruct (lookup_lt_is_Some_2 i j ltac:(lia)) as [ij Hij].
    specialize (Hi' j n ij Hn Hij).
    pose proof (Forall2_lookup_lr _ _ _ _ _ _ Hlen Hk Hn) as Hkn. simpl in Hkn.
    rewrite (list_lookup_total_correct _ _ _ Hij).
    rewrite (list_lookup_total_fmap _ k ij) by lia.
    pose proof (proj1 (Forall_lookup _ _) Hz _ _ Hl) as <-.
    f_equal. ring.
Qed.

Lemma np_prod_pos (qs : list Qc) : Forall (fun q => (0 < q)%q) qs → (0 < np_prod qs)%q.
Proof.
  induction 1 as [|q qs Hq _ IH]; [done|]. simpl. by apply Qcmult_pos_pos.
Qed.

Lemma scale_cancel F (c : Qc) :
  (0 < c)%q → nd_map (c_scale (/ c)%q) (nd_map (c_scale c) F) = F.
Proof.
  intros Hc. rewrite nd_map_compose. apply nd_map_id. intros x.
  rewrite c_scale_scale. rewrite Qcmult_comm, Qcmult_inv_r; [apply c_scale_one|].
  intros E. rewrite E in Hc. by apply Qclt_not_eq in Hc.
Qed.

End Cancel.
(** ** The round trip on the complex path *)

Section RoundTripComplex.
Context `{B : Backend} `{!ElementLaws B}.

Lemma fresh_names prefix (da : DataArray elt) :
  NoDup (da_dims da) → fresh_prefix prefix da →
  let names := new_name prefix <$> da_dims da in
  names = (String.append prefix) <$> da_dims da ∧ NoDup names ∧
  new_name prefix <$> names = da_dims da ∧
  (∀ d, d ∈ da_dims da → d ∉ names) ∧
  (∀ d, d ∈ da_dims da → new_name prefix d ∉ da_dims da).
Proof.
  intros Hnd Hf names.
  assert (names = (String.append prefix) <$> da_dims da) as E.
  { apply list_fmap_ext. intros j d Hd. apply new_name_fresh.
    apply Hf. by eapply list_elem_of_lookup_2. }
  assert (∀ d, d ∈ da_dims da → d ∉ names) as Hdis.
  { intros d Hd Hin. rewrite E in Hin.
    apply list_elem_of_fmap in Hin as (d' & -> & Hd').
    destruct (Hf _ Hd) as [Hs _].
    assert (starts_with prefix (prefix +:+ d') = true) as Hs'
      by (apply starts_with_spec; eauto).
    congruence. }
  split; [done|]. split; [|split; [|split; [done|]]].
  - rewrite E. apply NoDup_fmap_2_strong; [|done].
    intros x y _ _. apply str_app_inj.
  - rewrite E, <- list_fmap_compose.
    transitivity (id <$> da_dims da); [|apply list_fmap_id].
    apply list_fmap_ext. intros j d _. simpl.
    assert (starts_with prefix (prefix +:+ d) = true) as Hs
      by (apply starts_with_spec; eauto).
    destruct (new_name_prefixed _ _ Hs) as [-> _]. apply str_drop_app.
  - intros d Hd Hin. apply (Hdis _ Hin). unfold names.
    apply list_elem_of_fmap. eauto.
Qed.

Lemma centred_grid_step n dx lag :
  (2 ≤ n)%nat →
  (centred_grid n dx lag !!! 1%nat - centred_grid n dx lag !!! 0%nat)%q = dx.
Proof.
  intros Hn.
  rewrite (list_lookup_total_correct (centred_grid n dx lag) 1 _
             (centred_grid_lookup n dx lag 1 ltac:(lia))).
  rewrite (list_lookup_total_correct (centred_grid n dx lag) 0 _
             (centred_grid_lookup n dx lag 0 ltac:(lia))).
  rewrite qn_S. ring.
Qed.

(** The transform of an array on a regular grid is on the regular grid of
    the frequencies, whose midpoints are zero. *)
Lemma on_grid_transform (da : DataArray elt) dxs lags prefix F D sw :
  on_grid da dxs lags → fresh_prefix prefix da →
  wf_array D → shape D = shape (da_data da) →
  let names := new_name prefix <$> da_dims da in
  let ks := zip_with (fun n d => fftshift1 (fftfreq n d)) (shape (da_data da)) dxs in
  on_grid (MkDataArray names
             (da_coords (relabel da F (da_dims da) (coords_of names ks) sw)) D)
          (imap (fun j _ => freq_spacing da dxs j) (da_dims da))
          ((fun _ => 0%q) <$> da_dims da).
Proof.
  intros Hg Hf HwfD HsD names ks.
  pose proof Hg as (Hnd & Hwf & Hs & Hdx & Hlag & H).
  destruct (fresh_names prefix da Hnd Hf) as (En & Hnn & Hback & Hdis & Hdis').
  fold names in En, Hnn, Hback, Hdis.
  assert (length names = length (da_dims da)) as Hln
    by (unfold names; by rewrite length_fmap).
  unfold on_grid. cbn [da_dims da_coords da_data].
  rewrite HsD, length_imap, length_fmap.
  split; [done|]. split; [done|]. split; [lia|]. split; [lia|]. split; [lia|].
  intros j name Hname. pose proof Hname as Hname'.
  unfold names in Hname. rewrite list_lookup_fmap in Hname.
  destruct (da_dims da !! j) as [d|] eqn:Hd; [|done].
  destruct (H j d Hd) as (Hn & Hdxj & _).
  assert (imap (fun j _ => freq_spacing da dxs j) (da_dims da) !!! j
          = freq_spacing da dxs j) as ->.
  { apply list_lookup_total_correct. by rewrite list_lookup_imap, Hd. }
  assert (((fun _ => 0%q) <$> da_dims da) !!! j = 0%q) as ->.
  { apply list_lookup_total_correct. by rewrite list_lookup_fmap, Hd. }
  split; [done|]. split; [apply spacing_pos; [lia|done]|].
  rewrite (relabel_new_lookup _ _ _ _ _ _ j name
             (centred_grid (shape (da_data da) !!! j) (freq_spacing da dxs j) 0%q));
    try done.
  - unfold ks. rewrite length_zip_with. lia.
  - intros d' Hd' Hin. by apply (Hdis d').
  - unfold ks. rewrite (on_grid_freqs da dxs lags Hg).
    by rewrite list_lookup_imap, Hd.
Qed.

Lemma centred_grid_shift n dx l :
  (fun x => (x + l)%q) <$> centred_grid n dx 0%q = centred_grid n dx l.
Proof.
  unfold centred_grid. rewrite <- list_fmap_compose. apply list_fmap_ext.
  intros j x _. simpl. ring.
Qed.

(** X1.  On an array sampled on regular grids, [idft] undoes [dft] (both
    over all dimensions, with [true_phase] and [true_amplitude], no window
    and no detrending) when [idft] is given the midpoints [x[n // 2]] of the
    coordinates as [lag], or no lag when these midpoints are zero, and the
    inverse kernel undoes the forward kernel on the data: dimensions, data
    and coordinate values are those of the input. *)
Theorem idft_inverts_dft_on_grid (da : DataArray elt) dxs lags tol prefix lag :
  on_grid da dxs lags → fresh_prefix prefix da → (0 <= tol)%q →
  lags_given lag lags →
  (let axes := seq 0 (length (da_dims da)) in
   kernel_inverts fftn ifftn (ifftshift (da_data da) axes) axes (np_prod dxs)
     (shape (da_data da))) →
  ∃ daft r,
    dft da tol DimNone None true PyNone false true true false prefix = Ok daft ∧
    idft daft tol DimNone None true PyNone true true false false prefix lag = Ok r ∧
    da_dims r = da_dims da ∧ da_data r = da_data da ∧
    ∀ d, cvalues <$> da_coords r !! d = cvalues <$> da_coords da !! d.
Proof.
  intros Hg Hf Htol Hlag Hker.
  pose proof Hg as (Hnd & Hwf & Hs & Hdx & Hlg & H).
  destruct (fresh_names prefix da Hnd Hf) as (En & Hnn & Hback & Hdis & Hdis').
  set (names := new_name prefix <$> da_dims da) in *.
  set (axes := seq 0 (length (da_dims da))) in *.
  set (Y := ifftshift (da_data da) axes) in *.
  set (c := np_prod dxs) in *.
  destruct Hker as (HwfF0 & HsF0 & Hinv).
  set (F := fftshift (fftn Y axes) axes).
  set (ks := zip_with (fun n d => fftshift1 (fftfreq n d)) (shape (da_data da)) dxs).
  set (sw := (fun d => (d, new_name prefix d)) <$> da_dims da).
  set (C1 := da_coords (relabel da F (da_dims da) (coords_of names ks) sw)).
  set (D := nd_map (c_scale c) (mul_vectors F (zip axes (fwd_vectors ks lags)))).
  assert (length names = length (da_dims da)) as Hln
    by (unfold names; by rewrite length_fmap).
  assert (shape F = shape (da_data da)) as HsF by (unfold F; by cbn).
  assert (wf_array F) as HwfF by apply fftshift_wf.
  assert (dft da tol DimNone None true PyNone false true true false prefix
          = Ok (MkDataArray names C1 D)) as Hdft.
  { by apply (dft_complex_eval da dxs lags tol prefix true true). }
  exists (MkDataArray names C1 D). rewrite Hdft.
  set (vs := imap (fun j _ => freq_spacing da dxs j) (da_dims da)).
  set (zs := (fun _ : string => 0%q) <$> da_dims da).
  assert (wf_array D) as HwfD by (by apply nd_map_wf, mul_vectors_wf).
  assert (shape D = shape (da_data da)) as HsD.
  { unfold D. cbn [nd_map shape]. by rewrite mul_vectors_shape. }
  assert (on_grid (MkDataArray names C1 D) vs zs) as Hgf
    by (by apply (on_grid_transform da dxs lags)).
  assert (Forall2 (fun k n => length k = n) ks (shape F)) as Hkl.
  { rewrite HsF. unfold ks. rewrite (on_grid_freqs da dxs lags Hg).
    apply Forall2_same_length_lookup. split; [rewrite length_imap; lia|].
    intros j k n Hk Hn. rewrite list_lookup_imap in Hk.
    destruct (da_dims da !! j) as [d|]; [|done]. injection Hk as <-.
    rewrite centred_grid_length. by apply list_lookup_total_correct. }
  assert (axes = seq 0 (length (shape F))) as Eax
    by (unfold axes; by rewrite HsF, Hs).
  (* the array that enters the inverse kernel *)
  set (cs := imap (fun j _ => centred_grid (shape D !!! j) (vs !!! j) (zs !!! j)) names).
  assert (cs = ks) as Ecs.
  { unfold cs, ks. rewrite (on_grid_freqs da dxs lags Hg), HsD.
    apply list_eq. intros j. rewrite !list_lookup_imap.
    unfold names. rewrite list_lookup_fmap.
    destruct (da_dims da !! j) as [d|] eqn:Hd; [|done]. simpl. do 2 f_equal.
    - apply list_lookup_total_correct. unfold vs. by rewrite list_lookup_imap, Hd.
    - apply list_lookup_total_correct. unfold zs. by rewrite list_lookup_fmap, Hd. }
  set (E := match lags_of lag with
            | Some ls => mul_vectors D (zip (seq 0 (length names)) (bwd_vectors cs ls))
            | None => D
            end).
  assert (E = nd_map (c_scale c) F) as HE.
  { unfold E. rewrite Hln. fold axes. rewrite Ecs.
    destruct Hlag as [-> | [-> Hz]].
    - unfold D. rewrite Eax. apply phases_cancel; try done.
      + unfold ks. rewrite length_zip_with, HsF. lia.
      + rewrite HsF. lia.
    - unfold D. rewrite Eax. by rewrite phases_unit. }
  set (G := fftshift (ifftn (ifftshift E (seq 0 (length names))) (seq 0 (length names)))
                     (seq 0 (length names))).
  assert (G = nd_map (c_scale c) (da_data da)) as HG.
  { unfold G. rewrite Hln. fold axes. rewrite HE.
    rewrite <- nd_map_ifftshift by done. unfold F.
    rewrite ifftshift_fftshift by done. unfold Y. rewrite Hinv.
    rewrite <- nd_map_fftshift by apply ifftshift_wf.
    by rewrite fftshift_ifftshift. }
  pose proof (idft_complex_eval (MkDataArray names C1 D) vs zs tol prefix lag Hgf)
    as Hidft.
  cbn zeta in Hidft. cbn [da_dims da_coords da_data] in Hidft.
  fold cs E G in Hidft. rewrite Hback in Hidft.
  eexists. split; [done|]. split.
  { apply Hidft; try done.
    - unfold zs. apply Forall_fmap, Forall_forall. done.
    - intros d Hd Hin. apply (Hdis (new_name prefix d)); [|done].
      rewrite <- Hback. apply list_elem_of_fmap. eauto.
    - destruct Hlag as [-> | [-> _]]; [lia|done].
    - rewrite HG, HsD. done. }
  assert (∀ j d, da_dims da !! j = Some d →
            zip_with (fun n d => fftshift1 (fftfreq n d)) (shape D) vs !! j
            = Some (centred_grid (shape (da_data da) !!! j) (dxs !!! j) 0%q)) as Hks2.
  { intros j d Hd. pose proof (on_grid_freqs _ vs zs Hgf) as Hfq.
    cbn [da_dims da_data] in Hfq. rewrite Hfq, list_lookup_imap.
    unfold names. rewrite list_lookup_fmap, Hd. cbn [fmap option_fmap option_map].
    destruct (H j d Hd) as (Hn & Hdxj & _). rewrite HsD. do 2 f_equal.
    unfold freq_spacing. cbn [da_data]. rewrite HsD.
    assert (vs !!! j = freq_spacing da dxs j) as ->.
    { apply list_lookup_total_correct. unfold vs. by rewrite list_lookup_imap, Hd. }
    unfold freq_spacing. by rewrite spacing_inverse by (done || lia). }
  assert (length (zip_with (fun n d => fftshift1 (fftfreq n d)) (shape D) vs)
          = length (da_dims da)) as Hlk2.
  { rewrite length_zip_with, HsD. unfold vs. rewrite length_imap. lia. }
  cbn [da_dims da_coords da_data]. split; [done|]. split.
  - (* the data *)
    rewrite HG.
    assert ((fun k => (k !!! 1%nat - k !!! 0%nat)%q) <$>
              zip_with (fun n d => fftshift1 (fftfreq n d)) (shape D) vs = dxs) as ->.
    { apply list_eq. intros j. rewrite list_lookup_fmap.
      destruct (da_dims da !! j) as [d|] eqn:Hd.
      - rewrite (Hks2 j d Hd). cbn [fmap option_fmap option_map].
        destruct (H j d Hd) as (Hn & Hdxj & _).
        rewrite centred_grid_step by done.
        symmetry. apply list_lookup_lookup_total_lt.
        apply lookup_lt_Some in Hd. lia.
      - apply lookup_ge_None in Hd.
        rewrite (proj2 (lookup_ge_None _ j)) by lia.
        symmetry. apply lookup_ge_None. lia. }
    apply scale_cancel. apply np_prod_pos. apply Forall_forall. intros q Hq.
    apply list_elem_of_lookup in Hq as [j Hq].
    destruct (lookup_lt_is_Some_2 (da_dims da) j) as [d Hd];
      [apply lookup_lt_Some in Hq; lia|].
    destruct (H j d Hd) as (_ & Hdxj & _).
    by rewrite (list_lookup_total_correct _ _ _ Hq) in Hdxj.
  - (* the coordinates *)
    intros d.
    set (ks2 := zip_with (fun n d => fftshift1 (fftfreq n d)) (shape D) vs) in *.
    set (R2 := relabel (MkDataArray names C1 D) G names (coords_of (da_dims da) ks2)
                 ((fun d0 => (d0, new_name prefix d0)) <$> names)).
    assert (∀ d, d ∉ da_dims da → da_coords R2 !! d = da_coords da !! d) as Hout.
    { intros d' Hd'. unfold R2. rewrite relabel_lookup by (by rewrite coords_of_keys).
      cbn [da_coords]. case_bool_decide as Hin.
      - rewrite En in Hin. apply list_elem_of_fmap in Hin as (d0 & -> & Hd0).
        symmetry. by apply Hf.
      - rewrite dict_get_None by (by rewrite coords_of_keys).
        unfold C1. rewrite relabel_lookup
          by (rewrite coords_of_keys; [done|unfold ks; rewrite length_zip_with; lia]).
        rewrite bool_decide_eq_false_2 by done.
        rewrite dict_get_None; [done|].
        rewrite coords_of_keys; [done|unfold ks; rewrite length_zip_with; lia]. }
    destruct (decide (d ∈ da_dims da)) as [Hd|Hd].
    + apply list_elem_of_lookup in Hd as [j Hj].
      destruct (H j d Hj) as (Hn & Hdxj & ->).
      pose proof (Hks2 j d Hj) as Hk.
      destruct Hlag as [El | [El Hz]]; rewrite El.
      * destruct (lookup_lt_is_Some_2 lags j) as [l Hl];
          [apply lookup_lt_Some in Hj; lia|].
        rewrite foldl_insert_lookup
          by (rewrite shifted_coords_keys, coords_of_keys; try done;
              unfold coords_of, pydict; rewrite length_zip_with; lia).
        rewrite (shifted_coords_get _ _ _ j d _ l Hnd Hlk2 Hlg Hj Hk Hl).
        cbn [fmap option_fmap option_map cvalues]. f_equal.
        rewrite centred_grid_shift.
        by rewrite (list_lookup_total_correct _ _ _ Hl).
      * unfold R2.
        rewrite (relabel_new_lookup _ _ _ _ _ _ j d
                   (centred_grid (shape (da_data da) !!! j) (dxs !!! j) 0%q)
                   Hnd Hlk2); try done; try (intros d' Hd'; by apply Hdis).
        cbn [fmap option_fmap option_map cvalues]. do 2 f_equal.
        destruct (lookup_lt_is_Some_2 lags j) as [l Hl];
          [apply lookup_lt_Some in Hj; lia|].
        rewrite (list_lookup_total_correct _ _ _ Hl).
        exact (proj1 (Forall_lookup (eq 0%q) lags) Hz j l Hl).
    + destruct Hlag as [El | [El Hz]]; rewrite El.
      * rewrite foldl_insert_lookup
          by (rewrite shifted_coords_keys, coords_of_keys; try done;
              unfold coords_of, pydict; rewrite length_zip_with; lia).
        rewrite dict_get_None
          by (rewrite shifted_coords_keys, coords_of_keys; try done;
              unfold coords_of, pydict; rewrite length_zip_with; lia).
        by rewrite Hout.
      * by rewrite Hout.
Qed.

End RoundTripComplex.
(** * Further properties of the transforms *)

Lemma np_diff_replicate n x : np_diff (replicate n x) = replicate (n - 1) 0%q.
Proof.
  apply list_eq. intros j.
  destruct (decide (j < n - 1)%nat) as [Hj|Hj].
  - rewrite lookup_replicate_2 by done.
    rewrite (np_diff_lookup _ j x x) by (apply lookup_replicate_2; lia).
    f_equal. ring.
  - rewrite (proj2 (lookup_ge_None _ _)).
    + symmetry. apply lookup_replicate_None. lia.
    + rewrite np_diff_length, length_replicate. lia.
Qed.

Section ErrorPaths.
Context `{B : Backend}.

Lemma get_axis_num_elem (da : DataArray elt) d :
  d ∈ da_dims da → ∃ ax, get_axis_num da d = Ok ax.
Proof.
  intros Hd. unfold get_axis_num.
  destruct (list_find (eq d) (da_dims da)) as [[ax ?]|] eqn:E; [by exists ax|].
  apply list_find_None in E. exfalso.
  by apply (proj1 (Forall_forall _ _) E d Hd).
Qed.

(** X6.  [dft] and [idft] raise the error of a missing [real] dimension as
    soon as [real] is not a dimension of the array, whatever the other
    arguments are. *)
Theorem real_dimension_must_exist (da : DataArray elt) (r : string) tol dim
    shift detrend window tp ta cts prefix lag :
  r ∉ da_dims da →
  dft da tol dim (Some r) shift detrend window tp ta cts prefix
    = Raise RealDimMissing ∧
  idft da tol dim (Some r) shift detrend tp ta window cts prefix lag
    = Raise RealDimMissing.
Proof.
  intros Hr. unfold dft, idft, resolve_dim.
  by rewrite bool_decide_eq_false_2 by done.
Qed.

(** X7.  A coordinate whose values are all the same has zero spacing:
    [dft] along it raises the zero-spacing error, for every tolerance. *)
Theorem dft_rejects_constant_coordinate (da : DataArray elt) (d : string)
    (c : Coord) (x : Qc) (n : nat) tol shift detrend window tp ta prefix :
  d ∈ da_dims da → da_coords da !! d = Some c → cvalues c = replicate n x →
  (2 ≤ n)%nat → (0 <= tol)%q →
  dft da tol (DimStr d) None shift detrend window tp ta false prefix
    = Raise (ZeroSpacing d).
Proof.
  intros Hd Hc Hv Hn Htol. destruct (get_axis_num_elem da d Hd) as [ax Hax].
  unfold dft. cbn [resolve_dim real_last]. mstep. cbn [mapR]. rewrite Hax. mstep.
  unfold dft_check_axis, da_getitem. rewrite Hc. mstep.
  unfold _diff_coord, _lag_coord. rewrite Hv, length_replicate.
  rewrite !lookup_replicate_2 by (try apply Nat.Div0.div_lt_upper_bound; lia).
  cbn [or_raise]. mstep. rewrite np_diff_replicate.
  rewrite lookup_replicate_2 by lia. cbn [or_raise]. mstep.
  rewrite allclose_replicate by done. cbn [negb].
  unfold qeqb. rewrite Qcabs_0. by rewrite bool_decide_eq_true_2.
Qed.

(** X8.  A coordinate of fewer than two points has no spacing: [dft] along
    it raises [IndexError]. *)
Theorem dft_rejects_short_axis (da : DataArray elt) (d : string) (c : Coord)
    tol shift detrend window tp ta prefix :
  d ∈ da_dims da → da_coords da !! d = Some c → (length (cvalues c) < 2)%nat →
  dft da tol (DimStr d) None shift detrend window tp ta false prefix
    = Raise IndexError.
Proof.
  intros Hd Hc Hn. destruct (get_axis_num_elem da d Hd) as [ax Hax].
  unfold dft. cbn [resolve_dim real_last]. mstep. cbn [mapR]. rewrite Hax. mstep.
  unfold dft_check_axis, da_getitem. rewrite Hc. mstep.
  unfold _diff_coord.
  destruct (cvalues c) as [|x [|y l]]; simpl in Hn; try lia; done.
Qed.

(** X9.  [idft] raises the length error when the number of lags differs
    from the number of dimensions it transforms. *)
Theorem idft_lag_length_mismatch (daft : DataArray elt) tol dim real dims lag ls
    shift detrend tp ta window cts prefix :
  resolve_dim daft dim real = Ok dims → lags_of lag = Some ls →
  length dims ≠ length ls →
  idft daft tol dim real shift detrend tp ta window cts prefix lag
    = Raise LagLengthMismatch.
Proof.
  intros Hdim Hlag Hlen. unfold idft. rewrite Hdim. mstep.
  change (match lag with
          | LagNone => None
          | LagFloat l => Some [l]
          | LagList ls => Some ls
          end) with (lags_of lag).
  rewrite Hlag. by rewrite bool_decide_eq_false_2 by done.
Qed.

(** X10.  [idft] never returns when a detrending is asked for: the helper
    it calls is not defined.  Whenever the same call without detrending
    returns, the call with detrending raises [NameError]. *)
Theorem idft_detrend_never_returns (daft : DataArray elt) tol dim real
    shift detrend tp ta window cts prefix lag :
  truthy detrend = true →
  (∀ r, idft daft tol dim real shift detrend tp ta window cts prefix lag ≠ Ok r) ∧
  (∀ r, idft daft tol dim real shift PyNone tp ta window cts prefix lag = Ok r →
        idft daft tol dim real shift detrend tp ta window cts prefix lag
          = Raise (NameError "_apply_detrend")).
Proof.
  intros Ht. split.
  - intros r H. unfold idft in H. rewrite Ht in H. inv_binds.
  - intros r H. unfold idft in *. rewrite Ht. cbn [truthy] in H. revert H.
    repeat match goal with
    | |- (?m ≫= _) = Ok _ → _ =>
        destruct m as [?|?] eqn:?; cbn [mbind result_bind]; [|discriminate]
    | |- (let '(_, _) := ?p in _) = Ok _ → _ => destruct p
    end.
    done.
Qed.

End ErrorPaths.

Section Entry.
Context `{B : Backend}.








(** X14.  The isotropic spectra are taken over exactly two dimensions:
    any other number raises, before any transform; and without [dim], the
    isotropic cross spectrum first compares the dimensions of its two
    arguments. *)
Theorem isotropic_spectra_dimension_errors (da1 da2 : DataArray elt)
    (dim : list string) tol shift detrend density window nfactor :
  length dim ≠ 2%nat →
  isotropic_power_spectrum da1 tol (Some dim) shift detrend density window nfactor
    = Raise NotTwoDimensional ∧
  isotropic_cross_spectrum da1 da2 tol (Some dim) shift detrend density window nfactor
    = Raise NotTwoDimensional ∧
  (da_dims da1 = dim →
   isotropic_power_spectrum da1 tol None shift detrend density window nfactor
     = Raise NotTwoDimensional ∧
   isotropic_cross_spectrum da1 da2 tol None shift detrend density window nfactor
     = Raise (if bool_decide (da_dims da2 = dim) then NotTwoDimensional
              else DifferentDimensions)).
Proof.
  intros Hlen. unfold isotropic_power_spectrum, isotropic_cross_spectrum.
  cbn [default]. mstep.
  split; [by rewrite bool_decide_eq_false_2 by done|].
  split; [by rewrite bool_decide_eq_false_2 by done|]. intros <-.
  split; [by rewrite bool_decide_eq_false_2 by done|].
  destruct (decide (da_dims da2 = da_dims da1)) as [E|E].
  - rewrite (bool_decide_eq_true_2 (da_dims da2 = da_dims da1)) by done.
    rewrite (bool_decide_eq_true_2 (da_dims da1 = da_dims da2)) by done.
    cbn [negb]. mstep. by rewrite bool_decide_eq_false_2 by done.
  - rewrite (bool_decide_eq_false_2 (da_dims da2 = da_dims da1)) by done.
    by rewrite (bool_decide_eq_false_2 (da_dims da1 = da_dims da2)) by done.
Qed.

(** X15.  [isotropize] needs at least one bin: when the shorter of the two
    frequency axes has fewer than [nfactor] points the cut into bins
    raises, and [nfactor = 0] is a division by zero. *)
Theorem isotropize_needs_a_bin (ps : DataArray elt) (f0 f1 : string) (nfactor : Z)
    (k l : Coord) :
  f0 ≠ f1 →
  da_dims ps = [f0; f1] ∨ da_dims ps = [f1; f0] →
  da_coords ps !! f1 = Some k →
  da_coords ps !! f0 = Some l →
  (nfactor = 0%Z → isotropize ps [f0; f1] nfactor = Raise ZeroDivisionError) ∧
  ((0 < nfactor)%Z →
   (Z.of_nat (length (cvalues k) `min` length (cvalues l)) < nfactor)%Z →
   isotropize ps [f0; f1] nfactor = Raise BinsNotPositive).
Proof.
  intros Hne Hdims Hk Hl. unfold isotropize.
  cbn [lookup list_lookup or_raise]. mstep. unfold da_getitem. rewrite Hk, Hl. mstep.
  split.
  - intros ->. by rewrite bool_decide_eq_true_2.
  - intros Hpos Hlt. rewrite bool_decide_eq_false_2 by lia.
    rewrite (bool_decide_eq_false_2 (f1 = f0)) by done.
    assert (mapR (get_axis_num ps) [f1; f0] = Ok (if bool_decide (da_dims ps = [f0; f1])
                                                  then [1; 0] else [0; 1])%nat) as ->.
    { unfold get_axis_num. destruct Hdims as [-> | ->]; cbn [mapR].
      - rewrite bool_decide_eq_true_2 by done.
        rewrite (list_find_NoDup [f0; f1] 1 f1), (list_find_NoDup [f0; f1] 0 f0);
          try done; apply NoDup_cons; (split; [set_solver|apply NoDup_singleton]).
      - rewrite bool_decide_eq_false_2 by congruence.
        rewrite (list_find_NoDup [f1; f0] 0 f1), (list_find_NoDup [f1; f0] 1 f0);
          try done; apply NoDup_cons; (split; [set_solver|apply NoDup_singleton]). }
    mstep. unfold cut_edges.
    rewrite bool_decide_eq_true_2; [done|].
    cbn [foldr]. rewrite Z.quot_div_nonneg by lia.
    replace (length (cvalues k) `min` (length (cvalues l) `min` length (cvalues k)))%nat
      with (length (cvalues k) `min` length (cvalues l))%nat by lia.
    rewrite Z.div_small by lia. lia.
Qed.

End Entry.

Section Frequencies.
Context `{B : Backend}.


(** X4.  [_ifreq] undoes the spacing of [_freq]: from the frequency
    spacing [1 / (n d)] of an axis of [n >= 2] points it returns the points
    [(j - n // 2) d], the grid of spacing [d] whose midpoint is zero. *)
Theorem ifreq_restores_spacing (N : list nat) (vs : list Qc) (i n : nat) (d : Qc) :
  (2 ≤ n)%nat → (0 < d)%q → N !! i = Some n →
  vs !! i = Some (1 / (qn n * d))%q →
  ∃ x, _ifreq N vs None true !! i = Some x ∧ length x = n ∧
       x !! (n / 2)%nat = Some 0%q ∧
       ∀ j, (j < n)%nat → x !! j = Some ((qn j - qn (n / 2)) * d)%q.
Proof.
  intros Hn Hd HN Hv. exists (centred_grid n d 0%q).
  rewrite ifreq_shifted, lookup_zip_with, HN, Hv. cbn [mbind option_bind].
  rewrite fftshift1_fftfreq, spacing_inverse by (done || lia).
  split; [done|]. split; [apply centred_grid_length|].
  split; [apply centred_grid_mid; lia|].
  intros j Hj. rewrite centred_grid_lookup by done. f_equal. ring.
Qed.

(** X2.  On an array sampled on regular grids, [dft] over all dimensions
    returns (the kernel keeping the shape): every dimension [d] is renamed
    [prefix + d], its coordinate is dropped, and the new coordinate is the
    grid of spacing [1 / (n dx)] centred on zero, which its [spacing]
    attribute records; this for either value of [true_phase] and
    [true_amplitude]. *)
Theorem dft_output_on_frequency_grid (da : DataArray elt) dxs lags tol prefix
    (tp ta : bool) :
  on_grid da dxs lags → fresh_prefix prefix da → (0 <= tol)%q →
  (∀ Y axes, shape (fftn Y axes) = shape Y) →
  ∃ daft,
    dft da tol DimNone None true PyNone false tp ta false prefix = Ok daft ∧
    da_dims daft = (String.append prefix) <$> da_dims da ∧
    shape (da_data daft) = shape (da_data da) ∧
    ∀ j d, da_dims da !! j = Some d →
      let n := shape (da_data da) !!! j in
      let v := (1 / (qn n * dxs !!! j))%q in
      da_coords daft !! d = None ∧
      da_coords daft !! (prefix +:+ d) = Some (MkCoord (centred_grid n v 0%q) (Some v)).
Proof.
  intros Hg Hf Htol Hshape.
  pose proof Hg as (Hnd & Hwf & Hs & Hdx & Hlg & H).
  destruct (fresh_names prefix da Hnd Hf) as (En & Hnn & Hback & Hdis & Hdis').
  eexists. split.
  { apply (dft_complex_eval da dxs lags tol prefix tp ta); try done.
    cbn [fftshift np_roll of_fun shape]. by destruct tp; rewrite Hshape. }
  cbn [da_dims da_coords da_data]. split; [done|]. split.
  { destruct ta, tp; cbn [nd_map shape]; rewrite ?mul_vectors_shape;
      cbn [fftshift np_roll of_fun shape]; by rewrite Hshape. }
  intros j d Hd.
  set (n := shape (da_data da) !!! j). set (v := (1 / (qn n * dxs !!! j))%q).
  split.
  - rewrite relabel_lookup.
    + rewrite bool_decide_eq_true_2; [done|]. by eapply list_elem_of_lookup_2.
    + rewrite coords_of_keys; [done|]. rewrite length_zip_with, length_fmap. lia.
  - assert ((new_name prefix <$> da_dims da) !! j = Some (prefix +:+ d)) as Hname.
    { rewrite En. by rewrite list_lookup_fmap, Hd. }
    destruct (H j d Hd) as (Hn & Hdxj & _).
    rewrite (relabel_new_lookup _ _ _ _ _ _ j (prefix +:+ d) (centred_grid n v 0%q));
      try done.
    + by rewrite centred_grid_step.
    + rewrite length_zip_with, length_fmap. lia.
    + intros d' Hd' Hin. by apply (Hdis d').
    + rewrite (on_grid_freqs da dxs lags Hg). by rewrite list_lookup_imap, Hd.
Qed.

End Frequencies.

Section InverseCoordinates.
Context `{B : Backend}.

(** X5.  On frequencies sampled on regular grids centred on zero, [idft]
    over all dimensions (with [true_phase] and [true_amplitude], the kernel
    keeping the shape) returns coordinates of spacing [1 / (n dv)] whose
    midpoint [x[n // 2]] is the lag given for the dimension, and zero when
    no lag is given; the [spacing] attribute records the spacing. *)
Theorem idft_output_coordinates (b : DataArray elt) vs zs tol prefix lag :
  on_grid b vs zs → Forall (eq 0%q) zs → (0 <= tol)%q →
  NoDup (new_name prefix <$> da_dims b) →
  (∀ d, d ∈ da_dims b → new_name prefix d ∉ da_dims b) →
  match lags_of lag with
  | Some ls => length ls = length (da_dims b)
  | None => True
  end →
  (∀ Y axes, shape (ifftn Y axes) = shape Y) →
  ∃ r,
    idft b tol DimNone None true PyNone true true false false prefix lag = Ok r ∧
    da_dims r = new_name prefix <$> da_dims b ∧
    ∀ j d, da_dims b !! j = Some d →
      let n := shape (da_data b) !!! j in
      let dx := (1 / (qn n * vs !!! j))%q in
      let l := match lags_of lag with Some ls => ls !!! j | None => 0%q end in
      da_coords r !! new_name prefix d = Some (MkCoord (centred_grid n dx l) (Some dx)).
Proof.
  intros Hg Hz Htol Hnn Hfresh Hlag Hshape.
  pose proof Hg as (Hnd & Hwf & Hs & Hdx & Hlg & H).
  eexists. split.
  { apply (idft_complex_eval b vs zs tol prefix lag); try done.
    cbn [fftshift np_roll of_fun shape]. rewrite Hshape.
    cbn [ifftshift np_roll of_fun shape].
    destruct (lags_of lag); [apply mul_vectors_shape|done]. }
  cbn [da_dims da_coords da_data]. split; [done|].
  intros j d Hd.
  set (n := shape (da_data b) !!! j). set (dx := (1 / (qn n * vs !!! j))%q).
  destruct (H j d Hd) as (Hn & Hv & _). fold n in Hn.
  set (names := new_name prefix <$> da_dims b) in *.
  set (ks := zip_with (fun n d => fftshift1 (fftfreq n d)) (shape (da_data b)) vs).
  assert (length ks = length names) as Hlk.
  { unfold ks, names. rewrite length_zip_with, length_fmap. lia. }
  assert (length names = length (da_dims b)) as Hln
    by (unfold names; by rewrite length_fmap).
  assert (names !! j = Some (new_name prefix d)) as Hname.
  { unfold names. by rewrite list_lookup_fmap, Hd. }
  assert (ks !! j = Some (centred_grid n dx 0%q)) as Hk.
  { unfold ks. rewrite (on_grid_freqs b vs zs Hg). by rewrite list_lookup_imap, Hd. }
  assert (∀ d', d' ∈ names → d' ∉ da_dims b) as Hfresh'.
  { intros d' Hd'. apply list_elem_of_fmap in Hd' as (d0 & -> & Hd0). by apply Hfresh. }
  destruct (lags_of lag) as [ls|].
  - destruct (lookup_lt_is_Some_2 ls j) as [l Hl];
      [apply lookup_lt_Some in Hd; lia|].
    rewrite foldl_insert_lookup
      by (rewrite shifted_coords_keys, coords_of_keys; try done;
          unfold coords_of, pydict; rewrite length_zip_with; lia).
    rewrite (shifted_coords_get names ks ls j _ _ l Hnn Hlk ltac:(lia) Hname Hk Hl).
    rewrite centred_grid_shift, centred_grid_step by done.
    by rewrite (list_lookup_total_correct _ _ _ Hl).
  - rewrite (relabel_new_lookup _ _ _ _ _ _ j _ _ Hnn Hlk Hfresh' Hname Hk).
    by rewrite centred_grid_step.
Qed.

End InverseCoordinates.

Section Scalings.
Context `{B : Backend} `{!ElementLaws B}.



End Scalings.

Section MoreTransforms.
Context `{B : Backend}.

(** X16.  [true_amplitude] multiplies the transform by the product of the
    spacings of the transformed coordinates: on an array sampled on regular
    grids, [dft] with the flag is [dft] without it, scaled. *)
Theorem dft_true_amplitude_scales (da : DataArray elt) dxs lags tol prefix (tp : bool) :
  on_grid da dxs lags → fresh_prefix prefix da → (0 <= tol)%q →
  (∀ Y axes, shape (fftn Y axes) = shape Y) →
  ∃ raw,
    dft da tol DimNone None true PyNone false tp false false prefix = Ok raw ∧
    dft da tol DimNone None true PyNone false tp true false prefix
      = Ok (da_scale raw (np_prod dxs)).
Proof.
  intros Hg Hf Htol Hshape.
  pose proof Hg as (Hnd & _).
  destruct (fresh_names prefix da Hnd Hf) as (_ & Hnn & _).
  assert (shape (fftshift (if tp
                           then fftn (ifftshift (da_data da)
                                        (seq 0 (length (da_dims da))))
                                  (seq 0 (length (da_dims da)))
                           else fftn (da_data da) (seq 0 (length (da_dims da))))
                   (seq 0 (length (da_dims da)))) = shape (da_data da)) as HF.
  { cbn [fftshift np_roll of_fun shape]. by destruct tp; rewrite Hshape. }
  eexists. split.
  - by apply (dft_complex_eval da dxs lags tol prefix tp false).
  - by rewrite (dft_complex_eval da dxs lags tol prefix tp true).
Qed.

(** X17.  On an array sampled on regular grids, [fft] without keywords
    returns the shifted output of the kernel on the data as they are, under
    the names [freq_ + d]: neither phase nor amplitude is corrected. *)
Theorem fft_is_the_shifted_kernel (da : DataArray elt) dxs lags :
  on_grid da dxs lags → fresh_prefix "freq_" da →
  (∀ Y axes, shape (fftn Y axes) = shape Y) →
  ∃ r, fft da DimNone ∅ = Ok r ∧
       da_dims r = (String.append "freq_") <$> da_dims da ∧
       da_data r = fftshift (fftn (da_data da) (seq 0 (length (da_dims da))))
                            (seq 0 (length (da_dims da))).
Proof.
  intros Hg Hf Hshape.
  pose proof Hg as (Hnd & _).
  destruct (fresh_names "freq_" da Hnd Hf) as (En & Hnn & _).
  unfold fft. rewrite !delete_empty.
  rewrite bool_decide_eq_true_2 by set_solver.
  unfold real_kw. rewrite lookup_empty. mstep.
  unfold dft_kw.
  rewrite bool_decide_eq_true_2 by (apply (bool_decide_unpack _); by vm_compute).
  repeat (rewrite lookup_insert_eq || (rewrite lookup_insert_ne by done)
          || rewrite lookup_empty).
  cbn [default from_option id as_float as_str truthy]. mstep.
  rewrite (dft_complex_eval da dxs lags (qfrac 1 1000) "freq_" false false);
    try done.
  - eexists. split; [done|]. cbn [da_dims da_data]. by rewrite En.
  - cbn [fftshift np_roll of_fun shape]. by rewrite Hshape.
Qed.

(** X18.  The option [chunks_to_segments] needs a chunked array: on an
    array held in memory, [dft] and [idft] over all its dimensions raise
    [TypeError] as soon as the array has a dimension. *)
Theorem chunks_to_segments_needs_chunks (da : DataArray elt) tol
    shift detrend window tp ta prefix :
  da_dims da ≠ [] →
  dft da tol DimNone None shift detrend window tp ta true prefix = Raise TypeError ∧
  idft da tol DimNone None shift detrend tp ta window true prefix LagNone
    = Raise TypeError.
Proof.
  intros Hne. unfold dft, idft. cbn [resolve_dim]. mstep. unfold _stack_chunks.
  rewrite bool_decide_eq_true_2; [done|].
  destruct (da_dims da) as [|d ds]; [done|]. apply Exists_cons_hd. by left.
Qed.

End MoreTransforms.

(** ** The properties above on concrete arrays *)

Lemma Gauss_fftn_shape (a : ndarray Gauss.t) axes :
  shape (Gauss.fftn a axes) = shape a.
Proof. induction axes as [|ax axes IH]; [done|]. simpl. exact IH. Qed.

Lemma Gauss_ifftn_shape (a : ndarray Gauss.t) axes :
  shape (Gauss.ifftn a axes) = shape a.
Proof. induction axes as [|ax axes IH]; [done|]. simpl. exact IH. Qed.

Lemma on_grid_off_centre :
  on_grid (B := Gauss.backend) Examples.off_centre [qz 1] [qz 3].
Proof.
  unfold on_grid. split; [apply NoDup_singleton|]. repeat (split; [reflexivity|]).
  intros [|j] d Hd; [|done]. injection Hd as <-.
  split; [vm_compute; lia|]. split; [done|].
  apply (bool_decide_unpack _). by vm_compute.
Qed.

Lemma fresh_prefix_off_centre :
  fresh_prefix (B := Gauss.backend) "freq_" Examples.off_centre.
Proof. intros d Hd. apply list_elem_of_singleton in Hd as ->. done. Qed.

Lemma on_grid_spectrum44 :
  on_grid (B := Gauss.backend) Examples.spectrum44
    [qfrac 1 4; qfrac 1 4] [0%q; 0%q].
Proof.
  unfold on_grid. split; [by apply (bool_decide_unpack _)|].
  repeat (split; [reflexivity|]).
  intros [|[|j]] d Hd; [| |done]; injection Hd as <-.
  all: split; [vm_compute; lia|]; split; [done|].
  all: apply (bool_decide_unpack _); by vm_compute.
Qed.

Lemma idft_inverts_dft_on_grid_witness :
  ∃ daft r,
    Examples.dft_default Examples.off_centre = Ok daft ∧
    Examples.idft_default daft (LagFloat (qz 3)) = Ok r ∧
    da_dims r = ["x"] ∧ da_data r = da_data Examples.off_centre ∧
    ∀ d, cvalues <$> da_coords r !! d
         = cvalues <$> da_coords Examples.off_centre !! d.
Proof.
  apply (idft_inverts_dft_on_grid (B := Gauss.backend) Examples.off_centre
           [qz 1] [qz 3] Examples.tol3 "freq_" (LagFloat (qz 3))).
  - exact on_grid_off_centre.
  - exact fresh_prefix_off_centre.
  - done.
  - by left.
  - repeat split; apply (bool_decide_unpack _); by vm_compute.
Defined.

Lemma dft_output_on_frequency_grid_witness :
  ∃ daft,
    Examples.dft_default Examples.off_centre = Ok daft ∧
    da_dims daft = ["freq_x"] ∧
    da_coords daft !! "x" = None ∧
    da_coords daft !! "freq_x"
      = Some (MkCoord (centred_grid 4 (1 / (qn 4 * qz 1))%q 0%q)
                      (Some (1 / (qn 4 * qz 1))%q)).
Proof.
  destruct (dft_output_on_frequency_grid (B := Gauss.backend) Examples.off_centre
              [qz 1] [qz 3] Examples.tol3 "freq_" true true)
    as (daft & H1 & H2 & _ & H3).
  - exact on_grid_off_centre.
  - exact fresh_prefix_off_centre.
  - done.
  - exact Gauss_fftn_shape.
  - exists daft. destruct (H3 0%nat "x" eq_refl) as [H4 H5]. done.
Defined.


Lemma ifreq_restores_spacing_witness :
  ∃ x, _ifreq [4%nat] [(1 / (qn 4 * qz 1))%q] None true !! 0%nat = Some x ∧
       length x = 4%nat ∧ x !! 2%nat = Some 0%q.
Proof.
  destruct (ifreq_restores_spacing [4%nat] [(1 / (qn 4 * qz 1))%q] 0 4 (qz 1))
    as (x & H1 & H2 & H3 & _).
  - lia.
  - done.
  - reflexivity.
  - reflexivity.
  - by exists x.
Defined.

Lemma idft_output_coordinates_witness :
  ∃ r,
    Examples.idft_default Examples.spectrum44 (LagList [qz 1; qz 2]) = Ok r ∧
    da_dims r = ["x"; "y"] ∧
    da_coords r !! "y"
      = Some (MkCoord (centred_grid 4 (1 / (qn 4 * qfrac 1 4))%q (qz 2))
                      (Some (1 / (qn 4 * qfrac 1 4))%q)).
Proof.
  destruct (idft_output_coordinates (B := Gauss.backend) Examples.spectrum44
              [qfrac 1 4; qfrac 1 4] [0%q; 0%q] Examples.tol3 "freq_"
              (LagList [qz 1; qz 2]))
    as (r & H1 & H2 & H3).
  - exact on_grid_spectrum44.
  - by repeat constructor.
  - done.
  - by apply (bool_decide_unpack _).
  - intros d Hd. apply (bool_decide_unpack _).
    inversion Hd as [|? ? ? Hd']; subst; [by vm_compute|].
    inversion Hd' as [|? ? ? Hd'']; subst; [by vm_compute|].
    inversion Hd''.
  - reflexivity.
  - exact Gauss_ifftn_shape.
  - exists r. split; [done|]. split; [done|]. exact (H3 1%nat "freq_y" eq_refl).
Defined.

Lemma real_dimension_must_exist_witness :
  dft (B := Gauss.backend) Examples.off_centre Examples.tol3 DimNone (Some "y")
      true PyNone false true true false "freq_" = Raise RealDimMissing.
Proof.
  apply (real_dimension_must_exist (B := Gauss.backend) Examples.off_centre "y"
           Examples.tol3 DimNone true PyNone false true true false "freq_" LagNone).
  by apply (bool_decide_unpack _).
Defined.

Lemma dft_rejects_constant_coordinate_witness :
  Examples.dft_default MoreExamples.constant_axis = Raise (ZeroSpacing "x").
Proof.
  apply (dft_rejects_constant_coordinate (B := Gauss.backend)
           MoreExamples.constant_axis "x" (MkCoord (replicate 4 (qz 1)) None)
           (qz 1) 4 Examples.tol3 true PyNone false true true "freq_").
  - by apply (bool_decide_unpack _).
  - reflexivity.
  - reflexivity.
  - lia.
  - done.
Defined.

Lemma dft_rejects_short_axis_witness :
  Examples.dft_default MoreExamples.single_point = Raise IndexError.
Proof.
  apply (dft_rejects_short_axis (B := Gauss.backend)
           MoreExamples.single_point "x" (MkCoord [qz 0] None)
           Examples.tol3 true PyNone false true true "freq_").
  - by apply (bool_decide_unpack _).
  - reflexivity.
  - simpl. lia.
Defined.

Lemma idft_lag_length_mismatch_witness :
  idft (B := Gauss.backend) Examples.centred Examples.tol3 DimNone None true PyNone
       true true false false "freq_" (LagList [qz 1; qz 2])
    = Raise LagLengthMismatch.
Proof.
  apply (idft_lag_length_mismatch (B := Gauss.backend) Examples.centred
           Examples.tol3 DimNone None ["x"] (LagList [qz 1; qz 2]) [qz 1; qz 2]
           true PyNone true true false false "freq_").
  - reflexivity.
  - reflexivity.
  - simpl. lia.
Defined.

Lemma idft_detrend_never_returns_witness :
  (∀ r, idft (B := Gauss.backend) Examples.centred Examples.tol3 DimNone None true
          (PyStr "constant") true true false false "freq_" LagNone ≠ Ok r) ∧
  (∀ r, idft (B := Gauss.backend) Examples.centred Examples.tol3 DimNone None true
          PyNone true true false false "freq_" LagNone = Ok r →
        idft (B := Gauss.backend) Examples.centred Examples.tol3 DimNone None true
          (PyStr "constant") true true false false "freq_" LagNone
          = Raise (NameError "_apply_detrend")).
Proof.
  apply (idft_detrend_never_returns (B := Gauss.backend) Examples.centred
           Examples.tol3 DimNone None true (PyStr "constant") true true false false
           "freq_" LagNone).
  reflexivity.
Defined.


Lemma isotropic_spectra_dimension_errors_witness :
  isotropic_power_spectrum (B := Gauss.backend) Examples.off_centre Examples.tol3
    None true PyNone true false 4 = Raise NotTwoDimensional.
Proof.
  destruct (isotropic_spectra_dimension_errors (B := Gauss.backend)
              Examples.off_centre Examples.off_centre ["x"] Examples.tol3
              true PyNone true false 4) as (_ & _ & H).
  - simpl. lia.
  - by destruct (H eq_refl).
Defined.

Lemma isotropize_needs_a_bin_witness :
  isotropize (B := Gauss.backend) Examples.spectrum44 ["freq_x"; "freq_y"] 8
    = Raise BinsNotPositive.
Proof.
  destruct (isotropize_needs_a_bin (B := Gauss.backend) Examples.spectrum44
              "freq_x" "freq_y" 8 Examples.quarter_freqs Examples.quarter_freqs)
    as [_ H].
  - done.
  - by left.
  - reflexivity.
  - reflexivity.
  - apply H; [lia|by vm_compute].
Defined.

Lemma dft_true_amplitude_scales_witness :
  ∃ raw,
    dft (B := Gauss.backend) Examples.off_centre Examples.tol3 DimNone None true
        PyNone false true false false "freq_" = Ok raw ∧
    dft (B := Gauss.backend) Examples.off_centre Examples.tol3 DimNone None true
        PyNone false true true false "freq_" = Ok (da_scale raw (np_prod [qz 1])).
Proof.
  apply (dft_true_amplitude_scales (B := Gauss.backend) Examples.off_centre
           [qz 1] [qz 3] Examples.tol3 "freq_" true).
  - exact on_grid_off_centre.
  - exact fresh_prefix_off_centre.
  - done.
  - exact Gauss_fftn_shape.
Defined.

Lemma fft_is_the_shifted_kernel_witness :
  ∃ r, fft (B := Gauss.backend) Examples.off_centre DimNone ∅ = Ok r ∧
       da_dims r = (String.append "freq_") <$> da_dims Examples.off_centre ∧
       da_data r =
         fftshift (@fftn Gauss.backend (da_data Examples.off_centre)
                     (seq 0 (length (da_dims Examples.off_centre))))
                  (seq 0 (length (da_dims Examples.off_centre))).
Proof.
  apply (fft_is_the_shifted_kernel (B := Gauss.backend) Examples.off_centre
           [qz 1] [qz 3]).
  - exact on_grid_off_centre.
  - exact fresh_prefix_off_centre.
  - exact Gauss_fftn_shape.
Defined.

Lemma chunks_to_segments_needs_chunks_witness :
  dft (B := Gauss.backend) Examples.off_centre Examples.tol3 DimNone None true
      PyNone false true true true "freq_" = Raise TypeError.
Proof.
  apply (chunks_to_segments_needs_chunks (B := Gauss.backend) Examples.off_centre
           Examples.tol3 true PyNone false true true "freq_").
  done.
Defined.
